(** * The inode tree of the FUSE FileSystemConnector (fuse/fsconnector.go)

    A shallow embedding of the connector's tree operations: lookup and
    forget reference counting, garbage collection of inodes, rename and
    unlink, path resolution, mount and unmount, and the notifications sent
    back to the kernel.

    Go pointers are addresses into explicit stores ([inodes] for [*Inode],
    [fsmounts] for [*fileSystemMount]); every operation is a function of the
    store in an error-and-state monad whose failure case is a Go panic.
    Locks are not modelled: every operation runs to completion on its own. *)

From Stdlib Require Import ZArith String Ascii List Lia.
From stdpp Require Import base option list gmap strings fin_maps.

Local Open Scope Z_scope.

(** ** Machine integers *)

(** Go's [int]: a signed two's-complement integer of [int_bits] bits. *)
Definition int_bits : Z := 64.
Definition min_int : Z := - 2 ^ (int_bits - 1).
Definition max_int : Z := 2 ^ (int_bits - 1) - 1.

(** Wrap-around of a mathematical integer into the range of [int]. *)
Definition wrap_int (z : Z) : Z :=
  (z + 2 ^ (int_bits - 1)) mod 2 ^ int_bits - 2 ^ (int_bits - 1).

Definition int_add (a b : Z) : Z := wrap_int (a + b).
Definition int_sub (a b : Z) : Z := wrap_int (a - b).

(** ** Strings and paths (Go's [strings] and [path/filepath], Unix flavour) *)

Definition slash : ascii := "/"%char.
Definition dot : ascii := "."%char.

Definition is_slash (c : ascii) : bool := bool_decide (c = slash).

(** [strings.Split(s, "/")]: the pieces of [s] between separators; a
    string without separator (the empty string too) gives one piece. *)
Fixpoint strings_Split (s : string) : list string :=
  match s with
  | EmptyString => [EmptyString]
  | String c s' =>
      if is_slash c then EmptyString :: strings_Split s'
      else match strings_Split s' with
           | x :: xs => String c x :: xs
           | [] => [String c EmptyString]
           end
  end.

(** [strings.TrimLeft(s, "/")]: drop every leading separator. *)
Fixpoint strings_TrimLeft (s : string) : string :=
  match s with
  | EmptyString => EmptyString
  | String c s' => if is_slash c then strings_TrimLeft s' else s
  end.

(** [strings.Join(elems, "/")]. *)
Fixpoint strings_Join (elems : list string) : string :=
  match elems with
  | [] => EmptyString
  | [e] => e
  | e :: rest => (e ++ String slash (strings_Join rest))%string
  end.

(** [filepath.Split(path)]: cut just after the last separator; without a
    separator the directory part is empty. *)
Fixpoint filepath_Split (path : string) : string * string :=
  match path with
  | EmptyString => (EmptyString, EmptyString)
  | String c rest =>
      let '(d, f) := filepath_Split rest in
      match d with
      | EmptyString =>
          if is_slash c then (String c EmptyString, rest)
          else (EmptyString, String c rest)
      | _ => (String c d, f)
      end
  end.

(** The elements kept by [filepath.Clean], as a stack with the last kept
    element first: empty and [.] elements are dropped, [..] removes the
    element before it, is dropped at the root of a rooted path and is kept
    at the start of a relative one. *)
Fixpoint clean_elems (rooted : bool) (out : list string) (elems : list string)
  : list string :=
  match elems with
  | [] => rev out
  | e :: rest =>
      if bool_decide (e = EmptyString) || bool_decide (e = "."%string) then
        clean_elems rooted out rest
      else if bool_decide (e = ".."%string) then
        match out with
        | o :: out' =>
            if bool_decide (o = ".."%string)
            then clean_elems rooted (e :: out) rest
            else clean_elems rooted out' rest
        | [] =>
            if rooted then clean_elems rooted [] rest
            else clean_elems rooted [e] rest
        end
      else clean_elems rooted (e :: out) rest
  end.

(** [filepath.Clean(path)]: the shortest path name equivalent to [path] by
    purely lexical processing; the empty result is written [.]. *)
Definition filepath_Clean (path : string) : string :=
  match path with
  | EmptyString => "."%string
  | String c _ =>
      let rooted := is_slash c in
      let body := strings_Join (clean_elems rooted [] (strings_Split path)) in
      let out := if rooted then String slash body else body in
      match out with
      | EmptyString => "."%string
      | _ => out
      end
  end.

(** ** Data model *)

(** Addresses of [Inode] and [fileSystemMount] objects ([*Inode] and
    [*fileSystemMount]; a nil pointer is [None]), of [FileSystemOptions]
    objects and of open files; a [NodeFileSystem] backend is known by an
    identifier only. *)
Abbreviation addr := positive (only parsing).
Abbreviation maddr := positive (only parsing).
Abbreviation optaddr := positive (only parsing).
Abbreviation fileaddr := positive (only parsing).
Abbreviation backend := positive (only parsing).

(** Status codes are errno values ([Status] is declared in another file of
    the package); [EEXIST] is the errno that reads "already exists". *)
Abbreviation Status := Z (only parsing).
Definition OK : Status := 0.
Definition ENOENT : Status := 2.
Definition EBUSY : Status := 16.
Definition EEXIST : Status := 17.
Definition EINVAL : Status := 22.

(** Modelled from the spec: the reserved identifier of the root inode
    ([FUSE_ROOT_ID], declared in another file of the package). *)
Definition FUSE_ROOT_ID : N := 1%N.

(** Modelled from the spec: HandleMap (handle.go is not part of the
    source at hand), a registry from 64-bit handles to the objects that own
    them.  [Register] hands out a handle that is not in use (and is neither
    zero nor the reserved root identifier), [Decode] resolves a handle and
    fails on a stale or unknown one, [Forget] releases the slot. *)
Module HandleMap.
Definition Register (m : gmap N positive) (obj : positive)
  : N * gmap N positive :=
  let h := fresh (dom m ∪ {[0%N; FUSE_ROOT_ID]}) in (h, <[h := obj]> m).
Definition Decode (m : gmap N positive) (h : N) : option positive := m !! h.
Definition Forget (m : gmap N positive) (h : N) : gmap N positive :=
  delete h m.
Definition Count (m : gmap N positive) : nat := size m.
End HandleMap.

(** The fields of [Inode] (inode.go) that fsconnector.go reads or writes.
    A Go map that was never made is [None]: it reads as empty and a write
    to it panics. *)
Record Inode := mkInode {
  nodeId : N;
  children : option (gmap string addr);
  mounts : option (gmap string maddr);
  lookupCount : Z;
  mountPoint : option maddr;
  mount : option maddr;
  openFiles : list fileaddr;
}.

(** The fields of [fileSystemMount] that fsconnector.go reads or writes. *)
Record fileSystemMount := mkMount {
  fs : backend;
  mountInode : option addr;
  options : option optaddr;
  mountOpenFiles : gmap N fileaddr;
}.

Record NotifyInvalInodeOut := mkInval {
  Ino : N;
  Off : Z;
  Length : Z;
}.

(** [RawFsInit]: the two functions through which the connector notifies
    the kernel; each answers with a status. *)
Module RawFsInit.
Record t := mk {
  InodeNotify : NotifyInvalInodeOut → Status;
  EntryNotify : N → string → Status;
}.
End RawFsInit.

(** What leaves the connector: the hooks of a backend and the
    notifications to the kernel, in the order they are made. *)
Inductive Event :=
  | EvFsMount (b : backend)
  | EvFsUnmount (b : backend)
  | EvEntryNotify (parent : N) (name : string)
  | EvInodeNotify (out : NotifyInvalInodeOut).

(** The [FileSystemConnector] together with the objects it points to. *)
Record State := mkState {
  Debug : bool;
  fsInit : RawFsInit.t;
  inodeMap : gmap N addr;
  rootNode : addr;
  inodes : gmap addr Inode;
  fsmounts : gmap maddr fileSystemMount;
  events : list Event;
}.

Definition set_children (c : option (gmap string addr)) (i : Inode) : Inode :=
  mkInode (nodeId i) c (mounts i) (lookupCount i) (mountPoint i) (mount i)
          (openFiles i).
Definition set_mounts (m : option (gmap string maddr)) (i : Inode) : Inode :=
  mkInode (nodeId i) (children i) m (lookupCount i) (mountPoint i) (mount i)
          (openFiles i).
Definition set_lookupCount (z : Z) (i : Inode) : Inode :=
  mkInode (nodeId i) (children i) (mounts i) z (mountPoint i) (mount i)
          (openFiles i).
Definition set_mountPoint (m : option maddr) (i : Inode) : Inode :=
  mkInode (nodeId i) (children i) (mounts i) (lookupCount i) m (mount i)
          (openFiles i).
Definition set_mount (m : option maddr) (i : Inode) : Inode :=
  mkInode (nodeId i) (children i) (mounts i) (lookupCount i) (mountPoint i) m
          (openFiles i).
Definition set_mountInode (n : option addr) (m : fileSystemMount)
  : fileSystemMount :=
  mkMount (fs m) n (options m) (mountOpenFiles m).

Definition set_inodes (h : gmap addr Inode) (st : State) : State :=
  mkState (Debug st) (fsInit st) (inodeMap st) (rootNode st) h (fsmounts st)
          (events st).
Definition set_inodeMap (h : gmap N addr) (st : State) : State :=
  mkState (Debug st) (fsInit st) h (rootNode st) (inodes st) (fsmounts st)
          (events st).
Definition set_fsmounts (h : gmap maddr fileSystemMount) (st : State) : State :=
  mkState (Debug st) (fsInit st) (inodeMap st) (rootNode st) (inodes st) h
          (events st).
Definition emit (e : Event) (st : State) : State :=
  mkState (Debug st) (fsInit st) (inodeMap st) (rootNode st) (inodes st)
          (fsmounts st) (events st ++ [e]).

(** ** Results and the monad of the operations *)

(** An operation returns a value and a new state, or panics (the state is
    the one at the moment of the panic), or the recursion bound of
    [considerDropInode] was too small. *)
Inductive Res (A : Type) :=
  | Ok (a : A) (st : State)
  | Panic (msg : string) (st : State)
  | OutOfFuel.
Arguments Ok {A} a st.
Arguments Panic {A} msg st.
Arguments OutOfFuel {A}.

Definition M (A : Type) : Type := State → Res A.

Definition ret {A} (a : A) : M A := λ st, Ok a st.
Definition bind {A B} (c : M A) (k : A → M B) : M B :=
  λ st, match c st with
        | Ok a st' => k a st'
        | Panic msg st' => Panic msg st'
        | OutOfFuel => OutOfFuel
        end.
Definition panic {A} (msg : string) : M A := λ st, Panic msg st.

Notation "'do' x <- c1 ; c2" := (bind c1 (λ x, c2))
  (at level 10, x name, c1 at level 100, c2 at level 200,
   format "'[v' 'do'  x  <-  c1 ; '/' c2 ']'").
Notation "'do_' c1 ; c2" := (bind c1 (λ _, c2))
  (at level 10, c1 at level 100, c2 at level 200).

(** Dereference of an [*Inode]: a pointer that is nil or dangling panics. *)
Definition load (n : addr) : M Inode :=
  λ st, match inodes st !! n with
        | Some i => Ok i st
        | None => Panic "nil dereference" st
        end.
Definition store (n : addr) (i : Inode) : M unit :=
  λ st, Ok tt (set_inodes (<[n := i]> (inodes st)) st).
Definition load_mount (m : maddr) : M fileSystemMount :=
  λ st, match fsmounts st !! m with
        | Some x => Ok x st
        | None => Panic "nil dereference" st
        end.
Definition store_mount (m : maddr) (x : fileSystemMount) : M unit :=
  λ st, Ok tt (set_fsmounts (<[m := x]> (fsmounts st)) st).
Definition emitM (e : Event) : M unit := λ st, Ok tt (emit e st).
Definition get : M State := λ st, Ok st st.

(** Reading a map that may be nil. *)
Definition map_get {V} (m : option (gmap string V)) (k : string) : option V :=
  m ≫= (.!! k).
Definition map_len {V} (m : option (gmap string V)) : nat :=
  from_option size 0%nat m.

(** [n.children[name]] as a pure read of the store. *)
Definition child (st : State) (n : addr) (name : string) : option addr :=
  inodes st !! n ≫= λ i, map_get (children i) name.

(** ** Helpers of inode.go *)

(** Modelled from the spec: [Inode.addChild] (inode.go is not part of the
    source at hand) inserts the child under the name in the parent's child
    map; as in any Go program, the insertion panics when the map was never
    made. *)
Definition addChild (parent : addr) (name : string) (ch : addr) : M unit :=
  do p <- load parent;
  match children p with
  | Some m => store parent (set_children (Some (<[name := ch]> m)) p)
  | None => panic "assignment to entry in nil map"
  end.

(** Modelled from the spec: [Inode.rmChild] (inode.go is not part of the
    source at hand) detaches the named child from the parent's child map and
    returns it, or returns nil and changes nothing when there is none. *)
Definition rmChild (parent : addr) (name : string) : M (option addr) :=
  do p <- load parent;
  match children p with
  | Some m =>
      match m !! name with
      | Some ch =>
          do_ store parent (set_children (Some (delete name m)) p);
          ret (Some ch)
      | None => ret None
      end
  | None => ret None
  end.

(** Modelled from the spec: [Inode.mountFs] (inode.go is not part of the
    source at hand) binds the inode to a new [fileSystemMount] that wraps
    the backend and the options, has the inode as its root and no open
    file; the inode belongs to that mount from then on. *)
Definition mountFs (n : addr) (nodeFs : backend) (opts : option optaddr)
  : M unit :=
  do i <- load n;
  do st <- get;
  let m := fresh (dom (fsmounts st)) in
  do_ store_mount m (mkMount nodeFs (Some n) opts ∅);
  store n (set_mount (Some m) (set_mountPoint (Some m) i)).

(** Modelled from the spec: [Inode.canUnmount] (inode.go is not part of the
    source at hand) refuses an inode with a nonzero lookup count or with a
    sub-mount anywhere beneath it. *)
Fixpoint canUnmount_model (depth : nat) (st : State) (n : addr) : bool :=
  match depth with
  | O => false
  | S d =>
      match inodes st !! n with
      | None => false
      | Some i =>
          bool_decide (lookupCount i = 0) &&
          forallb (λ kv : string * addr,
                     match inodes st !! kv.2 with
                     | Some c => bool_decide (mountPoint c = None) &&
                                 canUnmount_model d st kv.2
                     | None => false
                     end)
                  (map_to_list (default ∅ (children i)))
      end
  end.

(** ** The connector (fsconnector.go) *)

(** [paranoia] is false unless a test sets it; [verify] then returns at
    once. *)
Definition paranoia : bool := false.
Definition verify : M unit := ret tt.

Definition newInode (isDir : bool) : M addr :=
  do st <- get;
  let data := fresh (dom (inodes st)) in
  let '(h, hm) := HandleMap.Register (inodeMap st) data in
  λ _, Ok data
        (set_inodeMap hm
           (set_inodes
              (<[data := mkInode h (if isDir then Some ∅ else None) None 0
                                 None None []]> (inodes st)) st)).

Definition lookupUpdate (parent : addr) (name : string) (isDir : bool)
    (count : Z) : M addr :=
  do p <- load parent;
  do data <-
    match map_get (children p) name with
    | Some data => ret data
    | None =>
        do data <- newInode isDir;
        do_ addChild parent name data;
        do p' <- load parent;
        do d <- load data;
        match mount p' with
        | Some _ => do_ store data (set_mount (mount p') d); ret data
        | None => panic "nil dereference"
        end
    end;
  do d <- load data;
  do_ store data (set_lookupCount (int_add (lookupCount d) count) d);
  do_ verify;
  ret data.

Definition lookupMount (parent : addr) (name : string) (count : Z)
  : M (option maddr) :=
  do p <- load parent;
  match map_get (mounts p) name with
  | Some m =>
      do mo <- load_mount m;
      match mountInode mo with
      | Some mi =>
          do i <- load mi;
          do_ store mi (set_lookupCount (int_add (lookupCount i) count) i);
          ret (Some m)
      | None => panic "nil dereference"
      end
  | None => ret None
  end.

(** A handle other than the root's is decoded to the inode it was
    registered for; the decoding of a stale handle is an error. *)
Definition getInodeData (nodeid : N) : M addr :=
  do st <- get;
  if bool_decide (nodeid = FUSE_ROOT_ID) then ret (rootNode st)
  else match HandleMap.Decode (inodeMap st) nodeid with
       | Some a => ret a
       | None => panic "stale handle"
       end.

Definition forgetHandle (h : N) : M unit :=
  λ st, Ok tt (set_inodeMap (HandleMap.Forget (inodeMap st) h) st).

Section GarbageCollection.

(** The order in which [range] visits a map is not specified by Go. *)
Variable range : gmap string addr → list (string * addr).

(** First loop of [considerDropInode]: the names of the children that
    are no mount point and are reported collectible. *)
Fixpoint collectChildren (rec : addr → M bool) (kvs : list (string * addr))
    (delChildren : list string) : M (list string) :=
  match kvs with
  | [] => ret delChildren
  | (k, v) :: rest =>
      do c <- load v;
      match mountPoint c with
      | None =>
          do drop <- rec v;
          collectChildren rec rest
            (if drop then delChildren ++ [k] else delChildren)
      | Some _ => collectChildren rec rest delChildren
      end
  end.

(** Second loop: detach the collected children and release their
    handles. *)
Fixpoint dropChildren (n : addr) (delChildren : list string) : M unit :=
  match delChildren with
  | [] => ret tt
  | k :: rest =>
      do ch <- rmChild n k;
      match ch with
      | None => panic "trying to del child, but not present"
      | Some c =>
          do ci <- load c;
          do_ forgetHandle (nodeId ci);
          dropChildren n rest
      end
  end.

Fixpoint considerDropInode (fuel : nat) (n : addr) : M bool :=
  match fuel with
  | O => λ _, OutOfFuel
  | S fuel' =>
      do i <- load n;
      do delChildren <-
        collectChildren (considerDropInode fuel')
                        (range (default ∅ (children i))) [];
      do_ dropChildren n delChildren;
      do i' <- load n;
      do st <- get;
      if bool_decide (0 < map_len (children i'))%nat
         || bool_decide (0 < lookupCount i') then ret false
      else if bool_decide (n = rootNode st)
              || bool_decide (mountPoint i' ≠ None) then ret false
      else ret (bool_decide (length (openFiles i') = 0%nat))
  end.

Definition forgetUpdate (fuel : nat) (nodeId : N) (forgetCount : Z)
  : M unit :=
  do node <- getInodeData nodeId;
  do i <- load node;
  do_ store node (set_lookupCount (int_sub (lookupCount i) forgetCount) i);
  do_ considerDropInode fuel node;
  verify.

End GarbageCollection.

Definition renameUpdate (oldParent : addr) (oldName : string)
    (newParent : addr) (newName : string) : M unit :=
  do po <- load oldParent;
  do pn <- load newParent;
  if bool_decide (mount po ≠ mount pn) then panic "Cross mount rename"
  else
    do node <- rmChild oldParent oldName;
    match node with
    | None => panic "Source of rename does not exist"
    | Some nd =>
        do_ rmChild newParent newName;
        do_ addChild newParent newName nd;
        verify
    end.

Definition unlinkUpdate (parent : addr) (name : string) : M unit :=
  do_ rmChild parent name;
  verify.

(** ** Path resolution *)

(** The loop of [findLastKnownInode]: empty components are skipped; the
    walk stops at the first component without child entry and returns the
    components from that one on. *)
Fixpoint walk (st : State) (node : addr) (comps : list string)
  : addr * list string :=
  match comps with
  | [] => (node, [])
  | component :: rest =>
      if bool_decide (String.length component = 0%nat) then walk st node rest
      else match child st node component with
           | None => (node, comps)
           | Some next => walk st next rest
           end
  end.

(** The components that [findLastKnownInode] walks for a path. *)
Definition path_comps (fullPath : string) : list string :=
  strings_Split (strings_TrimLeft (filepath_Clean fullPath)).

Definition findLastKnownInode (st : State) (fullPath : string)
  : addr * list string :=
  if bool_decide (fullPath = EmptyString) then (rootNode st, [])
  else walk st (rootNode st) (path_comps fullPath).

Definition findInode (st : State) (fullPath : string) : option addr :=
  let '(n, rest) := findLastKnownInode st fullPath in
  if bool_decide (0 < length rest)%nat then None else Some n.

(** ** Mount and unmount *)

Definition mountRoot (nodeFs : backend) (opts : option optaddr) : M unit :=
  do st <- get;
  do_ mountFs (rootNode st) nodeFs opts;
  do_ emitM (EvFsMount nodeFs);
  verify.

Definition Mount (mountPoint_ : string) (nodeFs : backend)
    (opts : option optaddr) : M Status :=
  if bool_decide (mountPoint_ = "/"%string)
     || bool_decide (mountPoint_ = EmptyString)
  then do_ mountRoot nodeFs opts; ret OK
  else
    let '(dirParent, base) := filepath_Split mountPoint_ in
    do st <- get;
    match findInode st dirParent with
    | None => ret ENOENT
    | Some parent =>
        do p <- load parent;
        match mount p with
        | None => ret ENOENT
        | Some _ =>
            match map_get (children p) base with
            | Some _ => ret EBUSY
            | None =>
                do node <- newInode true;
                do opts' <-
                  match opts with
                  | Some o => ret (Some o)
                  | None =>
                      do r <- load (rootNode st);
                      match mountPoint r with
                      | Some rm => do m <- load_mount rm; ret (options m)
                      | None => panic "nil dereference"
                      end
                  end;
                do_ mountFs node nodeFs opts';
                do_ addChild parent base node;
                do p' <- load parent;
                do nd <- load node;
                match mountPoint nd with
                | None => panic "nil dereference"
                | Some m =>
                    do_ store parent
                      (set_mounts
                         (Some (<[base := m]> (default ∅ (mounts p')))) p');
                    do_ emitM (EvFsMount nodeFs);
                    do_ verify;
                    ret OK
                end
            end
        end
    end.

Section Unmounting.

(** [Inode.canUnmount] lives in inode.go; [Unmount] only asks it a
    question about the tree as it stands. *)
Variable canUnmount : State → addr → bool.

Definition Unmount (path : string) : M Status :=
  let '(dir, name) := filepath_Split path in
  do st <- get;
  match findInode st dir with
  | None => ret EINVAL
  | Some parentNode =>
      do p <- load parentNode;
      match map_get (mounts p) name with
      | None => ret EINVAL
      | Some mnt =>
          do m <- load_mount mnt;
          if bool_decide (0 < HandleMap.Count (mountOpenFiles m))%nat
          then ret EBUSY
          else
            match mountInode m with
            | None => panic "nil dereference"
            | Some mi =>
                do_ load mi;
                if negb (canUnmount st mi) then ret EBUSY
                else
                  do_ store_mount mnt (set_mountInode None m);
                  do i <- load mi;
                  do_ store mi (set_mountPoint None i);
                  do p1 <- load parentNode;
                  do_ store parentNode
                    (set_mounts (delete name <$> mounts p1) p1);
                  do p2 <- load parentNode;
                  do_ store parentNode
                    (set_children (delete name <$> children p2) p2);
                  do_ emitM (EvFsUnmount (fs m));
                  do_ emitM (EvEntryNotify (nodeId p2) name);
                  ret OK
            end
      end
  end.

End Unmounting.

(** ** Notifications *)

Definition FileNotify (path : string) (off length : Z) : M Status :=
  do st <- get;
  match findInode st path with
  | None => ret ENOENT
  | Some node =>
      do i <- load node;
      let out := mkInval (nodeId i) off length in
      do_ emitM (EvInodeNotify out);
      ret (RawFsInit.InodeNotify (fsInit st) out)
  end.

Definition EntryNotify (dir name : string) : M Status :=
  do st <- get;
  match findInode st dir with
  | None => ret ENOENT
  | Some node =>
      do i <- load node;
      do_ emitM (EvEntryNotify (nodeId i) name);
      ret (RawFsInit.EntryNotify (fsInit st) (nodeId i) name)
  end.

Definition Notify (path : string) : M Status :=
  do st <- get;
  let '(node, rest) := findLastKnownInode st path in
  do i <- load node;
  match rest with
  | r0 :: _ =>
      do_ emitM (EvEntryNotify (nodeId i) r0);
      ret (RawFsInit.EntryNotify (fsInit st) (nodeId i) r0)
  | [] =>
      let out := mkInval (nodeId i) 0 0 in
      do_ emitM (EvInodeNotify out);
      ret (RawFsInit.InodeNotify (fsInit st) out)
  end.

(** * Vocabulary of the properties *)

(** What an operation leaves behind, whether it returned or panicked. *)
Definition res_rel {A} (P : State → Prop) (r : Res A) : Prop :=
  match r with
  | Ok _ st' | Panic _ st' => P st'
  | OutOfFuel => True
  end.

Record gc_step (st st' : State) : Prop := {
  gc_Debug : Debug st' = Debug st;
  gc_fsInit : fsInit st' = fsInit st;
  gc_rootNode : rootNode st' = rootNode st;
  gc_fsmounts : fsmounts st' = fsmounts st;
  gc_events : events st' = events st;
  gc_dom : ∀ a, inodes st !! a = None → inodes st' !! a = None;
  gc_inode : ∀ a i, inodes st !! a = Some i →
      ∃ i', inodes st' !! a = Some i' ∧ i' = set_children (children i') i ∧
            (children i = None → children i' = None);
  gc_shrink : ∀ a k c, child st' a k = Some c → child st a k = Some c;
  gc_kept : ∀ a k c ci, child st a k = Some c → inodes st !! c = Some ci →
      mountPoint ci ≠ None → child st' a k = Some c;
  gc_handles : ∀ h a, inodeMap st' !! h = Some a → inodeMap st !! h = Some a;
  gc_handles_kept : ∀ h a, inodeMap st !! h = Some a →
      (∀ c ci, inodes st !! c = Some ci → nodeId ci = h → mountPoint ci ≠ None) →
      inodeMap st' !! h = Some a;
}.

(** The verdict of [considerDropInode], read off the state it leaves. *)
Definition collectible (st : State) (n : addr) (i : Inode) : Prop :=
  map_len (children i) = 0%nat ∧ (lookupCount i ≤ 0)%Z ∧ n ≠ rootNode st ∧
  mountPoint i = None ∧ openFiles i = [].

(** A tree (or any acyclic graph without dangling child): every child is
    allocated and of smaller rank than its parent. *)
Definition well_ranked (rank : addr → nat) (st : State) : Prop :=
  ∀ a k c, child st a k = Some c →
    is_Some (inodes st !! c) ∧ (rank c < rank a)%nat.

(** Inodes of rank [b] or more are out of reach of the collection. *)
Definition frame (rank : addr → nat) (b : nat) (st st' : State) : Prop :=
  ∀ a, (b ≤ rank a)%nat → inodes st' !! a = inodes st !! a.

(** Operations of the kernel that the pinning of a mount point is about. *)
Inductive TreeOp :=
  | OpLookup (parent : addr) (name : string) (isDir : bool) (count : Z)
  | OpForget (nodeId : N) (count : Z).

Definition run_op (range : gmap string addr → list (string * addr))
    (fuel : nat) (op : TreeOp) : M unit :=
  match op with
  | OpLookup parent name isDir count =>
      do_ lookupUpdate parent name isDir count; ret tt
  | OpForget nodeId count => forgetUpdate range fuel nodeId count
  end.

Fixpoint run_ops (range : gmap string addr → list (string * addr))
    (fuel : nat) (ops : list TreeOp) : M unit :=
  match ops with
  | [] => ret tt
  | op :: rest => do_ run_op range fuel op; run_ops range fuel rest
  end.

(** What lookups and forgets leave alone: identifiers and mount points of
    the inodes, the child entries that lead to a mount point, and the
    handles that only mount points carry. *)
Record pin_step (st st' : State) : Prop := {
  pin_inode : ∀ a i, inodes st !! a = Some i →
      ∃ i', inodes st' !! a = Some i' ∧ nodeId i' = nodeId i ∧
            mountPoint i' = mountPoint i;
  pin_edge : ∀ a k c ci, child st a k = Some c → inodes st !! c = Some ci →
      mountPoint ci ≠ None → child st' a k = Some c;
  pin_handle : ∀ h a, inodeMap st !! h = Some a →
      (∀ c ci, inodes st !! c = Some ci → nodeId ci = h → mountPoint ci ≠ None) →
      inodeMap st' !! h = Some a ∧
      (∀ c ci, inodes st' !! c = Some ci → nodeId ci = h → mountPoint ci ≠ None);
}.

(** A path element: not empty and without separator. *)
Fixpoint has_slash (s : string) : bool :=
  match s with
  | EmptyString => false
  | String c s' => is_slash c || has_slash s'
  end.

Definition element (e : string) : Prop := e ≠ EmptyString ∧ has_slash e = false.

(** A rooted path starts with a separator. *)
Definition rooted (p : string) : bool :=
  match p with
  | String c _ => is_slash c
  | EmptyString => false
  end.

(** The elements of the cleaned path. *)
Definition clean_comps (p : string) : list string :=
  match p with
  | EmptyString => []
  | String c _ => clean_elems (is_slash c) [] (strings_Split p)
  end.

(** The node that a list of names leads to from [n], one child entry per
    name. *)
Fixpoint reach (st : State) (n : addr) (names : list string) : option addr :=
  match names with
  | [] => Some n
  | c :: rest => child st n c ≫= λ m, reach st m rest
  end.

(** No child map of the state holds a dangling pointer. *)
Definition closed (st : State) : Prop :=
  ∀ a k c, child st a k = Some c → is_Some (inodes st !! c).

(** A small tree: the root mount holds the directory [a] (with the file
    [x] and the directory [b], which holds the file [c]) and the mount
    point [data] of a second file system. *)
Definition ex_fsInit : RawFsInit.t := RawFsInit.mk (λ _, OK) (λ _ _, OK).
Definition ex_root : Inode :=
  mkInode FUSE_ROOT_ID (Some {[ "a"%string := 2%positive; "data"%string := 5%positive ]})
          (Some {[ "data"%string := 2%positive ]}) 0 (Some 1%positive)
          (Some 1%positive) [].
Definition ex_a : Inode :=
  mkInode 2 (Some {[ "b"%string := 3%positive; "x"%string := 6%positive ]})
          None 1 None (Some 1%positive) [].
Definition ex_b : Inode :=
  mkInode 3 (Some {[ "c"%string := 4%positive ]}) None 1 None
          (Some 1%positive) [].
Definition ex_c : Inode := mkInode 4 None None 1 None (Some 1%positive) [].
Definition ex_data : Inode :=
  mkInode 5 (Some ∅) None 0 (Some 2%positive) (Some 2%positive) [].
Definition ex_x : Inode := mkInode 6 None None 0 None (Some 1%positive) [].
Definition ex_state : State :=
  mkState false ex_fsInit
    {[ 2%N := 2%positive; 3%N := 3%positive; 4%N := 4%positive;
       5%N := 5%positive; 6%N := 6%positive ]}
    1%positive
    {[ 1%positive := ex_root; 2%positive := ex_a; 3%positive := ex_b;
       4%positive := ex_c; 5%positive := ex_data; 6%positive := ex_x ]}
    {[ 1%positive := mkMount 1%positive (Some 1%positive) None ∅;
       2%positive := mkMount 2%positive (Some 5%positive) None ∅ ]}
    [].
Definition ex_rank (a : addr) : nat :=
  match a with
  | 1%positive => 4 | 2%positive => 3 | 3%positive => 2 | _ => 0
  end%nat.

(** Checking [well_ranked] by computation. *)
Definition well_ranked_b (rank : addr → nat) (st : State) : bool :=
  forallb (λ ai : addr * Inode,
     forallb (λ kc : string * addr,
        bool_decide (is_Some (inodes st !! kc.2)) &&
        bool_decide (rank kc.2 < rank ai.1)%nat)
       (map_to_list (default ∅ (children ai.2))))
    (map_to_list (inodes st)).

(** The verdict as the claim words it: a lookup count of exactly zero. *)
Definition collectible_count_zero (st : State) (n : addr) (i : Inode) : Prop :=
  map_len (children i) = 0%nat ∧ lookupCount i = 0 ∧ n ≠ rootNode st ∧
  mountPoint i = None ∧ openFiles i = [].

Definition ex_ops : list TreeOp :=
  [OpLookup 1%positive "data" true 1; OpForget 5%N 1; OpForget 2%N 1;
   OpForget FUSE_ROOT_ID 0].

(** The scenario of the specification: on a connector with its root only,
    mount a file system on [/data], look the mount point up, forget it,
    unmount, and resolve the path again. *)
Definition ex_fresh : State :=
  mkState false ex_fsInit ∅ 1%positive
    {[ 1%positive := mkInode FUSE_ROOT_ID (Some ∅) None 0 (Some 1%positive)
                             (Some 1%positive) [] ]}
    {[ 1%positive := mkMount 1%positive (Some 1%positive) None ∅ ]}
    [].

Definition scenario : M (Status * addr * Z * bool * Status * option addr) :=
  do s1 <- Mount "/data" 2%positive None;
  do n <- lookupUpdate 1%positive "data" true 1;
  do i <- load n;
  do_ forgetUpdate map_to_list 3 (nodeId i) 1;
  do st <- get;
  let still := bool_decide (child st 1%positive "data" = Some n) in
  do s2 <- Unmount (canUnmount_model 3) "/data";
  do st' <- get;
  ret (s1, n, lookupCount i, still, s2, findInode st' "/data").

(** A collection that only takes what is collectible: an entry that is
    gone led to an inode that is collectible in the state reached, and a
    handle that is gone is the identifier of an inode that lost an entry
    so. *)
Record gc_safe (st st' : State) : Prop := {
  safe_step : gc_step st st';
  safe_edge : ∀ a k c, child st a k = Some c → child st' a k = None →
      ∃ ci, inodes st' !! c = Some ci ∧ collectible st' c ci;
  safe_handle : ∀ h x, inodeMap st !! h = Some x → inodeMap st' !! h = None →
      ∃ a k c ci, child st a k = Some c ∧ child st' a k = None ∧
                  inodes st' !! c = Some ci ∧ nodeId ci = h ∧
                  collectible st' c ci;
}.

(** An inode out of the tree that still has its handle: no child entry
    leads to it, and it is the only carrier of the identifier. *)
Record orphan (c : addr) (h : N) (st : State) : Prop := {
  orphan_handle : inodeMap st !! h = Some c;
  orphan_alloc : is_Some (inodes st !! c);
  orphan_edge : ∀ a k, child st a k ≠ Some c;
  orphan_carrier : ∀ c' ci, inodes st !! c' = Some ci → nodeId ci = h → c' = c;
}.

(** What [renameUpdate] makes of the child map of the inode [a]. *)
Definition renamed (oldParent : addr) (oldName : string) (newParent : addr)
    (newName : string) (nd : addr) (a : addr)
    (c : option (gmap string addr)) : option (gmap string addr) :=
  let c1 := if decide (a = oldParent) then delete oldName <$> c else c in
  if decide (a = newParent)
  then (λ m, <[newName := nd]> (delete newName m)) <$> c1
  else c1.

(** The options that [Mount] gives the new mount: those of the caller, or
    those of the root mount when the caller passes nil. *)
Definition mount_options (st : State) (opts opts' : option optaddr) : Prop :=
  match opts with
  | Some o => opts' = Some o
  | None => ∃ r rm m, inodes st !! rootNode st = Some r ∧
                      mountPoint r = Some rm ∧ fsmounts st !! rm = Some m ∧
                      opts' = options m
  end.

(** The state that a successful mount below the root leaves. *)
Definition mounted (st : State) (parent : addr) (p : Inode)
    (cm : gmap string addr) (base : string) (nodeFs : backend)
    (opts' : option optaddr) : State :=
  let node := fresh (dom (inodes st)) in
  let h := (HandleMap.Register (inodeMap st) node).1 in
  let m := fresh (dom (fsmounts st)) in
  mkState (Debug st) (fsInit st) (<[h := node]> (inodeMap st)) (rootNode st)
    (<[parent := set_mounts (Some (<[base := m]> (default ∅ (mounts p))))
                   (set_children (Some (<[base := node]> cm)) p)]>
       (<[node := mkInode h (Some ∅) None 0 (Some m) (Some m) []]>
          (inodes st)))
    (<[m := mkMount nodeFs (Some node) opts' ∅]> (fsmounts st))
    (events st ++ [EvFsMount nodeFs]).

(** * Properties *)

(** ** Paths *)

Example Clean_abc : filepath_Clean "/a/b/c" = "/a/b/c"%string.
Proof. reflexivity. Qed.

Example Clean_dots : filepath_Clean "/a/./b/../../c/" = "/c"%string.
Proof. reflexivity. Qed.

Example Clean_rel : filepath_Clean "a/../../b//" = "../b"%string.
Proof. reflexivity. Qed.

Example Clean_root : filepath_Clean "//" = "/"%string.
Proof. reflexivity. Qed.

Example Clean_up : filepath_Clean "/.." = "/"%string.
Proof. reflexivity. Qed.

Example Clean_self : filepath_Clean "a/.." = "."%string.
Proof. reflexivity. Qed.

Example Split_abc : filepath_Split "/a/b/c" = ("/a/b/"%string, "c"%string).
Proof. reflexivity. Qed.

Example Split_rel : filepath_Split "data" = (EmptyString, "data"%string).
Proof. reflexivity. Qed.

Example Split_trail : filepath_Split "/data/" = ("/data/"%string, EmptyString).
Proof. reflexivity. Qed.

Example path_comps_abc : path_comps "/a/b/c" = ["a"; "b"; "c"]%string.
Proof. reflexivity. Qed.

Example path_comps_root : path_comps "/" = [EmptyString].
Proof. reflexivity. Qed.

Example path_comps_cleaned : path_comps "/a/./x/../b/" = ["a"; "b"]%string.
Proof. reflexivity. Qed.

Lemma string_app_cons c (s t : string) :
  (String c s ++ t)%string = String c (s ++ t)%string.
Proof. reflexivity. Qed.

Lemma string_app_empty (s : string) : (s ++ EmptyString)%string = s.
Proof.
  induction s as [|c s IH]; [done|]. by rewrite string_app_cons, IH.
Qed.

Lemma strings_Split_no_slash s :
  Forall (λ e, has_slash e = false) (strings_Split s).
Proof.
  induction s as [|c s IH]; simpl; [by repeat constructor|].
  destruct (is_slash c) eqn:Hc; [by constructor|].
  destruct (strings_Split s) as [|x xs]; [by repeat constructor; simpl; rewrite Hc|].
  apply Forall_cons in IH as [Hx Hxs]. constructor; [|done].
  simpl. by rewrite Hc.
Qed.

Lemma strings_Split_element e : has_slash e = false → strings_Split e = [e].
Proof.
  induction e as [|c e IH]; simpl; [done|].
  intros [Hc He]%orb_false_elim. rewrite Hc, (IH He). done.
Qed.

Lemma strings_Split_app e s :
  has_slash e = false →
  strings_Split (e ++ String slash s) = e :: strings_Split s.
Proof.
  induction e as [|c e IH]; [done|].
  intros [Hc He]%orb_false_elim. rewrite string_app_cons. simpl.
  rewrite Hc, (IH He). done.
Qed.

Lemma strings_Split_Join elems :
  elems ≠ [] → Forall (λ e, has_slash e = false) elems →
  strings_Split (strings_Join elems) = elems.
Proof.
  induction elems as [|e rest IH]; [done|]. intros _ [He Hrest]%Forall_cons.
  destruct rest as [|e' rest'].
  - simpl. by apply strings_Split_element.
  - change (strings_Join (e :: e' :: rest'))
      with (e ++ String slash (strings_Join (e' :: rest')))%string.
    rewrite strings_Split_app by done. f_equal. by apply IH.
Qed.


Lemma strings_TrimLeft_Join elems :
  Forall element elems → strings_TrimLeft (strings_Join elems) = strings_Join elems.
Proof.
  destruct elems as [|e rest]; [done|]. intros [[Hne He] _]%Forall_cons.
  assert (∀ s, strings_TrimLeft (e ++ s) = (e ++ s)%string) as Happ.
  { intros s. destruct e as [|c e]; [done|]. rewrite string_app_cons.
    simpl in *. apply orb_false_elim in He as [Hc _]. by rewrite Hc. }
  destruct rest as [|e' rest'].
  - simpl. specialize (Happ EmptyString).
    by rewrite string_app_empty in Happ.
  - apply Happ.
Qed.

Lemma clean_elems_elements rooted elems :
  ∀ out, Forall element out → Forall (λ e, has_slash e = false) elems →
         Forall element (clean_elems rooted out elems).
Proof.
  induction elems as [|e rest IH]; intros out Hout Hel; simpl.
  - by apply Forall_rev.
  - apply Forall_cons in Hel as [He Hrest].
    case_bool_decide as H1; simpl; [by apply IH|].
    case_bool_decide as H2; simpl; [by apply IH|].
    assert (element e) as Helem by done.
    case_bool_decide as H3.
    + destruct out as [|o out'].
      * destruct rooted; apply IH; auto.
      * apply Forall_cons in Hout as [Ho Hout'].
        case_bool_decide; apply IH; auto.
    + apply IH; auto.
Qed.

(** What [findLastKnownInode] walks: the elements of the cleaned path, or
    one empty component for the root, or [.] for a relative path that
    cleans to nothing. *)
Lemma path_comps_clean p :
  p ≠ EmptyString →
  Forall element (clean_comps p) ∧
  path_comps p =
    match clean_comps p with
    | [] => if rooted p then [EmptyString] else ["."%string]
    | elems => elems
    end.
Proof.
  destruct p as [|c p']; [done|]. intros _.
  assert (Forall element (clean_comps (String c p'))) as Hel.
  { apply clean_elems_elements; [constructor|apply strings_Split_no_slash]. }
  split; [done|].
  unfold path_comps, filepath_Clean. fold (clean_comps (String c p')).
  cbn [rooted].
  destruct (clean_comps (String c p')) as [|e rest] eqn:Hcc.
  - simpl. by destruct (is_slash c).
  - assert (strings_Join (e :: rest) ≠ EmptyString) as Hne.
    { apply Forall_cons in Hel as [[Hne _] _].
      destruct rest; simpl; [done|]. by destruct e. }
    assert (strings_Split (strings_TrimLeft (strings_Join (e :: rest)))
            = e :: rest) as Hgoal.
    { rewrite strings_TrimLeft_Join by done.
      apply strings_Split_Join; [done|].
      eapply Forall_impl; [done|]. by intros ? [_ ?]. }
    destruct (is_slash c).
    + cbn [strings_TrimLeft]. unfold is_slash at 1.
      rewrite bool_decide_eq_true_2 by done. done.
    + destruct (strings_Join (e :: rest)) eqn:Hj; [done|]. done.
Qed.

Lemma path_comps_elements p :
  p ≠ EmptyString →
  path_comps p = [EmptyString] ∨ Forall element (path_comps p).
Proof.
  intros Hp. destruct (path_comps_clean p Hp) as [Hel ->].
  destruct (clean_comps p) as [|e rest]; [|by right].
  destruct (rooted p); [by left|right].
  by repeat constructor.
Qed.

(** ** The monad *)

Lemma res_rel_mono {A} (P Q : State → Prop) (r : Res A) :
  (∀ st, P st → Q st) → res_rel P r → res_rel Q r.
Proof. destruct r; simpl; auto. Qed.

Lemma res_rel_bind {A B} (R : State → State → Prop) (c : M A) (k : A → M B) st :
  (∀ s1 s2 s3, R s1 s2 → R s2 s3 → R s1 s3) →
  res_rel (R st) (c st) →
  (∀ a st', c st = Ok a st' → res_rel (R st') (k a st')) →
  res_rel (R st) (bind c k st).
Proof.
  intros Htrans Hc Hk. unfold bind.
  destruct (c st) as [a st'|msg st'|] eqn:E; simpl in *; [|done..].
  specialize (Hk a st' eq_refl).
  destruct (k a st') as [b st''|msg st''|]; simpl in *; eauto.
Qed.

Lemma bind_get {A} (k : State → M A) st : bind get k st = k st st.
Proof. done. Qed.

Lemma bind_ret {A B} (a : A) (k : A → M B) st : bind (ret a) k st = k a st.
Proof. done. Qed.

Lemma bind_load {A} n i (k : Inode → M A) st :
  inodes st !! n = Some i → bind (load n) k st = k i st.
Proof. intros H. unfold bind, load. by rewrite H. Qed.

Lemma bind_load_mount {A} n m (k : fileSystemMount → M A) st :
  fsmounts st !! n = Some m → bind (load_mount n) k st = k m st.
Proof. intros H. unfold bind, load_mount. by rewrite H. Qed.

Lemma bind_store {A} n i (k : unit → M A) st :
  bind (store n i) k st = k tt (set_inodes (<[n := i]> (inodes st)) st).
Proof. done. Qed.

Lemma bind_store_mount {A} n m (k : unit → M A) st :
  bind (store_mount n m) k st
  = k tt (set_fsmounts (<[n := m]> (fsmounts st)) st).
Proof. done. Qed.

Lemma bind_emitM {A} e (k : unit → M A) st :
  bind (emitM e) k st = k tt (emit e st).
Proof. done. Qed.

Lemma load_Ok n st i st' : load n st = Ok i st' → st' = st ∧ inodes st !! n = Some i.
Proof. unfold load. destruct (inodes st !! n); naive_solver. Qed.

Lemma getInodeData_Ok nodeid st node st' :
  getInodeData nodeid st = Ok node st' → st' = st.
Proof.
  unfold getInodeData, bind, get, ret. case_bool_decide; [congruence|].
  destruct (HandleMap.Decode _ _); unfold panic; congruence.
Qed.

(** ** Basic facts about the store *)

Lemma child_lookup st n i name :
  inodes st !! n = Some i → child st n name = map_get (children i) name.
Proof. intros H. unfold child. by rewrite H. Qed.

Lemma set_children_id i : set_children (children i) i = i.
Proof. by destruct i. Qed.

Lemma set_inodes_id st : set_inodes (inodes st) st = st.
Proof. by destruct st. Qed.

Lemma set_inodes_twice h h' st : set_inodes h (set_inodes h' st) = set_inodes h st.
Proof. done. Qed.

Lemma rmChild_eq st p pi name :
  inodes st !! p = Some pi →
  rmChild p name st =
    Ok (child st p name)
       (set_inodes (<[p := set_children (delete name <$> children pi) pi]>
                      (inodes st)) st).
Proof.
  intros Hp. unfold rmChild, bind, load. rewrite Hp.
  rewrite (child_lookup _ _ _ _ Hp). unfold map_get.
  destruct (children pi) as [m|] eqn:Hc; simpl.
  - destruct (m !! name) as [ch|] eqn:Hn; simpl; [done|].
    unfold ret. rewrite delete_id by done.
    rewrite <- Hc, set_children_id, insert_id, set_inodes_id by done. done.
  - unfold ret. rewrite <- Hc, set_children_id, insert_id, set_inodes_id by done.
    done.
Qed.

Lemma addChild_eq st p pi m name ch :
  inodes st !! p = Some pi → children pi = Some m →
  addChild p name ch st =
    Ok tt (set_inodes (<[p := set_children (Some (<[name := ch]> m)) pi]>
                         (inodes st)) st).
Proof.
  intros Hp Hc. unfold addChild, bind, load. rewrite Hp, Hc. done.
Qed.

Lemma wrap_int_small z : (min_int ≤ z ≤ max_int)%Z → wrap_int z = z.
Proof.
  unfold wrap_int, min_int, max_int, int_bits. intros H.
  rewrite Z.mod_small; lia.
Qed.

Local Open Scope nat_scope.

Lemma well_ranked_b_sound rank st :
  well_ranked_b rank st = true → well_ranked rank st.
Proof.
  unfold well_ranked_b. rewrite forallb_forall. intros H a k c Hc.
  unfold child in Hc. destruct (inodes st !! a) as [i|] eqn:Hi; [|done].
  simpl in Hc. apply elem_of_map_to_list, list_elem_of_In in Hi.
  specialize (H _ Hi). simpl in H. rewrite forallb_forall in H.
  unfold map_get in Hc. destruct (children i) as [m|]; [|done]. simpl in *.
  apply elem_of_map_to_list, list_elem_of_In in Hc.
  specialize (H _ Hc). apply andb_true_iff in H as [H1 H2].
  apply bool_decide_eq_true in H1, H2. done.
Qed.

Lemma well_ranked_closed rank st : well_ranked rank st → closed st.
Proof. intros H a k c Hc. by apply (H a k c). Qed.

Lemma ex_state_ranked : well_ranked ex_rank ex_state.
Proof. apply well_ranked_b_sound. vm_compute. reflexivity. Qed.

Lemma well_ranked_store rank st n i i' :
  well_ranked rank st → inodes st !! n = Some i → children i' = children i →
  well_ranked rank (set_inodes (<[n := i']> (inodes st)) st).
Proof.
  intros Hwr Hn Hch a k c. unfold child; simpl. intros Hc.
  assert (child st a k = Some c) as Hc'.
  { unfold child. destruct (decide (a = n)) as [->|Hne].
    - rewrite lookup_insert_eq in Hc. rewrite Hn. simpl in *. congruence.
    - by rewrite lookup_insert_ne in Hc. }
  destruct (Hwr _ _ _ Hc') as [[ci Hci] Hlt]. split; [|done].
  destruct (decide (c = n)) as [->|Hne].
  - rewrite lookup_insert_eq. eauto.
  - rewrite lookup_insert_ne by done. eauto.
Qed.

Local Open Scope Z_scope.

(** ** Rename *)

(** C4, as the code has it: a rename between two directories of one mount
    returns and leaves the moved node as the entry of the new name under
    the new parent; the old name is gone from the old parent unless the
    rename is onto itself (same parent, same name); a different node that
    held the new name no longer holds it; every inode keeps its identifier
    and its lookup count, and the handle map is untouched. *)
Theorem renameUpdate_moves st oldParent oldName newParent newName po pn nd :
  inodes st !! oldParent = Some po →
  inodes st !! newParent = Some pn →
  mount po = mount pn →
  child st oldParent oldName = Some nd →
  is_Some (children pn) →
  ∃ st',
    renameUpdate oldParent oldName newParent newName st = Ok tt st' ∧
    child st' newParent newName = Some nd ∧
    ((oldParent, oldName) ≠ (newParent, newName) →
       child st' oldParent oldName = None) ∧
    (∀ prev, child st newParent newName = Some prev → prev ≠ nd →
       child st' newParent newName ≠ Some prev) ∧
    (∀ a i, inodes st !! a = Some i →
       ∃ i', inodes st' !! a = Some i' ∧ nodeId i' = nodeId i ∧
             lookupCount i' = lookupCount i ∧
             (a ≠ oldParent → a ≠ newParent → i' = i)) ∧
    inodeMap st' = inodeMap st.
Proof.
  intros Ho Hn Hm Hc [mn Hmn].
  unfold renameUpdate, bind at 1 2. unfold load. rewrite Ho, Hn.
  rewrite bool_decide_eq_false_2 by (intros ?; done).
  unfold bind at 1. rewrite (rmChild_eq _ _ _ _ Ho), Hc.
  set (st1 := set_inodes _ st).
  destruct (decide (oldParent = newParent)) as [->|Hne].
  - assert (po = pn) as -> by congruence.
    assert (inodes st1 !! newParent =
            Some (set_children (delete oldName <$> children pn) pn)) as H1
      by (subst st1; simpl; by rewrite lookup_insert_eq).
    unfold bind at 1. rewrite (rmChild_eq _ _ _ _ H1).
    set (st2 := set_inodes _ st1).
    assert (inodes st2 !! newParent =
            Some (set_children (Some (delete newName (delete oldName mn))) pn)) as H2.
    { subst st2; simpl. rewrite lookup_insert_eq. simpl. by rewrite Hmn. }
    unfold bind at 1. erewrite (addChild_eq _ _ _ _ _ _ H2) by done.
    eexists; split; [reflexivity|].
    rewrite (child_lookup _ _ _ _ Ho), Hmn in Hc. simpl in Hc.
    repeat split.
    + unfold child; simpl. rewrite lookup_insert_eq. simpl. by rewrite lookup_insert_eq.
    + intros Hd. unfold child; simpl. rewrite lookup_insert_eq. simpl.
      assert (oldName ≠ newName) by congruence.
      rewrite lookup_insert_ne by done.
      rewrite lookup_delete_ne by done. by rewrite lookup_delete_eq.
    + intros prev _ Hp. unfold child; simpl. rewrite lookup_insert_eq. simpl.
      rewrite lookup_insert_eq. congruence.
    + intros a i Ha. simpl.
      destruct (decide (a = newParent)) as [->|Ha'].
      * rewrite lookup_insert_eq. eexists; split; [done|].
        assert (i = pn) as -> by congruence. done.
      * rewrite !lookup_insert_ne by done. eauto.
  - assert (inodes st1 !! newParent = Some pn) as H1
      by (subst st1; simpl; by rewrite lookup_insert_ne).
    unfold bind at 1. rewrite (rmChild_eq _ _ _ _ H1).
    set (st2 := set_inodes _ st1).
    assert (inodes st2 !! newParent =
            Some (set_children (Some (delete newName mn)) pn)) as H2.
    { subst st2; simpl. rewrite lookup_insert_eq. by rewrite Hmn. }
    unfold bind at 1. erewrite (addChild_eq _ _ _ _ _ _ H2) by done.
    eexists; split; [reflexivity|].
    repeat split.
    + unfold child; simpl. rewrite lookup_insert_eq. simpl. by rewrite lookup_insert_eq.
    + intros _. unfold child; simpl. rewrite !lookup_insert_ne by done.
      rewrite lookup_insert_eq. simpl.
      rewrite (child_lookup _ _ _ _ Ho) in Hc. unfold map_get in *.
      destruct (children po); simpl in *; [|done]. by rewrite lookup_delete_eq.
    + intros prev _ Hp. unfold child; simpl. rewrite lookup_insert_eq. simpl.
      rewrite lookup_insert_eq. congruence.
    + intros a i Ha. simpl.
      destruct (decide (a = newParent)) as [->|Ha'].
      * rewrite lookup_insert_eq. eexists; split; [done|].
        assert (i = pn) as -> by congruence. done.
      * rewrite !lookup_insert_ne by done.
        destruct (decide (a = oldParent)) as [->|Ha''].
        -- rewrite lookup_insert_eq. eexists; split; [done|].
           assert (i = po) as -> by congruence. done.
        -- rewrite lookup_insert_ne by done. eauto.
Qed.

Lemma renameUpdate_moves_witness :
  ∃ st',
    renameUpdate 2%positive "x" 3%positive "y" ex_state = Ok tt st' ∧
    child st' 3%positive "y" = Some 6%positive ∧
    ((2%positive, "x"%string) ≠ (3%positive, "y"%string) →
       child st' 2%positive "x" = None) ∧
    (∀ prev, child ex_state 3%positive "y" = Some prev → prev ≠ 6%positive →
       child st' 3%positive "y" ≠ Some prev) ∧
    (∀ a i, inodes ex_state !! a = Some i →
       ∃ i', inodes st' !! a = Some i' ∧ nodeId i' = nodeId i ∧
             lookupCount i' = lookupCount i ∧
             (a ≠ 2%positive → a ≠ 3%positive → i' = i)) ∧
    inodeMap st' = inodeMap ex_state.
Proof.
  apply (renameUpdate_moves ex_state 2%positive "x" 3%positive "y" ex_a ex_b
           6%positive).
  - reflexivity.
  - reflexivity.
  - reflexivity.
  - reflexivity.
  - eexists. reflexivity.
Defined.

(** Renaming [x] to [x] in place leaves the entry where it was. *)
Lemma renameUpdate_same_name :
  ∃ st',
    child ex_state 2%positive "x" = Some 6%positive ∧
    renameUpdate 2%positive "x" 2%positive "x" ex_state = Ok tt st' ∧
    child st' 2%positive "x" = Some 6%positive.
Proof. eexists. repeat split; vm_compute; reflexivity. Qed.

(** C5: a rename between parents of different mounts, or of a name that
    the old parent does not hold, panics, and the state at the panic is
    the state before the call: nothing of the rename was performed. *)
Theorem renameUpdate_contract_violation st oldParent oldName newParent newName po pn :
  inodes st !! oldParent = Some po →
  inodes st !! newParent = Some pn →
  mount po ≠ mount pn ∨ child st oldParent oldName = None →
  ∃ msg, renameUpdate oldParent oldName newParent newName st = Panic msg st.
Proof.
  intros Ho Hn Hc.
  unfold renameUpdate, bind, load. rewrite Ho, Hn.
  case_bool_decide as Hm.
  - by eexists.
  - destruct Hc as [Hc|Hc]; [done|].
    rewrite (child_lookup _ _ _ _ Ho) in Hc.
    unfold rmChild, bind, load. rewrite Ho.
    unfold map_get in Hc.
    destruct (children po) as [m|]; simpl in *.
    + rewrite Hc. simpl. by eexists.
    + by eexists.
Qed.

Lemma renameUpdate_contract_violation_witness :
  ∃ msg,
    renameUpdate 2%positive "x" 5%positive "x" ex_state = Panic msg ex_state.
Proof.
  apply (renameUpdate_contract_violation ex_state 2%positive "x" 5%positive
           "x" ex_a ex_data).
  - reflexivity.
  - reflexivity.
  - left. simpl. discriminate.
Defined.

(** ** Garbage collection: what it may change *)

Lemma gc_step_refl st : gc_step st st.
Proof.
  split; try done.
  intros a i Hi. exists i. by rewrite set_children_id.
Qed.

Lemma gc_inode_rev st st' a i' :
  gc_step st st' → inodes st' !! a = Some i' →
  ∃ i, inodes st !! a = Some i ∧ i' = set_children (children i') i.
Proof.
  intros H Hi'. destruct (inodes st !! a) as [i|] eqn:Hi.
  - destruct (gc_inode _ _ H _ _ Hi) as (i'' & Hi'' & Heq & _).
    exists i. split; [done|]. congruence.
  - rewrite (gc_dom _ _ H _ Hi) in Hi'. done.
Qed.

Lemma gc_step_trans st1 st2 st3 :
  gc_step st1 st2 → gc_step st2 st3 → gc_step st1 st3.
Proof.
  intros H12 H23. split.
  - by rewrite (gc_Debug _ _ H23), (gc_Debug _ _ H12).
  - by rewrite (gc_fsInit _ _ H23), (gc_fsInit _ _ H12).
  - by rewrite (gc_rootNode _ _ H23), (gc_rootNode _ _ H12).
  - by rewrite (gc_fsmounts _ _ H23), (gc_fsmounts _ _ H12).
  - by rewrite (gc_events _ _ H23), (gc_events _ _ H12).
  - intros a Ha. eapply gc_dom; [done|]. by eapply gc_dom.
  - intros a i Hi.
    destruct (gc_inode _ _ H12 _ _ Hi) as (i2 & Hi2 & Heq2 & Hn2).
    destruct (gc_inode _ _ H23 _ _ Hi2) as (i3 & Hi3 & Heq3 & Hn3).
    exists i3. split; [done|]. split; [|auto].
    rewrite Heq3 at 1. rewrite Heq2. done.
  - intros a k c Hc. eapply gc_shrink; [done|]. by eapply gc_shrink.
  - intros a k c ci Hc Hci Hm.
    destruct (gc_inode _ _ H12 _ _ Hci) as (ci2 & Hci2 & Heq2 & _).
    eapply (gc_kept _ _ H23); [by eapply (gc_kept _ _ H12)|done|].
    rewrite Heq2. done.
  - intros h a Ha. eapply gc_handles; [done|]. by eapply gc_handles.
  - intros h a Ha Hall.
    eapply (gc_handles_kept _ _ H23); [by eapply (gc_handles_kept _ _ H12)|].
    intros c ci2 Hci2 Hid.
    destruct (gc_inode_rev _ _ _ _ H12 Hci2) as (ci & Hci & Heq).
    rewrite Heq. simpl. eapply Hall; [done|]. rewrite Heq in Hid. done.
Qed.

(** One round of the second loop of [considerDropInode]. *)
Lemma gc_step_drop st n i k c ci :
  inodes st !! n = Some i → child st n k = Some c →
  inodes st !! c = Some ci → mountPoint ci = None →
  gc_step st
    (set_inodeMap (HandleMap.Forget (inodeMap st) (nodeId ci))
       (set_inodes (<[n := set_children (delete k <$> children i) i]>
                      (inodes st)) st)).
Proof.
  intros Hn Hc Hci Hm. split; simpl; try done.
  - intros a Ha. rewrite lookup_insert_ne; [done|congruence].
  - intros a j Hj. destruct (decide (a = n)) as [->|Hne].
    + rewrite lookup_insert_eq. eexists; split; [done|].
      assert (j = i) as -> by congruence. split; [done|].
      simpl. by intros ->.
    + rewrite lookup_insert_ne by done. exists j.
      by rewrite set_children_id.
  - intros a k' c'. unfold child; simpl.
    destruct (decide (a = n)) as [->|Hne].
    + rewrite lookup_insert_eq, Hn. simpl. unfold map_get.
      destruct (children i) as [m|]; simpl; [|done].
      intros H. by apply lookup_delete_Some in H as [_ ?].
    + by rewrite lookup_insert_ne.
  - intros a k' c' ci' Hc' Hci' Hm'. unfold child; simpl.
    destruct (decide (a = n)) as [->|Hne].
    + rewrite lookup_insert_eq. simpl.
      rewrite (child_lookup _ _ _ _ Hn) in Hc. rewrite (child_lookup _ _ _ _ Hn) in Hc'.
      unfold map_get in *.
      destruct (children i) as [m|]; simpl in *; [|done].
      rewrite lookup_delete_ne; [done|]. intros ->. congruence.
    + by rewrite lookup_insert_ne.
  - intros h a. unfold HandleMap.Forget. intros H.
    by apply lookup_delete_Some in H as [_ ?].
  - intros h a Ha Hall. unfold HandleMap.Forget.
    rewrite lookup_delete_ne; [done|]. intros <-.
    by apply (Hall c ci).
Qed.

Lemma gc_step_fields st st' a i i' :
  gc_step st st' → inodes st !! a = Some i → inodes st' !! a = Some i' →
  mountPoint i' = mountPoint i ∧ nodeId i' = nodeId i ∧
  lookupCount i' = lookupCount i ∧ openFiles i' = openFiles i ∧
  mount i' = mount i ∧ mounts i' = mounts i.
Proof.
  intros H Hi Hi'. destruct (gc_inode _ _ H _ _ Hi) as (i2 & Hi2 & Heq & _).
  assert (i2 = i') as -> by congruence. rewrite Heq. done.
Qed.

Lemma gc_step_alloc st st' a :
  gc_step st st' → is_Some (inodes st !! a) → is_Some (inodes st' !! a).
Proof.
  intros H [i Hi]. destruct (gc_inode _ _ H _ _ Hi) as (i' & Hi' & _). eauto.
Qed.

Local Open Scope nat_scope.

Lemma well_ranked_gc_step rank st st' :
  well_ranked rank st → gc_step st st' → well_ranked rank st'.
Proof.
  intros Hwr H a k c Hc. apply (gc_shrink _ _ H) in Hc.
  destruct (Hwr _ _ _ Hc) as [Hal Hlt]. split; [|done].
  by eapply gc_step_alloc.
Qed.

Section GC_step.
Variable range : gmap string addr → list (string * addr).
Hypothesis range_perm : ∀ m, range m ≡ₚ map_to_list m.

Lemma range_lookup m k v : (k, v) ∈ range m ↔ m !! k = Some v.
Proof. rewrite range_perm. apply elem_of_map_to_list. Qed.

Lemma collectChildren_gc_step rec kvs :
  (∀ v st, res_rel (gc_step st) (rec v st)) →
  ∀ acc st,
    match collectChildren rec kvs acc st with
    | Ok del st' =>
        gc_step st st' ∧
        ∀ k, k ∈ del → k ∈ acc ∨
          ∃ v ci, (k, v) ∈ kvs ∧ inodes st !! v = Some ci ∧
                  mountPoint ci = None
    | Panic _ st' => gc_step st st'
    | OutOfFuel => True
    end.
Proof.
  intros Hrec. induction kvs as [|[k v] rest IH]; intros acc st; simpl.
  - split; [apply gc_step_refl|]. auto.
  - unfold bind at 1, load.
    destruct (inodes st !! v) as [ci|] eqn:Hci; [|apply gc_step_refl].
    destruct (mountPoint ci) as [mp|] eqn:Hmp.
    + specialize (IH acc st).
      destruct (collectChildren rec rest acc st) as [del st'|msg st'|];
        [|done..].
      destruct IH as [Hst Hdel]. split; [done|].
      intros k' Hk'. destruct (Hdel k' Hk') as [?|(v' & ci' & ? & ? & ?)];
        [by left|right].
      exists v', ci'. split; [apply elem_of_cons; by right|done].
    + unfold bind at 1. specialize (Hrec v st).
      destruct (rec v st) as [drop st1|msg st1|]; simpl in Hrec; [|done..].
      specialize (IH (if drop then acc ++ [k] else acc) st1).
      destruct (collectChildren rec rest _ st1) as [del st'|msg st'|];
        [|by eapply gc_step_trans|done].
      destruct IH as [Hst Hdel]. split; [by eapply gc_step_trans|].
      intros k' Hk'. destruct (Hdel k' Hk') as [Hacc|(v' & ci' & ? & Hv' & Hm')].
      * destruct drop; [|by left].
        apply elem_of_app in Hacc as [?|Hk]; [by left|right].
        apply list_elem_of_singleton in Hk as ->.
        exists v, ci. split; [apply elem_of_cons; by left|done].
      * right. destruct (gc_inode_rev _ _ _ _ Hrec Hv') as (ci0 & Hci0 & Heq).
        exists v', ci0. split; [apply elem_of_cons; by right|].
        split; [done|]. rewrite Heq in Hm'. done.
Qed.

Lemma dropChildren_gc_step n del :
  ∀ st,
    (∀ k c, k ∈ del → child st n k = Some c →
       ∃ ci, inodes st !! c = Some ci ∧ mountPoint ci = None) →
    res_rel (gc_step st) (dropChildren n del st).
Proof.
  induction del as [|k rest IH]; intros st Hpre; simpl.
  - apply gc_step_refl.
  - unfold bind at 1.
    destruct (inodes st !! n) as [i|] eqn:Hn.
    2:{ unfold rmChild, bind, load. rewrite Hn. apply gc_step_refl. }
    rewrite (rmChild_eq _ _ _ _ Hn).
    destruct (child st n k) as [c|] eqn:Hc.
    2:{ simpl. rewrite (child_lookup _ _ _ _ Hn) in Hc.
        assert (delete k <$> children i = children i) as ->.
        { unfold map_get in Hc. destruct (children i); simpl in *; [|done].
          by rewrite delete_id. }
        rewrite set_children_id, insert_id, set_inodes_id by done.
        apply gc_step_refl. }
    destruct (Hpre k c) as (ci & Hci & Hm); [apply elem_of_cons; by left|done|].
    set (i1 := set_children _ i). set (st1 := set_inodes _ st).
    assert (∃ ci1, inodes st1 !! c = Some ci1 ∧ nodeId ci1 = nodeId ci)
      as (ci1 & Hci1 & Hid).
    { subst st1; simpl. destruct (decide (c = n)) as [->|Hne].
      - rewrite lookup_insert_eq. eexists; split; [done|].
        subst i1. simpl. congruence.
      - rewrite lookup_insert_ne by done. eauto. }
    unfold bind at 1, load. rewrite Hci1.
    unfold bind at 1, forgetHandle. rewrite Hid.
    set (st2 := set_inodeMap _ st1).
    assert (gc_step st st2) as H2
      by (subst st2 st1 i1; simpl; by eapply gc_step_drop).
    eapply (res_rel_mono (gc_step st2)); [intros; by eapply gc_step_trans|].
    apply IH. intros k' c' Hk' Hc'.
    apply (gc_shrink _ _ H2) in Hc'.
    destruct (Hpre k' c') as (ci' & Hci' & Hm'); [apply elem_of_cons; by right|done|].
    destruct (gc_inode _ _ H2 _ _ Hci') as (ci2 & Hci2 & Heq & _).
    exists ci2. split; [done|]. rewrite Heq. done.
Qed.

Lemma considerDropInode_gc_step fuel :
  ∀ n st, res_rel (gc_step st) (considerDropInode range fuel n st).
Proof.
  induction fuel as [|fuel IH]; intros n st; simpl; [done|].
  unfold bind at 1, load.
  destruct (inodes st !! n) as [i|] eqn:Hn; [|apply gc_step_refl].
  unfold bind at 1.
  pose proof (collectChildren_gc_step (considerDropInode range fuel)
                (range (default ∅ (children i))) IH [] st) as Hcol.
  destruct (collectChildren _ _ [] st) as [del st1|msg st1|]; [|done..].
  destruct Hcol as [H1 Hdel].
  unfold bind at 1.
  assert (res_rel (gc_step st1) (dropChildren n del st1)) as Hdrop.
  { apply dropChildren_gc_step. intros k c Hk Hc.
    destruct (Hdel k Hk) as [Hk'|(v & ci & Hkv & Hv & Hm)];
      [by apply elem_of_nil in Hk'|].
    apply range_lookup in Hkv.
    apply (gc_shrink _ _ H1) in Hc.
    rewrite (child_lookup _ _ _ _ Hn) in Hc. unfold map_get in Hc.
    destruct (children i) as [m|]; simpl in *; [|done].
    assert (c = v) as -> by congruence.
    destruct (gc_inode _ _ H1 _ _ Hv) as (ci1 & Hci1 & Heq & _).
    exists ci1. split; [done|]. rewrite Heq. done. }
  destruct (dropChildren n del st1) as [[] st2|msg st2|]; simpl in Hdrop;
    [|by eapply gc_step_trans|done].
  assert (gc_step st st2) as H2 by (by eapply gc_step_trans).
  unfold bind at 1, load.
  destruct (inodes st2 !! n) as [i'|]; [|done].
  unfold bind at 1, get, ret.
  repeat case_match; exact H2.
Qed.
End GC_step.

(** ** Garbage collection: its verdict and its termination *)

Section GC_verdict.
Variable range : gmap string addr → list (string * addr).

Lemma considerDropInode_verdict fuel n st drop st' :
  considerDropInode range fuel n st = Ok drop st' →
  ∃ i', inodes st' !! n = Some i' ∧ (drop = true ↔ collectible st' n i').
Proof.
  destruct fuel as [|fuel]; simpl; [done|].
  unfold bind at 1. destruct (load n st) as [i s0|?|]; [|done..].
  unfold bind at 1. destruct (collectChildren _ _ _ _) as [del st1|?|]; [|done..].
  unfold bind at 1. destruct (dropChildren _ _ _) as [[] st2|?|]; [|done..].
  unfold bind at 1, load. destruct (inodes st2 !! n) as [i'|] eqn:Hi'; [|done].
  unfold bind at 1, get, ret. unfold collectible.
  destruct (children i') as [m|] eqn:Hm; simpl.
  - repeat case_bool_decide; simpl; intros [= <- <-]; exists i';
      (split; [done|]); rewrite Hm; simpl;
      try (split; [done|]; intros (? & ? & ? & ? & ?); try lia; try done;
           by destruct (openFiles i')).
    all: try (split; [|done]; intros _; repeat split; try done; try lia;
         try (by apply dec_stable); by destruct (openFiles i')).
  - repeat case_bool_decide; simpl; intros [= <- <-]; exists i';
      (split; [done|]); rewrite Hm; simpl;
      try (split; [done|]; intros (? & ? & ? & ? & ?); try lia; try done;
           by destruct (openFiles i')).
    all: try (split; [|done]; intros _; repeat split; try done; try lia;
         try (by apply dec_stable); by destruct (openFiles i')).
Qed.
End GC_verdict.

Section GC_total.
Variable range : gmap string addr → list (string * addr).
Hypothesis range_perm : ∀ m, range m ≡ₚ map_to_list m.
Variable rank : addr → nat.

Lemma frame_refl b st : frame rank b st st.
Proof. by intros a _. Qed.
Lemma frame_trans b st1 st2 st3 :
  frame rank b st1 st2 → frame rank b st2 st3 → frame rank b st1 st3.
Proof. intros H1 H2 a Ha. rewrite (H2 a Ha). by apply H1. Qed.
Lemma frame_mono b b' st st' : b ≤ b' → frame rank b st st' → frame rank b' st st'.
Proof. intros Hb H a Ha. apply H. lia. Qed.

Lemma collectChildren_frame rec kvs b :
  (∀ v st, res_rel (gc_step st) (rec v st)) →
  (∀ k v st, (k, v) ∈ kvs → well_ranked rank st →
     res_rel (frame rank (S (rank v)) st) (rec v st)) →
  (∀ k v, (k, v) ∈ kvs → rank v < b) →
  ∀ acc st, well_ranked rank st →
    res_rel (frame rank b st) (collectChildren rec kvs acc st).
Proof.
  intros Hgc. induction kvs as [|[k v] rest IH]; intros Hrec Hb acc st Hwr; simpl.
  - apply frame_refl.
  - unfold bind at 1, load.
    destruct (inodes st !! v) as [ci|] eqn:Hci; [|apply frame_refl].
    assert (∀ acc st, well_ranked rank st →
              res_rel (frame rank b st) (collectChildren rec rest acc st)) as IH'.
    { apply IH.
      - intros k' v' st' Hin. apply (Hrec k'). apply elem_of_cons; by right.
      - intros k' v' Hin. apply (Hb k'). apply elem_of_cons; by right. }
    destruct (mountPoint ci); [by apply IH'|].
    unfold bind at 1.
    pose proof (Hrec k v st ltac:(apply elem_of_cons; by left) Hwr) as Hf.
    pose proof (Hgc v st) as Hg.
    destruct (rec v st) as [drop st1|msg st1|]; simpl in *;
      [|eapply frame_mono; [|done]; eapply Hb; apply elem_of_cons; by left|done].
    assert (frame rank b st st1) as Hf1.
    { eapply frame_mono; [|done]. eapply Hb. apply elem_of_cons; by left. }
    eapply (res_rel_mono (frame rank b st1)); [intros s Hs; by eapply frame_trans|].
    apply IH'. by eapply well_ranked_gc_step.
Qed.

Lemma dropChildren_frame n del :
  ∀ st, res_rel (λ st', ∀ a, a ≠ n → inodes st' !! a = inodes st !! a)
                (dropChildren n del st).
Proof.
  induction del as [|k rest IH]; intros st; simpl; [done|].
  unfold bind at 1.
  destruct (inodes st !! n) as [i|] eqn:Hn.
  2:{ unfold rmChild, bind, load. by rewrite Hn. }
  rewrite (rmChild_eq _ _ _ _ Hn).
  destruct (child st n k) as [c|]; simpl.
  2:{ intros a Ha. by rewrite lookup_insert_ne. }
  unfold bind at 1, load.
  match goal with |- context [inodes ?s !! c] =>
    destruct (inodes s !! c) as [ci|] end.
  2:{ simpl. intros a Ha. by rewrite lookup_insert_ne. }
  unfold bind at 1, forgetHandle.
  eapply res_rel_mono; [|apply IH].
  simpl. intros s Hs a Ha. rewrite (Hs a Ha). by rewrite lookup_insert_ne.
Qed.

Lemma considerDropInode_frame fuel :
  ∀ n st, well_ranked rank st →
    res_rel (frame rank (S (rank n)) st) (considerDropInode range fuel n st).
Proof.
  induction fuel as [|fuel IH]; intros n st Hwr; simpl; [done|].
  unfold bind at 1, load.
  destruct (inodes st !! n) as [i|] eqn:Hn; [|apply frame_refl].
  unfold bind at 1.
  assert (res_rel (frame rank (rank n) st)
            (collectChildren (considerDropInode range fuel)
               (range (default ∅ (children i))) [] st)) as Hcol.
  { apply collectChildren_frame; [apply considerDropInode_gc_step; done| |
                                  |done].
    - intros k v s _ Hs. by apply IH.
    - intros k v Hkv. rewrite range_perm in Hkv.
      apply elem_of_map_to_list in Hkv.
      eapply (Hwr n k). rewrite (child_lookup _ _ _ _ Hn). unfold map_get.
      destruct (children i); simpl in *; [done|].
      by rewrite lookup_empty in Hkv. }
  destruct (collectChildren _ _ [] st) as [del st1|msg st1|]; simpl in Hcol;
    [|eapply frame_mono; [|done]; lia|done].
  unfold bind at 1.
  pose proof (dropChildren_frame n del st1) as Hdrop.
  assert (∀ st2, (∀ a, a ≠ n → inodes st2 !! a = inodes st1 !! a) →
                 frame rank (S (rank n)) st st2) as Hfin.
  { intros st2 H2 a Ha. rewrite H2 by (intros ->; lia). apply Hcol. lia. }
  destruct (dropChildren n del st1) as [[] st2|msg st2|]; simpl in Hdrop;
    [|by apply Hfin|done].
  unfold bind at 1, load.
  destruct (inodes st2 !! n) as [i'|]; [|by apply Hfin].
  unfold bind at 1, get, ret.
  repeat case_match; by apply Hfin.
Qed.

Lemma collectChildren_total rec kvs b :
  (∀ v st, res_rel (gc_step st) (rec v st)) →
  (∀ v st, rank v < b → well_ranked rank st → is_Some (inodes st !! v) →
     ∃ d st', rec v st = Ok d st') →
  (∀ k v, (k, v) ∈ kvs → rank v < b) →
  ∀ acc st, well_ranked rank st →
    (∀ k v, (k, v) ∈ kvs → is_Some (inodes st !! v)) →
    ∃ del st', collectChildren rec kvs acc st = Ok del st' ∧
               del `sublist_of` acc ++ kvs.*1.
Proof.
  intros Hgc Hrec. induction kvs as [|[k v] rest IH]; intros Hb acc st Hwr Hal;
    simpl.
  - eexists _, _. split; [done|]. by rewrite app_nil_r.
  - unfold bind at 1, load.
    destruct (Hal k v) as [ci Hci]; [apply elem_of_cons; by left|].
    rewrite Hci.
    assert (∀ k v, (k, v) ∈ rest → rank v < b) as Hb'
      by (intros k' v' Hin; apply (Hb k'); apply elem_of_cons; by right).
    destruct (mountPoint ci).
    + destruct (IH Hb' acc st Hwr) as (del & st' & -> & Hsub).
      { intros k' v' Hin. apply (Hal k'). apply elem_of_cons; by right. }
      eexists _, _. split; [done|].
      etrans; [done|]. apply sublist_app; [done|]. by apply sublist_cons.
    + unfold bind at 1.
      destruct (Hrec v st) as (d & st1 & Hv); [|done|by eauto|].
      { apply (Hb k). apply elem_of_cons; by left. }
      pose proof (Hgc v st) as Hg. rewrite Hv in Hg |- *. simpl in Hg.
      destruct (IH Hb' (if d then acc ++ [k] else acc) st1)
        as (del & st' & -> & Hsub).
      { by eapply well_ranked_gc_step. }
      { intros k' v' Hin. eapply gc_step_alloc; [done|].
        apply (Hal k'). apply elem_of_cons; by right. }
      eexists _, _. split; [done|].
      etrans; [done|]. destruct d.
      * rewrite <- app_assoc. done.
      * apply sublist_app; [done|]. by apply sublist_cons.
Qed.

Lemma dropChildren_total n del :
  ∀ st, NoDup del →
    (∀ k, k ∈ del → ∃ c, child st n k = Some c ∧ is_Some (inodes st !! c)) →
    ∃ st', dropChildren n del st = Ok tt st' ∧
           ∀ a, is_Some (inodes st !! a) → is_Some (inodes st' !! a).
Proof.
  induction del as [|k rest IH]; intros st Hnd Hpre; simpl.
  - by eexists.
  - apply NoDup_cons in Hnd as [Hk Hnd].
    destruct (Hpre k) as (c & Hc & [ci Hci]); [apply elem_of_cons; by left|].
    assert (∃ i, inodes st !! n = Some i) as [i Hn].
    { unfold child in Hc. destruct (inodes st !! n); [eauto|done]. }
    unfold bind at 1. rewrite (rmChild_eq _ _ _ _ Hn), Hc.
    set (st1 := set_inodes _ st).
    assert (∀ a, is_Some (inodes st !! a) → is_Some (inodes st1 !! a)) as Hal.
    { intros a Ha. subst st1; simpl. destruct (decide (a = n)) as [->|].
      - rewrite lookup_insert_eq. eauto.
      - by rewrite lookup_insert_ne. }
    destruct (Hal c) as [ci1 Hci1]; [eauto|].
    unfold bind at 1, load. rewrite Hci1.
    unfold bind at 1, forgetHandle.
    edestruct (IH (set_inodeMap (HandleMap.Forget (inodeMap st1) (nodeId ci1)) st1))
      as (st' & -> & Hal'); [done| |].
    { intros k' Hk'. destruct (Hpre k') as (c' & Hc' & Hsome);
        [apply elem_of_cons; by right|].
      exists c'. split; [|by apply Hal].
      unfold child. simpl. rewrite lookup_insert_eq. simpl.
      rewrite (child_lookup _ _ _ _ Hn) in Hc'. unfold map_get in *.
      destruct (children i); simpl in *; [|done].
      rewrite lookup_delete_ne; [done|]. intros ->. done. }
    eexists. split; [done|]. intros a Ha. apply Hal'. by apply Hal.
Qed.

Lemma considerDropInode_total fuel :
  ∀ n st, well_ranked rank st → is_Some (inodes st !! n) → rank n < fuel →
    ∃ drop st', considerDropInode range fuel n st = Ok drop st'.
Proof.
  induction fuel as [|fuel IH]; intros n st Hwr [i Hn] Hfuel; [lia|]. simpl.
  unfold bind at 1, load. rewrite Hn.
  set (m := default ∅ (children i)).
  assert (∀ k v, (k, v) ∈ range m → child st n k = Some v) as Hch.
  { intros k v Hkv. rewrite range_perm in Hkv.
    apply elem_of_map_to_list in Hkv.
    rewrite (child_lookup _ _ _ _ Hn). unfold map_get. subst m.
    destruct (children i); simpl in *; [done|].
    by rewrite lookup_empty in Hkv. }
  unfold bind at 1.
  destruct (collectChildren_total (considerDropInode range fuel) (range m)
              (rank n)) with (acc := @nil string) (st := st)
    as (del & st1 & Hcol & Hsub).
  - by apply considerDropInode_gc_step.
  - intros v s Hv Hs Hal. apply IH; [done..|lia].
  - intros k v Hkv. by apply (Hwr n k), Hch.
  - done.
  - intros k v Hkv. by apply (Hwr n k), Hch.
  - rewrite Hcol.
    pose proof (collectChildren_gc_step
                  (considerDropInode range fuel) (range m)
                  (considerDropInode_gc_step range range_perm fuel) [] st)
      as Hgc.
    rewrite Hcol in Hgc. destruct Hgc as [Hgc _].
    assert (frame rank (rank n) st st1) as Hfr.
    { pose proof (collectChildren_frame (considerDropInode range fuel)
                    (range m) (rank n)) as Hf.
      specialize (Hf (considerDropInode_gc_step range range_perm fuel)).
      specialize (Hf (λ k v s _ Hs, considerDropInode_frame fuel v s Hs)).
      specialize (Hf (λ k v Hkv, proj2 (Hwr n k v (Hch k v Hkv))) [] st Hwr).
      by rewrite Hcol in Hf. }
    assert (NoDup (range m).*1) as Hnd.
    { rewrite range_perm. apply NoDup_fst_map_to_list. }
    unfold bind at 1.
    destruct (dropChildren_total n del st1) as (st2 & -> & Hal2).
    + eapply sublist_NoDup; done.
    + intros k Hk. eapply elem_of_sublist in Hk; [|done].
      apply list_elem_of_fmap in Hk as [[k' v] [-> Hkv]]. simpl.
      exists v. split.
      * unfold child. rewrite Hfr by done. by apply Hch.
      * eapply gc_step_alloc; [done|]. by apply (Hwr n k'), Hch.
    + destruct (Hal2 n) as [i2 Hi2].
      { eapply gc_step_alloc; [done|]. eauto. }
      unfold bind at 1, load. rewrite Hi2.
      unfold bind at 1, get, ret.
      repeat case_match; eauto.
Qed.
End GC_total.

Local Open Scope Z_scope.

Section Collectible.
Variable range : gmap string addr → list (string * addr).
Hypothesis range_perm : ∀ m, range m ≡ₚ map_to_list m.
Variable rank : addr → nat.

(** C1, as the code has it: on a tree, [considerDropInode] returns, and it
    reports the inode collectible exactly when, its children processed, it
    has no child left, its lookup count is not positive, it is not the root,
    it is no mount point and it has no open file. *)
Theorem considerDropInode_collectible fuel n st :
  well_ranked rank st → is_Some (inodes st !! n) → (rank n < fuel)%nat →
  ∃ drop st' i',
    considerDropInode range fuel n st = Ok drop st' ∧
    inodes st' !! n = Some i' ∧
    (drop = true ↔ collectible st' n i').
Proof.
  intros Hwr Hn Hfuel.
  destruct (considerDropInode_total range range_perm rank fuel n st)
    as (drop & st' & Hcdi); [done..|].
  destruct (considerDropInode_verdict range fuel n st drop st' Hcdi)
    as (i' & Hi' & Hiff).
  by exists drop, st', i'.
Qed.
End Collectible.

Lemma considerDropInode_collectible_witness :
  ∃ drop st' i',
    considerDropInode map_to_list 5 2%positive ex_state = Ok drop st' ∧
    inodes st' !! 2%positive = Some i' ∧
    (drop = true ↔ collectible st' 2%positive i').
Proof.
  apply (considerDropInode_collectible map_to_list
           (λ m, Permutation_refl _) ex_rank 5 2%positive ex_state).
  - apply well_ranked_b_sound. vm_compute. reflexivity.
  - eexists. reflexivity.
  - vm_compute. lia.
Defined.

Example ex_forget :
  ∃ st', forgetUpdate map_to_list 5 6%N 1 ex_state = Ok tt st' ∧
          (lookupCount <$> inodes st' !! 6%positive) = Some (-1).
Proof. vm_compute. eexists. split; reflexivity. Qed.

(** A forget of one on the file [x], whose count is zero, leaves the count
    at minus one, and the collection then reports [x] collectible. *)
Lemma considerDropInode_negative_count :
  ∃ st1 i,
    forgetUpdate map_to_list 5 6%N 1 ex_state = Ok tt st1 ∧
    inodes st1 !! 6%positive = Some i ∧
    lookupCount i = -1 ∧
    considerDropInode map_to_list 5 6%positive st1 = Ok true st1 ∧
    ¬ collectible_count_zero st1 6%positive i.
Proof.
  eexists _, _. split; [vm_compute; reflexivity|].
  split; [vm_compute; reflexivity|].
  split; [reflexivity|]. split; [vm_compute; reflexivity|].
  intros (_ & H & _). simpl in H. lia.
Qed.

(** ** Lookups and forgets *)

Lemma pin_step_refl st : pin_step st st.
Proof. split; eauto. Qed.

Lemma pin_step_trans st1 st2 st3 :
  pin_step st1 st2 → pin_step st2 st3 → pin_step st1 st3.
Proof.
  intros H12 H23. split.
  - intros a i Hi.
    destruct (pin_inode _ _ H12 _ _ Hi) as (i2 & Hi2 & Hid2 & Hm2).
    destruct (pin_inode _ _ H23 _ _ Hi2) as (i3 & Hi3 & Hid3 & Hm3).
    exists i3. split; [done|]. split; congruence.
  - intros a k c ci Hc Hci Hm.
    destruct (pin_inode _ _ H12 _ _ Hci) as (ci2 & Hci2 & _ & Hm2).
    eapply (pin_edge _ _ H23); [by eapply (pin_edge _ _ H12)|done|congruence].
  - intros h a Ha Hall.
    destruct (pin_handle _ _ H12 _ _ Ha Hall) as [Ha2 Hall2].
    by apply (pin_handle _ _ H23).
Qed.

Lemma gc_step_pin_step st st' : gc_step st st' → pin_step st st'.
Proof.
  intros H. split.
  - intros a i Hi. destruct (gc_inode _ _ H _ _ Hi) as (i' & Hi' & Heq & _).
    exists i'. split; [done|]. rewrite Heq. done.
  - apply (gc_kept _ _ H).
  - intros h a Ha Hall. split; [by apply (gc_handles_kept _ _ H)|].
    intros c ci' Hci' Hid.
    destruct (gc_inode_rev _ _ _ _ H Hci') as (ci & Hci & Heq).
    rewrite Heq. simpl. eapply Hall; [done|]. rewrite Heq in Hid. done.
Qed.

(** A write to an inode that keeps its identifier and mount point and does
    not remove a child entry. *)
Lemma pin_step_store st n i i' :
  inodes st !! n = Some i → nodeId i' = nodeId i →
  mountPoint i' = mountPoint i →
  (∀ k c, map_get (children i) k = Some c → map_get (children i') k = Some c) →
  pin_step st (set_inodes (<[n := i']> (inodes st)) st).
Proof.
  intros Hn Hid Hm Hch. split; simpl.
  - intros a j Hj. destruct (decide (a = n)) as [->|Hne].
    + rewrite lookup_insert_eq. exists i'. split; [done|]. split; congruence.
    + rewrite lookup_insert_ne by done. eauto.
  - intros a k c ci Hc Hci Hmc. unfold child in *; simpl.
    destruct (decide (a = n)) as [->|Hne].
    + rewrite lookup_insert_eq. rewrite Hn in Hc. simpl in *. by apply Hch.
    + by rewrite lookup_insert_ne.
  - intros h a Ha Hall. split; [done|]. intros c ci.
    destruct (decide (c = n)) as [->|Hne].
    + rewrite lookup_insert_eq. intros [= <-] Hh. rewrite Hm.
      eapply Hall; [done|]. congruence.
    + rewrite lookup_insert_ne by done. apply Hall.
Qed.

Lemma Register_fresh (m : gmap N positive) obj h m' :
  HandleMap.Register m obj = (h, m') → m !! h = None ∧ m' = <[h := obj]> m.
Proof.
  unfold HandleMap.Register. intros [= <- <-]. split; [|done].
  apply not_elem_of_dom. intros Hin.
  apply (is_fresh (dom m ∪ {[0%N; FUSE_ROOT_ID]})). set_solver.
Qed.

Lemma pin_step_newInode isDir st : res_rel (pin_step st) (newInode isDir st).
Proof.
  unfold newInode, bind, get.
  destruct (HandleMap.Register _ _) as [h hm] eqn:Hreg.
  apply Register_fresh in Hreg as [Hh ->]. simpl.
  set (data := fresh (dom (inodes st))).
  assert (inodes st !! data = None) as Hd.
  { apply not_elem_of_dom. apply is_fresh. }
  split; simpl.
  - intros a i Hi. rewrite lookup_insert_ne by congruence. eauto.
  - intros a k c ci Hc Hci Hm. unfold child in *; simpl.
    rewrite lookup_insert_ne; [done|]. intros <-. by rewrite Hd in Hc.
  - intros h' a Ha Hall. split.
    + rewrite lookup_insert_ne; [done|]. congruence.
    + intros c ci. destruct (decide (c = data)) as [->|Hne].
      * rewrite lookup_insert_eq. intros [= <-]. simpl. congruence.
      * rewrite lookup_insert_ne by done. apply Hall.
Qed.

Lemma newInode_Ok isDir st data st' :
  newInode isDir st = Ok data st' →
  inodes st !! data = None ∧
  ∃ d, inodes st' !! data = Some d ∧
       ∀ a, a ≠ data → inodes st' !! a = inodes st !! a.
Proof.
  unfold newInode, bind, get.
  destruct (HandleMap.Register _ _) as [h hm] eqn:Hreg.
  intros [= <- <-]. simpl. split.
  - apply not_elem_of_dom. apply is_fresh.
  - eexists. rewrite lookup_insert_eq. split; [done|].
    intros a Ha. by rewrite lookup_insert_ne.
Qed.

Lemma pin_step_lookupUpdate parent name isDir count st :
  res_rel (pin_step st) (lookupUpdate parent name isDir count st).
Proof.
  unfold lookupUpdate. unfold bind at 1, load.
  destruct (inodes st !! parent) as [p|] eqn:Hp; [|apply pin_step_refl].
  assert (∀ data st1, pin_step st st1 →
     res_rel (pin_step st)
       ((do d <- load data;
         do_ store data (set_lookupCount (int_add (lookupCount d) count) d);
         do_ verify; ret data) st1)) as Hfin.
  { intros data st1 H1. unfold bind at 1, load.
    destruct (inodes st1 !! data) as [d|] eqn:Hd; [|done].
    unfold bind, store, verify, ret. simpl.
    eapply pin_step_trans; [done|]. by eapply pin_step_store. }
  unfold bind at 1.
  destruct (map_get (children p) name) as [data|] eqn:Hch.
  { unfold ret at 1. apply Hfin, pin_step_refl. }
  unfold bind at 1.
  pose proof (pin_step_newInode isDir st) as Hnew.
  destruct (newInode isDir st) as [data st1|msg st1|] eqn:Hni; [|done..].
  simpl in Hnew. apply newInode_Ok in Hni as (Hfresh & d & Hd & Hother).
  assert (parent ≠ data) as Hpd by congruence.
  assert (inodes st1 !! parent = Some p) as Hp1 by (by rewrite Hother).
  unfold bind at 1.
  destruct (children p) as [m|] eqn:Hm.
  2:{ unfold addChild, bind, load. rewrite Hp1, Hm. done. }
  erewrite addChild_eq by done.
  set (st2 := set_inodes _ st1).
  assert (pin_step st st2) as H2.
  { eapply pin_step_trans; [done|]. subst st2.
    eapply pin_step_store; [done..|]. rewrite Hm. simpl in *.
    intros k c Hk. rewrite lookup_insert_ne; [done|]. congruence. }
  unfold bind at 1, load.
  destruct (inodes st2 !! parent) as [p'|]; [|done].
  unfold bind at 1.
  destruct (inodes st2 !! data) as [d2|] eqn:Hd2; [|done].
  destruct (mount p'); [|done].
  unfold bind at 1, store, ret at 1.
  apply Hfin. eapply pin_step_trans; [done|]. by eapply pin_step_store.
Qed.

Section Forgetting.
Variable range : gmap string addr → list (string * addr).
Hypothesis range_perm : ∀ m, range m ≡ₚ map_to_list m.

Lemma pin_step_forgetUpdate fuel nodeId count st :
  res_rel (pin_step st) (forgetUpdate range fuel nodeId count st).
Proof.
  unfold forgetUpdate. unfold bind at 1.
  destruct (getInodeData nodeId st) as [node st0|msg st0|] eqn:Hg.
  - apply getInodeData_Ok in Hg as ->.
    unfold bind at 1, load.
    destruct (inodes st !! node) as [i|] eqn:Hi; [|apply pin_step_refl].
    unfold bind at 1, store.
    set (st1 := set_inodes _ st).
    assert (pin_step st st1) as H1 by (by eapply pin_step_store).
    unfold bind at 1.
    pose proof (considerDropInode_gc_step range range_perm fuel node st1) as Hgc.
    destruct (considerDropInode range fuel node st1) as [d st2|msg st2|];
      simpl in *; [| |done];
      (eapply pin_step_trans; [done|]; by apply gc_step_pin_step).
  - unfold getInodeData, bind, get, ret, panic in Hg.
    case_bool_decide; [done|]. destruct (HandleMap.Decode _ _); [done|].
    injection Hg as <- <-. apply pin_step_refl.
  - unfold getInodeData, bind, get, ret, panic in Hg.
    case_bool_decide; [done|]. by destruct (HandleMap.Decode _ _).
Qed.

Lemma pin_step_run_ops fuel ops :
  ∀ st, res_rel (pin_step st) (run_ops range fuel ops st).
Proof.
  induction ops as [|op rest IH]; intros st; simpl; [apply pin_step_refl|].
  apply res_rel_bind; [apply pin_step_trans| |intros; apply IH].
  destruct op as [parent name isDir count|nodeId count]; simpl.
  - apply res_rel_bind; [apply pin_step_trans|apply pin_step_lookupUpdate|].
    intros. apply pin_step_refl.
  - apply pin_step_forgetUpdate.
Qed.

(** C2: an inode that is a mount point keeps, through any sequence of
    lookups and forgets, its place in every child map that held it and
    its handle in the handle map; it stays a mount point with the same
    identifier.  This holds of the state after the sequence and of the
    state at a panic alike. *)
Theorem mount_point_pinned fuel ops st m mi :
  inodes st !! m = Some mi → mountPoint mi ≠ None →
  res_rel
    (λ st',
       (∃ mi', inodes st' !! m = Some mi' ∧ mountPoint mi' = mountPoint mi ∧
               nodeId mi' = nodeId mi) ∧
       (∀ p k, child st p k = Some m → child st' p k = Some m) ∧
       (∀ h, inodeMap st !! h = Some m →
             (∀ c ci, inodes st !! c = Some ci → nodeId ci = h → c = m) →
             inodeMap st' !! h = Some m))
    (run_ops range fuel ops st).
Proof.
  intros Hm Hmp.
  eapply res_rel_mono; [|apply pin_step_run_ops].
  intros st' H. split; [|split].
  - destruct (pin_inode _ _ H _ _ Hm) as (mi' & ? & ? & ?). eauto.
  - intros p k Hc. by eapply (pin_edge _ _ H).
  - intros h Hh Huniq. eapply (pin_handle _ _ H); [done|].
    intros c ci Hci Hid. assert (c = m) as -> by eauto. congruence.
Qed.

(** C3: [forgetUpdate] stores the old count minus the decrement, as Go
    computes it; the result is not clamped, so whenever the difference is
    a Go [int] it is stored as it is, negative or not. *)
Theorem forgetUpdate_subtracts rank fuel nodeId dec st node i :
  getInodeData nodeId st = Ok node st →
  inodes st !! node = Some i →
  well_ranked rank st → (rank node < fuel)%nat →
  ∃ st' i',
    forgetUpdate range fuel nodeId dec st = Ok tt st' ∧
    inodes st' !! node = Some i' ∧
    lookupCount i' = int_sub (lookupCount i) dec ∧
    ((min_int ≤ lookupCount i - dec ≤ max_int)%Z →
     lookupCount i' = (lookupCount i - dec)%Z).
Proof.
  intros Hg Hi Hwr Hfuel.
  unfold forgetUpdate. unfold bind at 1. rewrite Hg.
  unfold bind at 1, load. rewrite Hi.
  unfold bind at 1, store.
  set (i1 := set_lookupCount _ i). set (st1 := set_inodes _ st).
  assert (inodes st1 !! node = Some i1) as Hi1
    by (subst st1; simpl; by rewrite lookup_insert_eq).
  destruct (considerDropInode_total range range_perm rank fuel node st1)
    as (drop & st' & Hcdi); [by eapply well_ranked_store|eauto|done|].
  pose proof (considerDropInode_gc_step range range_perm fuel node st1) as Hgc.
  unfold bind at 1. rewrite Hcdi in Hgc |- *. simpl in Hgc.
  destruct (gc_inode _ _ Hgc _ _ Hi1) as (i' & Hi' & Heq & _).
  exists st', i'. split; [done|]. split; [done|].
  assert (lookupCount i' = int_sub (lookupCount i) dec) as Hlc
    by (rewrite Heq; done).
  split; [done|]. intros Hr. rewrite Hlc. by apply wrap_int_small.
Qed.
End Forgetting.

Lemma mount_point_pinned_witness :
  res_rel
    (λ st',
       (∃ mi', inodes st' !! 5%positive = Some mi' ∧
               mountPoint mi' = mountPoint ex_data ∧
               nodeId mi' = nodeId ex_data) ∧
       (∀ p k, child ex_state p k = Some 5%positive →
               child st' p k = Some 5%positive) ∧
       (∀ h, inodeMap ex_state !! h = Some 5%positive →
             (∀ c ci, inodes ex_state !! c = Some ci → nodeId ci = h →
                      c = 5%positive) →
             inodeMap st' !! h = Some 5%positive))
    (run_ops map_to_list 5 ex_ops ex_state).
Proof.
  apply (mount_point_pinned map_to_list (λ m, Permutation_refl _) 5 ex_ops
           ex_state 5%positive ex_data).
  - reflexivity.
  - simpl. discriminate.
Defined.

(** The run of the witness ends well: the mount point is still the child
    [data] of the root and has its handle, while [x] is gone. *)
Example ex_ops_run :
  ∃ st', run_ops map_to_list 5 ex_ops ex_state = Ok tt st' ∧
         child st' 1%positive "data" = Some 5%positive ∧
         inodeMap st' !! 5%N = Some 5%positive ∧
         child st' 2%positive "x" = None ∧ inodeMap st' !! 6%N = None.
Proof. eexists. repeat split; vm_compute; reflexivity. Qed.

Lemma forgetUpdate_subtracts_witness :
  ∃ st' i',
    forgetUpdate map_to_list 5 6%N 1 ex_state = Ok tt st' ∧
    inodes st' !! 6%positive = Some i' ∧
    lookupCount i' = int_sub (lookupCount ex_x) 1 ∧
    (min_int ≤ lookupCount ex_x - 1 ≤ max_int →
     lookupCount i' = lookupCount ex_x - 1).
Proof.
  apply (forgetUpdate_subtracts map_to_list (λ m, Permutation_refl _) ex_rank
           5 6%N 1 ex_state 6%positive ex_x).
  - reflexivity.
  - reflexivity.
  - apply well_ranked_b_sound. vm_compute. reflexivity.
  - vm_compute. lia.
Defined.

(** ** Mount and unmount *)

(** C10: mounting on ["/"] or on the empty path binds the root inode to a
    new mount of the backend and answers [OK] whatever the tree holds; the
    root is the same object with the same identifier, children and count. *)
Theorem Mount_root st mp nodeFs opts r :
  mp = "/"%string ∨ mp = EmptyString →
  inodes st !! rootNode st = Some r →
  ∃ st' r' m,
    Mount mp nodeFs opts st = Ok OK st' ∧
    rootNode st' = rootNode st ∧
    inodes st' !! rootNode st = Some r' ∧
    nodeId r' = nodeId r ∧ children r' = children r ∧
    lookupCount r' = lookupCount r ∧ openFiles r' = openFiles r ∧
    mountPoint r' = Some m ∧ mount r' = Some m ∧
    fsmounts st !! m = None ∧
    fsmounts st' !! m = Some (mkMount nodeFs (Some (rootNode st)) opts ∅) ∧
    (∀ a, a ≠ rootNode st → inodes st' !! a = inodes st !! a) ∧
    inodeMap st' = inodeMap st ∧
    events st' = events st ++ [EvFsMount nodeFs].
Proof.
  intros Hmp Hr.
  assert (Mount mp nodeFs opts = (do_ mountRoot nodeFs opts; ret OK)) as ->.
  { unfold Mount. by destruct Hmp as [-> | ->]. }
  unfold bind, mountRoot, bind, get, mountFs, bind, load, get. rewrite Hr.
  unfold store_mount, store, emitM, verify, ret. simpl.
  eexists _, _, (fresh (dom (fsmounts st))).
  split; [reflexivity|]. simpl.
  rewrite lookup_insert_eq. repeat split; try done.
  - apply not_elem_of_dom, is_fresh.
  - by rewrite lookup_insert_eq.
  - intros a Ha. by rewrite lookup_insert_ne.
Qed.

Lemma Mount_root_witness :
  ∃ st' r' m,
    Mount "/" 3%positive None ex_state = Ok OK st' ∧
    rootNode st' = rootNode ex_state ∧
    inodes st' !! rootNode ex_state = Some r' ∧
    nodeId r' = nodeId ex_root ∧ children r' = children ex_root ∧
    lookupCount r' = lookupCount ex_root ∧ openFiles r' = openFiles ex_root ∧
    mountPoint r' = Some m ∧ mount r' = Some m ∧
    fsmounts ex_state !! m = None ∧
    fsmounts st' !! m
      = Some (mkMount 3%positive (Some (rootNode ex_state)) None ∅) ∧
    (∀ a, a ≠ rootNode ex_state → inodes st' !! a = inodes ex_state !! a) ∧
    inodeMap st' = inodeMap ex_state ∧
    events st' = events ex_state ++ [EvFsMount 3%positive].
Proof.
  apply (Mount_root ex_state "/" 3%positive None ex_root).
  - by left.
  - reflexivity.
Defined.

(** C7, as the code has it: a mount below the root fails with [ENOENT]
    when the parent directory does not resolve or belongs to no mount, and
    with [EBUSY] when the name is taken; the state is untouched. *)
Theorem Mount_failure st mp nodeFs opts :
  mp ≠ "/"%string → mp ≠ EmptyString →
  let dirParent := (filepath_Split mp).1 in
  let base := (filepath_Split mp).2 in
  (findInode st dirParent = None →
     Mount mp nodeFs opts st = Ok ENOENT st) ∧
  (∀ parent p,
     findInode st dirParent = Some parent → inodes st !! parent = Some p →
     (mount p = None → Mount mp nodeFs opts st = Ok ENOENT st) ∧
     (mount p ≠ None → is_Some (child st parent base) →
        Mount mp nodeFs opts st = Ok EBUSY st)).
Proof.
  intros H1 H2 dirParent base. subst dirParent base.
  unfold Mount.
  rewrite (bool_decide_eq_false_2 _ H1), (bool_decide_eq_false_2 _ H2). simpl.
  destruct (filepath_Split mp) as [dirParent base]. simpl.
  split.
  - intros Hf. by rewrite bind_get, Hf.
  - intros parent p Hf Hp. rewrite bind_get, Hf, (bind_load _ _ _ _ Hp). split.
    + intros ->. done.
    + intros Hm [c Hc]. destruct (mount p); [|done].
      rewrite (child_lookup _ _ _ _ Hp) in Hc. rewrite Hc. done.
Qed.

Lemma Mount_failure_witness :
  Mount "/a" 3%positive None ex_state = Ok EBUSY ex_state ∧
  Mount "/nowhere/m" 3%positive None ex_state = Ok ENOENT ex_state.
Proof.
  split.
  - destruct (Mount_failure ex_state "/a" 3%positive None) as (_ & H);
      [discriminate..|].
    destruct (H 1%positive ex_root eq_refl eq_refl) as (_ & H1).
    apply H1; [simpl; discriminate|eexists; reflexivity].
  - destruct (Mount_failure ex_state "/nowhere/m" 3%positive None) as (H & _);
      [discriminate..|].
    apply H. reflexivity.
Defined.

(** The status of a mount on a taken name is [EBUSY], which is not the
    status that reads "already exists". *)
Lemma Mount_taken_name_is_busy :
  ∃ s, Mount "/a" 3%positive None ex_state = Ok s ex_state ∧
       s = EBUSY ∧ s ≠ EEXIST.
Proof.
  exists EBUSY. split; [vm_compute; reflexivity|]. split; [reflexivity|].
  discriminate.
Qed.

Section Unmounting.
Variable canUnmount : State → addr → bool.

(** C6: [Unmount] answers [EINVAL] when the parent directory does not
    resolve or holds no mount under the name, and [EBUSY] when the mount
    has an open file or [canUnmount] refuses its root inode.  When it
    succeeds, the name is gone from the child map and from the mount table
    of the parent, the inode is no mount point any more, and the hook of
    the backend and one entry notification for the name were issued, in
    that order.  Every answer other than [OK] leaves the state as it was. *)
Theorem Unmount_outcomes st path :
  let dir := (filepath_Split path).1 in
  let name := (filepath_Split path).2 in
  (findInode st dir = None → Unmount canUnmount path st = Ok EINVAL st) ∧
  (∀ parent p,
     findInode st dir = Some parent → inodes st !! parent = Some p →
     (map_get (mounts p) name = None →
        Unmount canUnmount path st = Ok EINVAL st) ∧
     (∀ mnt m,
        map_get (mounts p) name = Some mnt → fsmounts st !! mnt = Some m →
        ((0 < HandleMap.Count (mountOpenFiles m))%nat →
           Unmount canUnmount path st = Ok EBUSY st) ∧
        (∀ mi i,
           mountInode m = Some mi → inodes st !! mi = Some i →
           (canUnmount st mi = false →
              Unmount canUnmount path st = Ok EBUSY st) ∧
           (HandleMap.Count (mountOpenFiles m) = 0%nat →
            canUnmount st mi = true →
            ∃ st',
              Unmount canUnmount path st = Ok OK st' ∧
              child st' parent name = None ∧
              (∃ p', inodes st' !! parent = Some p' ∧
                     map_get (mounts p') name = None) ∧
              (∃ i', inodes st' !! mi = Some i' ∧ mountPoint i' = None) ∧
              fsmounts st' !! mnt = Some (set_mountInode None m) ∧
              events st' =
                events st ++ [EvFsUnmount (fs m);
                              EvEntryNotify (nodeId p) name])))) ∧
  (∀ s st', Unmount canUnmount path st = Ok s st' →
     s ≠ OK → st' = st ∧ (s = EINVAL ∨ s = EBUSY)).
Proof.
  intros dir name. subst dir name. unfold Unmount.
  destruct (filepath_Split path) as [dir name]. simpl.
  rewrite bind_get.
  split; [|split].
  - intros ->. done.
  - intros parent p -> Hp. rewrite (bind_load _ _ _ _ Hp). split.
    + intros ->. done.
    + intros mnt m -> Hm. rewrite (bind_load_mount _ _ _ _ Hm). split.
      * intros Hc. by rewrite bool_decide_eq_true_2.
      * intros mi i -> Hi. split.
        -- intros Hcu. case_bool_decide; [done|].
           by rewrite (bind_load _ _ _ _ Hi), Hcu.
        -- intros Hc Hcu. rewrite bool_decide_eq_false_2 by lia.
           rewrite (bind_load _ _ _ _ Hi), Hcu. simpl.
           rewrite bind_store_mount.
           set (st0 := set_fsmounts _ st).
           rewrite (bind_load _ _ _ st0 Hi), bind_store.
           set (i1 := set_mountPoint None i).
           set (st1 := set_inodes _ st0).
           assert (∃ p1, inodes st1 !! parent = Some p1 ∧
                         mounts p1 = mounts p ∧ children p1 = children p ∧
                         nodeId p1 = nodeId p) as (p1 & Hp1 & Hm1 & Hc1 & Hid1).
           { subst st1 st0; simpl. destruct (decide (parent = mi)) as [->|Hne].
             - rewrite lookup_insert_eq. eexists; split; [done|].
               assert (p = i) as -> by congruence. done.
             - rewrite lookup_insert_ne by done. eauto. }
           rewrite (bind_load _ _ _ _ Hp1), bind_store.
           set (st2 := set_inodes _ st1).
           assert (inodes st2 !! parent =
                   Some (set_mounts (delete name <$> mounts p1) p1)) as Hp2
             by (subst st2; simpl; by rewrite lookup_insert_eq).
           rewrite (bind_load _ _ _ _ Hp2), bind_store, !bind_emitM.
           eexists. split; [simpl; rewrite Hid1; reflexivity|].
           unfold child; simpl. rewrite !lookup_insert_eq. simpl.
           split.
           { unfold map_get. destruct (children p1); simpl; [|done].
             by rewrite lookup_delete_eq. }
           split.
           { eexists. split; [done|]. simpl. unfold map_get.
             destruct (mounts p1); simpl; [|done].
             by rewrite lookup_delete_eq. }
           split.
           { destruct (decide (parent = mi)) as [->|Hne].
             - rewrite lookup_insert_eq. eexists. split; [done|]. simpl.
               subst st1. simpl in Hp1. rewrite lookup_insert_eq in Hp1.
               injection Hp1 as <-. done.
             - rewrite !lookup_insert_ne by done.
               rewrite lookup_insert_eq. eauto. }
           split; [done|]. by rewrite <- app_assoc.
  - intros s st'.
    destruct (findInode st dir) as [parent|]; [|intros [= <- <-]; auto].
    destruct (inodes st !! parent) as [p|] eqn:Hp;
      [rewrite (bind_load _ _ _ _ Hp)|unfold bind, load; by rewrite Hp].
    destruct (map_get (mounts p) name) as [mnt|]; [|intros [= <- <-]; auto].
    destruct (fsmounts st !! mnt) as [m|] eqn:Hm;
      [rewrite (bind_load_mount _ _ _ _ Hm)
      |unfold bind, load_mount; by rewrite Hm].
    case_bool_decide; [intros [= <- <-]; auto|].
    destruct (mountInode m) as [mi|]; [|done].
    destruct (inodes st !! mi) as [i|] eqn:Hi;
      [rewrite (bind_load _ _ _ _ Hi)|unfold bind, load; by rewrite Hi].
    destruct (canUnmount st mi); simpl; [|intros [= <- <-]; auto].
    rewrite bind_store_mount.
    set (st0 := set_fsmounts _ st).
    rewrite (bind_load _ _ _ st0 Hi), bind_store.
    set (st1 := set_inodes _ st0).
    destruct (inodes st1 !! parent) as [p1|] eqn:Hp1;
      [rewrite (bind_load _ _ _ _ Hp1)|unfold bind, load; by rewrite Hp1].
    rewrite bind_store.
    set (st2 := set_inodes _ st1).
    assert (inodes st2 !! parent =
            Some (set_mounts (delete name <$> mounts p1) p1)) as Hp2
      by (subst st2; simpl; by rewrite lookup_insert_eq).
    rewrite (bind_load _ _ _ _ Hp2), bind_store, !bind_emitM.
    intros [= <- <-]. done.
Qed.
End Unmounting.

Lemma Unmount_outcomes_witness :
  ∃ st',
    Unmount (canUnmount_model 5) "/data" ex_state = Ok OK st' ∧
    child st' 1%positive "data" = None ∧
    (∃ p', inodes st' !! 1%positive = Some p' ∧
           map_get (mounts p') "data" = None) ∧
    (∃ i', inodes st' !! 5%positive = Some i' ∧ mountPoint i' = None) ∧
    fsmounts st' !! 2%positive
      = Some (set_mountInode None (mkMount 2%positive (Some 5%positive) None ∅)) ∧
    events st' =
      events ex_state ++ [EvFsUnmount 2%positive;
                          EvEntryNotify FUSE_ROOT_ID "data"].
Proof.
  destruct (Unmount_outcomes (canUnmount_model 5) ex_state "/data")
    as (_ & H & _).
  destruct (H 1%positive ex_root eq_refl eq_refl) as (_ & H1).
  destruct (H1 2%positive (mkMount 2%positive (Some 5%positive) None ∅)
              eq_refl eq_refl) as (_ & H2).
  destruct (H2 5%positive ex_data eq_refl eq_refl) as (_ & H3).
  exact (H3 eq_refl eq_refl).
Defined.

(** The scenario runs as the specification tells it: the forget leaves
    the mount point in place, the unmount succeeds, and the path resolves
    no more. *)
Example scenario_runs :
  ∃ st n, scenario ex_fresh = Ok (OK, n, 1, true, OK, None) st ∧
          events st = [EvFsMount 2%positive; EvFsUnmount 2%positive;
                       EvEntryNotify FUSE_ROOT_ID "data"].
Proof. vm_compute. eexists _, _. split; reflexivity. Qed.

(** The model of [canUnmount] refuses what the specification says it
    refuses. *)
Lemma canUnmount_model_count depth st n i :
  inodes st !! n = Some i → lookupCount i ≠ 0 →
  canUnmount_model depth st n = false.
Proof.
  intros Hi Hc. destruct depth as [|d]; [done|]. simpl. rewrite Hi.
  by rewrite bool_decide_eq_false_2.
Qed.

Lemma canUnmount_model_submount depth st n i k c ci :
  inodes st !! n = Some i → map_get (children i) k = Some c →
  inodes st !! c = Some ci → mountPoint ci ≠ None →
  canUnmount_model depth st n = false.
Proof.
  intros Hi Hk Hc Hm. destruct depth as [|d]; [done|]. simpl. rewrite Hi.
  apply andb_false_intro2. apply not_true_is_false. intros Hall.
  rewrite forallb_forall in Hall.
  unfold map_get in Hk. destruct (children i) as [m|]; [|done]. simpl in *.
  apply elem_of_map_to_list, list_elem_of_In in Hk.
  specialize (Hall _ Hk). simpl in Hall. rewrite Hc in Hall.
  apply andb_true_iff in Hall as [Hall _].
  apply bool_decide_eq_true in Hall. done.
Qed.

(** ** Path resolution and notification *)

Lemma length_zero_empty (s : string) : String.length s = 0%nat ↔ s = EmptyString.
Proof. destruct s; simpl; split; congruence. Qed.

Lemma walk_deepest st comps :
  ∀ node n rest,
    walk st node comps = (n, rest) →
    ∃ pre, comps = pre ++ rest ∧
           reach st node (filter (.≠ EmptyString) pre) = Some n ∧
           (rest = [] ∨
            ∃ c rest', rest = c :: rest' ∧ c ≠ EmptyString ∧
                       child st n c = None).
Proof.
  induction comps as [|c comps IH]; intros node n rest; simpl.
  - intros [= <- <-]. exists []. split; [done|]. split; [done|]. by left.
  - case_bool_decide as Hlen.
    + apply length_zero_empty in Hlen as ->.
      intros Hw. destruct (IH _ _ _ Hw) as (pre & -> & Hr & Hrest).
      exists (EmptyString :: pre). split; [done|]. split; [|done].
      rewrite filter_cons_False; [done|]. intros H; by apply H.
    + assert (c ≠ EmptyString) as Hc by (by rewrite <- length_zero_empty).
      destruct (child st node c) as [next|] eqn:Hch.
      * intros Hw. destruct (IH _ _ _ Hw) as (pre & -> & Hr & Hrest).
        exists (c :: pre). split; [done|]. split; [|done].
        rewrite filter_cons_True by done. simpl. by rewrite Hch.
      * intros [= <- <-]. exists []. split; [done|]. split; [done|].
        right. eauto.
Qed.

Lemma walk_alloc st comps :
  closed st → ∀ node n rest,
    is_Some (inodes st !! node) → walk st node comps = (n, rest) →
    is_Some (inodes st !! n).
Proof.
  intros Hcl. induction comps as [|c comps IH]; intros node n rest Hn; simpl.
  - by intros [= <- <-].
  - case_bool_decide; [by apply IH|].
    destruct (child st node c) as [next|] eqn:Hch.
    + apply IH. by eapply Hcl.
    + by intros [= <- <-].
Qed.

Lemma findInode_abc st n :
  findInode st "/a/b/c" = Some n ↔
  ∃ na nb, child st (rootNode st) "a" = Some na ∧
           child st na "b" = Some nb ∧ child st nb "c" = Some n.
Proof.
  unfold findInode, findLastKnownInode.
  rewrite bool_decide_eq_false_2 by done. rewrite path_comps_abc.
  cbn [walk String.length]. rewrite !bool_decide_eq_false_2 by done.
  destruct (child st (rootNode st) "a") as [na|] eqn:Ha; simpl.
  2:{ split; [done|]. intros (? & ? & ? & _). done. }
  destruct (child st na "b") as [nb|] eqn:Hb; simpl.
  2:{ split; [done|]. intros (? & ? & [= <-] & ? & _). congruence. }
  destruct (child st nb "c") as [nc|] eqn:Hc; simpl.
  2:{ split; [done|]. intros (? & ? & [= <-] & ? & ?). congruence. }
  split.
  - intros [= <-]. eauto.
  - intros (? & ? & [= <-] & ? & ?). congruence.
Qed.

Lemma findLastKnownInode_deepest st p :
  ∃ n rest pre,
    findLastKnownInode st p = (n, rest) ∧
    (if bool_decide (p = EmptyString) then pre = [] ∧ rest = []
     else path_comps p = pre ++ rest) ∧
    reach st (rootNode st) (filter (.≠ EmptyString) pre) = Some n ∧
    (rest = [] ∨
     ∃ c rest', rest = c :: rest' ∧ c ≠ EmptyString ∧ child st n c = None) ∧
    findInode st p = match rest with [] => Some n | _ => None end.
Proof.
  unfold findInode, findLastKnownInode. case_bool_decide as Hp.
  - exists (rootNode st), [], []. repeat split; try done. by left.
  - destruct (walk st (rootNode st) (path_comps p)) as [n rest] eqn:Hw.
    destruct (walk_deepest _ _ _ _ _ Hw) as (pre & Hpre & Hr & Hrest).
    exists n, rest, pre. repeat split; try done.
    by destruct rest.
Qed.

(** C8, as the code has it: [findLastKnownInode] first cleans the path
    with [filepath.Clean]; it then consumes the components of the cleaned
    path through child entries as far as they go, and returns the node it
    reached with the components it could not consume.  Those components
    are path elements, not empty and without separator, unless the path
    cleans to the root and leaves one empty component, which the walk
    skips.  [findInode] returns the node reached when nothing is left and
    nil otherwise; for ["/a/b/c"] that is when [a], [a/b] and [a/b/c] are
    child entries from the root on. *)
Theorem path_resolution st p :
  (∃ n rest pre,
     findLastKnownInode st p = (n, rest) ∧
     (if bool_decide (p = EmptyString) then pre = [] ∧ rest = []
      else path_comps p = pre ++ rest) ∧
     reach st (rootNode st) (filter (.≠ EmptyString) pre) = Some n ∧
     (rest = [] ∨
      ∃ c rest', rest = c :: rest' ∧ c ≠ EmptyString ∧ child st n c = None) ∧
     findInode st p = match rest with [] => Some n | _ => None end) ∧
  (p ≠ EmptyString →
     path_comps p = [EmptyString] ∨ Forall element (path_comps p)) ∧
  (∀ n, findInode st "/a/b/c" = Some n ↔
        ∃ na nb, child st (rootNode st) "a" = Some na ∧
                 child st na "b" = Some nb ∧ child st nb "c" = Some n).
Proof.
  split; [apply findLastKnownInode_deepest|].
  split; [apply path_comps_elements|apply findInode_abc].
Qed.

Example ex_findInode_cleaned :
  findInode ex_state "/a/./x/../b/" = Some 3%positive.
Proof. vm_compute. reflexivity. Qed.

(** The path [/a/b/../x] is cleaned to [/a/x] and resolves to the file
    [x], although [b] holds no entry of the name [..]: the components of
    the path as it is written lead no further than [b]. *)
Lemma findLastKnownInode_cleans_first :
  findLastKnownInode ex_state "/a/b/../x" = (6%positive, []) ∧
  findInode ex_state "/a/b/../x" = Some 6%positive ∧
  walk ex_state (rootNode ex_state) (strings_Split "/a/b/../x")
    = (3%positive, [".."; "x"]%string) ∧
  reach ex_state (rootNode ex_state) ["a"; "b"; ".."; "x"]%string = None.
Proof. repeat split; vm_compute; reflexivity. Qed.

(** C9, as the code has it: [Notify] always finds a node to speak of,
    the one that the longest prefix of the components of the cleaned path
    leads to through child entries, the root when no component resolves.
    When components are left over it invalidates the entry of the first of
    them under that node, otherwise it invalidates the node itself.  It
    has no answer of its own: the status is the kernel's answer to the one
    notification it sent, never a "not found" of the connector. *)
Theorem Notify_outcome st path :
  is_Some (inodes st !! rootNode st) → closed st →
  ∃ node rest pre i,
    (if bool_decide (path = EmptyString) then pre = [] ∧ rest = []
     else path_comps path = pre ++ rest) ∧
    reach st (rootNode st) (filter (.≠ EmptyString) pre) = Some node ∧
    findLastKnownInode st path = (node, rest) ∧
    inodes st !! node = Some i ∧
    match rest with
    | [] =>
        findInode st path = Some node ∧
        Notify path st =
          Ok (RawFsInit.InodeNotify (fsInit st) (mkInval (nodeId i) 0 0))
             (emit (EvInodeNotify (mkInval (nodeId i) 0 0)) st)
    | r0 :: _ =>
        findInode st path = None ∧
        r0 ≠ EmptyString ∧ child st node r0 = None ∧
        Notify path st =
          Ok (RawFsInit.EntryNotify (fsInit st) (nodeId i) r0)
             (emit (EvEntryNotify (nodeId i) r0) st)
    end.
Proof.
  intros Hroot Hcl.
  destruct (findLastKnownInode_deepest st path)
    as (n & rest & pre & Hf & Hsplit & Hreach & Hrest & Hfi).
  assert (is_Some (inodes st !! n)) as [i Hi].
  { unfold findLastKnownInode in Hf. case_bool_decide.
    - by injection Hf as <- <-.
    - by eapply walk_alloc. }
  exists n, rest, pre, i.
  split; [done|]. split; [done|]. split; [done|]. split; [done|].
  unfold Notify. rewrite bind_get, Hf, (bind_load _ _ _ _ Hi).
  destruct rest as [|r0 rest'].
  - split; done.
  - destruct Hrest as [|(c & rest'' & [= <- <-] & Hc & Hch)]; [done|].
    repeat split; done.
Qed.

Lemma Notify_outcome_witness :
  ∃ node rest pre i,
    (if bool_decide ("/a/b/zz/top"%string = EmptyString)
     then pre = [] ∧ rest = []
     else path_comps "/a/b/zz/top" = pre ++ rest) ∧
    reach ex_state (rootNode ex_state) (filter (.≠ EmptyString) pre)
      = Some node ∧
    findLastKnownInode ex_state "/a/b/zz/top" = (node, rest) ∧
    inodes ex_state !! node = Some i ∧
    match rest with
    | [] =>
        findInode ex_state "/a/b/zz/top" = Some node ∧
        Notify "/a/b/zz/top" ex_state =
          Ok (RawFsInit.InodeNotify (fsInit ex_state) (mkInval (nodeId i) 0 0))
             (emit (EvInodeNotify (mkInval (nodeId i) 0 0)) ex_state)
    | r0 :: _ =>
        findInode ex_state "/a/b/zz/top" = None ∧
        r0 ≠ EmptyString ∧ child ex_state node r0 = None ∧
        Notify "/a/b/zz/top" ex_state =
          Ok (RawFsInit.EntryNotify (fsInit ex_state) (nodeId i) r0)
             (emit (EvEntryNotify (nodeId i) r0) ex_state)
    end.
Proof.
  apply (Notify_outcome ex_state "/a/b/zz/top").
  - eexists. reflexivity.
  - apply (well_ranked_closed ex_rank), well_ranked_b_sound.
    vm_compute. reflexivity.
Defined.

(** No prefix of [/nowhere/deep/leaf] but the root can be located: the
    directory [/nowhere/deep] does not resolve, and [EntryNotify] on it
    answers [ENOENT] and notifies no one.  [Notify] on the path answers
    what the kernel answers, here [OK], to the invalidation of the entry
    [nowhere] under the root. *)
Lemma Notify_without_not_found :
  findInode ex_state "/nowhere/deep" = None ∧
  findInode ex_state "/nowhere" = None ∧
  EntryNotify "/nowhere/deep" "leaf" ex_state = Ok ENOENT ex_state ∧
  ∃ s, Notify "/nowhere/deep/leaf" ex_state
       = Ok s (emit (EvEntryNotify FUSE_ROOT_ID "nowhere") ex_state) ∧
       s = OK ∧ s ≠ ENOENT.
Proof.
  split; [vm_compute; reflexivity|]. split; [vm_compute; reflexivity|].
  split; [vm_compute; reflexivity|].
  exists OK. split; [vm_compute; reflexivity|]. split; [reflexivity|].
  discriminate.
Qed.

Example ex_Notify_entry :
  Notify "/a/b/zz/top" ex_state
  = Ok OK (emit (EvEntryNotify 3%N "zz") ex_state).
Proof. vm_compute. reflexivity. Qed.

Example ex_Notify_inode :
  Notify "/a/b/c" ex_state
  = Ok OK (emit (EvInodeNotify (mkInval 4%N 0 0)) ex_state).
Proof. vm_compute. reflexivity. Qed.

(** * Further properties *)

Local Open Scope Z_scope.

(** ** Lookups *)

Lemma set_lookupCount_children z i : children (set_lookupCount z i) = children i.
Proof. done. Qed.

Lemma child_store_lookupCount st n i z a k :
  inodes st !! n = Some i →
  child (set_inodes (<[n := set_lookupCount z i]> (inodes st)) st) a k
  = child st a k.
Proof.
  intros Hn. unfold child; simpl. destruct (decide (a = n)) as [->|Hne].
  - by rewrite lookup_insert_eq, Hn.
  - by rewrite lookup_insert_ne.
Qed.

Lemma bind_assoc {A B C} (c : M A) (k1 : A → M B) (k2 : B → M C) st :
  bind (bind c k1) k2 st = bind c (λ x, bind (k1 x) k2) st.
Proof. unfold bind. by destruct (c st). Qed.

Lemma bind_newInode {A} isDir (k : addr → M A) st :
  bind (newInode isDir) k st
  = let data := fresh (dom (inodes st)) in
    let h := (HandleMap.Register (inodeMap st) data).1 in
    k data
      (set_inodeMap (<[h := data]> (inodeMap st))
         (set_inodes
            (<[data := mkInode h (if isDir then Some ∅ else None) None 0
                               None None []]> (inodes st)) st)).
Proof. done. Qed.

(** A lookup of a name that the parent holds. *)
Lemma lookupUpdate_existing_eq st parent name isDir count p data d :
  inodes st !! parent = Some p →
  map_get (children p) name = Some data →
  inodes st !! data = Some d →
  lookupUpdate parent name isDir count st
  = Ok data
      (set_inodes
         (<[data := set_lookupCount (int_add (lookupCount d) count) d]>
            (inodes st)) st).
Proof.
  intros Hp Hc Hd. unfold lookupUpdate.
  rewrite (bind_load _ _ _ _ Hp), Hc, bind_ret, (bind_load _ _ _ _ Hd).
  by rewrite bind_store.
Qed.

(** A lookup of a name that a directory of some mount does not hold. *)
Lemma lookupUpdate_new_eq st parent name isDir count p cm mo :
  inodes st !! parent = Some p →
  children p = Some cm → cm !! name = None → mount p = Some mo →
  let data := fresh (dom (inodes st)) in
  let h := (HandleMap.Register (inodeMap st) data).1 in
  lookupUpdate parent name isDir count st
  = Ok data
      (set_inodes
         (<[data := mkInode h (if isDir then Some ∅ else None) None
                            (int_add 0 count) None (Some mo) []]>
            (<[parent := set_children (Some (<[name := data]> cm)) p]>
               (inodes st)))
         (set_inodeMap (<[h := data]> (inodeMap st)) st)).
Proof.
  intros Hp Hcm Hname Hmo data h. unfold lookupUpdate.
  rewrite (bind_load _ _ _ _ Hp). unfold map_get. rewrite Hcm. simpl.
  rewrite Hname.
  assert (inodes st !! data = None) as Hfresh
    by apply not_elem_of_dom, is_fresh.
  assert (parent ≠ data) as Hpd by congruence.
  rewrite bind_assoc, bind_newInode. cbv zeta. fold data. fold h.
  set (st1 := set_inodeMap _ _).
  assert (inodes st1 !! parent = Some p) as Hp1
    by (subst st1; simpl; by rewrite lookup_insert_ne).
  rewrite bind_assoc. unfold bind at 1. erewrite addChild_eq by done.
  set (st2 := set_inodes _ st1).
  assert (inodes st2 !! parent
          = Some (set_children (Some (<[name := data]> cm)) p)) as Hp2
    by (subst st2; simpl; by rewrite lookup_insert_eq).
  rewrite bind_assoc, (bind_load _ _ _ _ Hp2).
  assert (inodes st2 !! data
          = Some (mkInode h (if isDir then Some ∅ else None) None 0 None None []))
    as Hd2.
  { subst st2 st1; simpl. rewrite lookup_insert_ne by done.
    by rewrite lookup_insert_eq. }
  rewrite bind_assoc, (bind_load _ _ _ _ Hd2). simpl. rewrite Hmo.
  rewrite bind_assoc, bind_store, bind_ret.
  set (st3 := set_inodes _ st2).
  assert (inodes st3 !! data
          = Some (mkInode h (if isDir then Some ∅ else None) None 0 None
                          (Some mo) [])) as Hd3
    by (subst st3; simpl; by rewrite lookup_insert_eq).
  rewrite (bind_load _ _ _ _ Hd3), bind_store. unfold verify.
  rewrite bind_ret. unfold ret. f_equal.
  subst st3 st2 st1. unfold set_inodes, set_inodeMap; simpl. f_equal.
  apply map_eq. intros a.
  destruct (decide (a = data)) as [->|Ha].
  - by rewrite !lookup_insert_eq.
  - rewrite !(lookup_insert_ne _ data) by done.
    destruct (decide (a = parent)) as [->|Ha'].
    + by rewrite !lookup_insert_eq.
    + rewrite !(lookup_insert_ne _ parent) by done.
      by rewrite lookup_insert_ne.
Qed.

(** Whatever a lookup that returns did, it did one of the two. *)
Lemma lookupUpdate_Ok_inv st parent name isDir count data st1 :
  lookupUpdate parent name isDir count st = Ok data st1 →
  ∃ p, inodes st !! parent = Some p ∧
    ((∃ d, map_get (children p) name = Some data ∧
           inodes st !! data = Some d ∧
           st1 = set_inodes
                   (<[data := set_lookupCount (int_add (lookupCount d) count) d]>
                      (inodes st)) st) ∨
     (∃ cm mo, children p = Some cm ∧ cm !! name = None ∧
               mount p = Some mo ∧ data = fresh (dom (inodes st)) ∧
               inodes st !! data = None ∧
               let h := (HandleMap.Register (inodeMap st) data).1 in
               inodeMap st !! h = None ∧ h ≠ FUSE_ROOT_ID ∧
               st1 = set_inodes
                       (<[data := mkInode h (if isDir then Some ∅ else None)
                                    None (int_add 0 count) None (Some mo) []]>
                          (<[parent := set_children
                                         (Some (<[name := data]> cm)) p]>
                             (inodes st)))
                       (set_inodeMap (<[h := data]> (inodeMap st)) st))).
Proof.
  intros Hrun.
  destruct (inodes st !! parent) as [p|] eqn:Hp.
  2:{ unfold lookupUpdate, bind, load in Hrun. by rewrite Hp in Hrun. }
  exists p. split; [done|].
  destruct (map_get (children p) name) as [data0|] eqn:Hc.
  - destruct (inodes st !! data0) as [d|] eqn:Hd.
    + rewrite (lookupUpdate_existing_eq _ _ _ _ _ _ _ _ Hp Hc Hd) in Hrun.
      injection Hrun as <- <-. left. eauto.
    + unfold lookupUpdate in Hrun.
      rewrite (bind_load _ _ _ _ Hp), Hc, bind_ret in Hrun.
      unfold bind, load in Hrun. by rewrite Hd in Hrun.
  - right.
    assert (inodes st !! fresh (dom (inodes st)) = None) as Hfresh
      by apply not_elem_of_dom, is_fresh.
    assert (parent ≠ fresh (dom (inodes st))) as Hpd by congruence.
    destruct (children p) as [cm|] eqn:Hcm.
    2:{ unfold lookupUpdate in Hrun.
        rewrite (bind_load _ _ _ _ Hp) in Hrun. unfold map_get in Hrun.
        rewrite Hcm in Hrun. simpl in Hrun.
        rewrite bind_assoc, bind_newInode in Hrun.
        cbv zeta in Hrun. rewrite bind_assoc in Hrun.
        unfold bind at 1 in Hrun. unfold addChild in Hrun.
        erewrite bind_load in Hrun
          by (simpl; rewrite lookup_insert_ne by done; exact Hp).
        by rewrite Hcm in Hrun. }
    simpl in Hc.
    destruct (mount p) as [mo|] eqn:Hmo.
    + pose proof (lookupUpdate_new_eq st parent name isDir count p cm mo
                    Hp Hcm Hc Hmo) as Heq.
      cbv zeta in Heq. rewrite Heq in Hrun. injection Hrun as <- <-.
      exists cm, mo. repeat split; try done.
      * destruct (Register_fresh (inodeMap st) (fresh (dom (inodes st))) _ _
                    eq_refl) as [H _]. done.
      * unfold HandleMap.Register. simpl. intros Heq'.
        apply (is_fresh (dom (inodeMap st) ∪ {[0%N; FUSE_ROOT_ID]})).
        rewrite Heq'. set_solver.
    + unfold lookupUpdate in Hrun.
      rewrite (bind_load _ _ _ _ Hp) in Hrun. unfold map_get in Hrun.
      rewrite Hcm in Hrun. simpl in Hrun. rewrite Hc in Hrun.
      rewrite bind_assoc, bind_newInode in Hrun. cbv zeta in Hrun.
      rewrite bind_assoc in Hrun. unfold bind at 1 in Hrun.
      erewrite addChild_eq in Hrun
        by (simpl; first [rewrite lookup_insert_ne by done; exact Hp
                         |exact Hcm]).
      rewrite bind_assoc in Hrun.
      erewrite bind_load in Hrun by (simpl; by rewrite lookup_insert_eq).
      rewrite bind_assoc in Hrun.
      erewrite bind_load in Hrun
        by (simpl; rewrite lookup_insert_ne by done; by rewrite lookup_insert_eq).
      simpl in Hrun. by rewrite Hmo in Hrun.
Qed.

(** A lookup that returns keeps every child entry there was and leaves
    the name it looked up as an entry to the inode it returns. *)
Lemma lookupUpdate_Ok_edges st parent name isDir count data st1 :
  lookupUpdate parent name isDir count st = Ok data st1 →
  rootNode st1 = rootNode st ∧
  child st1 parent name = Some data ∧
  is_Some (inodes st1 !! data) ∧
  (∀ a k c, child st a k = Some c → child st1 a k = Some c).
Proof.
  intros Hrun.
  destruct (lookupUpdate_Ok_inv _ _ _ _ _ _ _ Hrun)
    as (p & Hp & [(d & Hc & Hd & ->)|(cm & mo & Hcm & Hn & Hmo & -> & Hf & Hrest)]).
  - split; [done|]. split; [|split].
    + rewrite (child_store_lookupCount _ _ _ _ _ _ Hd).
      by rewrite (child_lookup _ _ _ _ Hp).
    + simpl. rewrite lookup_insert_eq. eauto.
    + intros a k c. by rewrite (child_store_lookupCount _ _ _ _ _ _ Hd).
  - cbv zeta in Hrest. destruct Hrest as (_ & _ & ->).
    assert (parent ≠ fresh (dom (inodes st))) as Hpd by congruence.
    split; [done|]. split; [|split].
    + unfold child; simpl. rewrite lookup_insert_ne by done.
      rewrite lookup_insert_eq. simpl. by rewrite lookup_insert_eq.
    + simpl. rewrite lookup_insert_eq. eauto.
    + intros a k c Hc. unfold child in *; simpl.
      destruct (decide (a = fresh (dom (inodes st)))) as [->|Ha].
      { by rewrite Hf in Hc. }
      rewrite lookup_insert_ne by done.
      destruct (decide (a = parent)) as [->|Ha'].
      * rewrite lookup_insert_eq. rewrite Hp in Hc. simpl in *.
        rewrite Hcm in Hc. simpl in Hc.
        rewrite lookup_insert_ne; [done|]. intros <-. congruence.
      * by rewrite lookup_insert_ne.
Qed.

(** X1: a lookup of a name that the parent holds returns the inode
    found there and adds the increment to its count, as Go adds; it
    creates nothing and ignores the directory hint: every other inode,
    every child entry, the handle map and the events stay as they were. *)
Theorem lookupUpdate_known_child st parent name isDir count p data d :
  inodes st !! parent = Some p →
  map_get (children p) name = Some data →
  inodes st !! data = Some d →
  ∃ st',
    lookupUpdate parent name isDir count st = Ok data st' ∧
    inodes st' !! data
      = Some (set_lookupCount (int_add (lookupCount d) count) d) ∧
    (∀ a, a ≠ data → inodes st' !! a = inodes st !! a) ∧
    (∀ a k, child st' a k = child st a k) ∧
    inodeMap st' = inodeMap st ∧ fsmounts st' = fsmounts st ∧
    events st' = events st.
Proof.
  intros Hp Hc Hd. eexists. split; [by eapply lookupUpdate_existing_eq|].
  simpl. rewrite lookup_insert_eq. repeat split; try done.
  - intros a Ha. by rewrite lookup_insert_ne.
  - intros a k. by apply child_store_lookupCount.
Qed.

Lemma lookupUpdate_known_child_witness :
  ∃ st',
    lookupUpdate 2%positive "x" true 3 ex_state = Ok 6%positive st' ∧
    inodes st' !! 6%positive
      = Some (set_lookupCount (int_add (lookupCount ex_x) 3) ex_x) ∧
    (∀ a, a ≠ 6%positive → inodes st' !! a = inodes ex_state !! a) ∧
    (∀ a k, child st' a k = child ex_state a k) ∧
    inodeMap st' = inodeMap ex_state ∧ fsmounts st' = fsmounts ex_state ∧
    events st' = events ex_state.
Proof.
  apply (lookupUpdate_known_child ex_state 2%positive "x" true 3 ex_a
           6%positive ex_x); reflexivity.
Defined.



(** X3: once a lookup has returned an inode for a name, a further lookup
    of the name under the same parent returns the same inode, whatever the
    hint, and only adds to its count: no inode and no handle is made. *)
Theorem lookupUpdate_again st parent name isDir count data st1 isDir' count' :
  lookupUpdate parent name isDir count st = Ok data st1 →
  ∃ st2 d1,
    inodes st1 !! data = Some d1 ∧
    lookupUpdate parent name isDir' count' st1 = Ok data st2 ∧
    inodes st2 !! data
      = Some (set_lookupCount (int_add (lookupCount d1) count') d1) ∧
    (∀ a, a ≠ data → inodes st2 !! a = inodes st1 !! a) ∧
    (∀ a k, child st2 a k = child st1 a k) ∧
    inodeMap st2 = inodeMap st1.
Proof.
  intros Hrun.
  destruct (lookupUpdate_Ok_edges _ _ _ _ _ _ _ Hrun)
    as (_ & Hc & [d1 Hd1] & _).
  assert (∃ p1, inodes st1 !! parent = Some p1 ∧
                map_get (children p1) name = Some data) as (p1 & Hp1 & Hc1).
  { unfold child in Hc. destruct (inodes st1 !! parent) as [p1|]; [|done].
    eauto. }
  exists (set_inodes
            (<[data := set_lookupCount (int_add (lookupCount d1) count') d1]>
               (inodes st1)) st1), d1.
  split; [done|]. split; [by eapply lookupUpdate_existing_eq|].
  simpl. rewrite lookup_insert_eq. repeat split; try done.
  - intros a Ha. by rewrite lookup_insert_ne.
  - intros a k. by apply child_store_lookupCount.
Qed.

Lemma lookupUpdate_again_witness :
  ∃ st1 st2 d1,
    lookupUpdate 3%positive "new" false 1 ex_state = Ok 7%positive st1 ∧
    inodes st1 !! 7%positive = Some d1 ∧
    lookupUpdate 3%positive "new" true 2 st1 = Ok 7%positive st2 ∧
    inodes st2 !! 7%positive
      = Some (set_lookupCount (int_add (lookupCount d1) 2) d1) ∧
    (∀ a, a ≠ 7%positive → inodes st2 !! a = inodes st1 !! a) ∧
    (∀ a k, child st2 a k = child st1 a k) ∧
    inodeMap st2 = inodeMap st1.
Proof.
  eexists. 
  assert (lookupUpdate 3%positive "new" false 1 ex_state
          = Ok 7%positive
              (match lookupUpdate 3%positive "new" false 1 ex_state with
               | Ok _ s => s | _ => ex_state end)) as Hrun
    by (vm_compute; reflexivity).
  destruct (lookupUpdate_again ex_state 3%positive "new" false 1 7%positive
              _ true 2 Hrun) as (st2 & d1 & H).
  exists st2, d1. split; [exact Hrun|exact H].
Defined.

(** A path that resolves keeps resolving, to the same inode, when child
    entries are only added. *)
Lemma walk_mono st st' :
  (∀ a k c, child st a k = Some c → child st' a k = Some c) →
  ∀ comps node n,
    walk st node comps = (n, []) → walk st' node comps = (n, []).
Proof.
  intros Hadd. induction comps as [|c comps IH]; intros node n; simpl; [done|].
  case_bool_decide; [by apply IH|].
  destruct (child st node c) as [next|] eqn:Hc; [|done].
  rewrite (Hadd _ _ _ Hc). by apply IH.
Qed.

Lemma findInode_Some st p n :
  findInode st p = Some n ↔ findLastKnownInode st p = (n, []).
Proof.
  unfold findInode. destruct (findLastKnownInode st p) as [n' rest].
  destruct rest; simpl; split; congruence.
Qed.

Lemma findInode_mono st st' p n :
  rootNode st' = rootNode st →
  (∀ a k c, child st a k = Some c → child st' a k = Some c) →
  findInode st p = Some n → findInode st' p = Some n.
Proof.
  intros Hroot Hadd. rewrite !findInode_Some. unfold findLastKnownInode.
  rewrite Hroot. case_bool_decide; [done|]. by apply walk_mono.
Qed.

(** X4: a lookup breaks no path: whatever [findInode] resolved before a
    lookup that returns, it resolves to the same inode afterwards. *)
Theorem lookupUpdate_keeps_paths st parent name isDir count data st1 path n :
  lookupUpdate parent name isDir count st = Ok data st1 →
  findInode st path = Some n →
  findInode st1 path = Some n.
Proof.
  intros Hrun. destruct (lookupUpdate_Ok_edges _ _ _ _ _ _ _ Hrun)
    as (Hroot & _ & _ & Hadd).
  by apply findInode_mono.
Qed.

Lemma lookupUpdate_keeps_paths_witness :
  ∃ st1,
    lookupUpdate 3%positive "new" false 1 ex_state = Ok 7%positive st1 ∧
    findInode st1 "/a/b/c" = Some 4%positive.
Proof.
  eexists. 
  assert (lookupUpdate 3%positive "new" false 1 ex_state
          = Ok 7%positive
              (match lookupUpdate 3%positive "new" false 1 ex_state with
               | Ok _ s => s | _ => ex_state end)) as Hrun
    by (vm_compute; reflexivity).
  split; [exact Hrun|].
  apply (lookupUpdate_keeps_paths ex_state 3%positive "new" false 1
           7%positive _ "/a/b/c" 4%positive Hrun).
  vm_compute. reflexivity.
Defined.

(** X5: [lookupMount] answers nil and changes nothing when the parent has
    no mount under the name; when it has one, it answers that mount and
    adds the increment to the count of the mount's root inode, and changes
    nothing else: no child entry, no handle, no mount, no event. *)
Theorem lookupMount_outcome st parent name count p :
  inodes st !! parent = Some p →
  (map_get (mounts p) name = None →
     lookupMount parent name count st = Ok None st) ∧
  (∀ m mo mi i,
     map_get (mounts p) name = Some m → fsmounts st !! m = Some mo →
     mountInode mo = Some mi → inodes st !! mi = Some i →
     ∃ st',
       lookupMount parent name count st = Ok (Some m) st' ∧
       inodes st' !! mi
         = Some (set_lookupCount (int_add (lookupCount i) count) i) ∧
       (∀ a, a ≠ mi → inodes st' !! a = inodes st !! a) ∧
       (∀ a k, child st' a k = child st a k) ∧
       inodeMap st' = inodeMap st ∧ fsmounts st' = fsmounts st ∧
       events st' = events st).
Proof.
  intros Hp. unfold lookupMount. rewrite (bind_load _ _ _ _ Hp). split.
  - by intros ->.
  - intros m mo mi i -> Hm Hmi Hi.
    rewrite (bind_load_mount _ _ _ _ Hm), Hmi, (bind_load _ _ _ _ Hi).
    rewrite bind_store. eexists. split; [reflexivity|]. simpl.
    rewrite lookup_insert_eq. repeat split; try done.
    + intros a Ha. by rewrite lookup_insert_ne.
    + intros a k. by apply child_store_lookupCount.
Qed.

Lemma lookupMount_outcome_witness :
  lookupMount 1%positive "a" 1 ex_state = Ok None ex_state ∧
  ∃ st',
    lookupMount 1%positive "data" 1 ex_state = Ok (Some 2%positive) st' ∧
    inodes st' !! 5%positive
      = Some (set_lookupCount (int_add (lookupCount ex_data) 1) ex_data) ∧
    (∀ a, a ≠ 5%positive → inodes st' !! a = inodes ex_state !! a) ∧
    (∀ a k, child st' a k = child ex_state a k) ∧
    inodeMap st' = inodeMap ex_state ∧ fsmounts st' = fsmounts ex_state ∧
    events st' = events ex_state.
Proof.
  split.
  - destruct (lookupMount_outcome ex_state 1%positive "a" 1 ex_root eq_refl)
      as [H _]. by apply H.
  - destruct (lookupMount_outcome ex_state 1%positive "data" 1 ex_root eq_refl)
      as [_ H].
    by apply (H 2%positive (mkMount 2%positive (Some 5%positive) None ∅)
                5%positive ex_data).
Defined.

(** ** Garbage collection: what it takes and what it leaves *)

Lemma map_len_zero {V} (m : option (gmap string V)) :
  map_len m = 0%nat ↔ ∀ k, map_get m k = None.
Proof.
  destruct m as [m|]; simpl; [|done]. rewrite map_size_empty_iff.
  split; [by intros ->|]. intros H. by apply map_empty.
Qed.

Lemma collectible_gc_step st st' c ci ci' :
  gc_step st st' → inodes st !! c = Some ci → inodes st' !! c = Some ci' →
  collectible st c ci → collectible st' c ci'.
Proof.
  intros H Hci Hci' (Hlen & Hcount & Hroot & Hmp & Hof).
  destruct (gc_step_fields _ _ _ _ _ H Hci Hci')
    as (Hmp' & _ & Hcount' & Hof' & _).
  split; [|by rewrite Hcount', Hmp', Hof', (gc_rootNode _ _ H)].
  apply map_len_zero. intros k.
  destruct (map_get (children ci') k) as [x|] eqn:Hk; [|done].
  assert (child st' c k = Some x) as Hc' by (by rewrite (child_lookup _ _ _ _ Hci')).
  apply (gc_shrink _ _ H) in Hc'. rewrite (child_lookup _ _ _ _ Hci) in Hc'.
  rewrite map_len_zero in Hlen. by rewrite Hlen in Hc'.
Qed.

Lemma gc_safe_refl st : gc_safe st st.
Proof. split; [apply gc_step_refl|congruence..]. Qed.

Lemma gc_safe_trans st1 st2 st3 :
  gc_safe st1 st2 → gc_safe st2 st3 → gc_safe st1 st3.
Proof.
  intros H12 H23. split.
  - eapply gc_step_trans; by apply safe_step.
  - intros a k c Hc Hc3.
    destruct (child st2 a k) as [c2|] eqn:Hc2.
    + assert (c2 = c) as ->
        by (apply (gc_shrink _ _ (safe_step _ _ H12)) in Hc2; congruence).
      by apply (safe_edge _ _ H23 a k).
    + destruct (safe_edge _ _ H12 _ _ _ Hc Hc2) as (ci & Hci & Hcol).
      destruct (gc_inode _ _ (safe_step _ _ H23) _ _ Hci) as (ci3 & Hci3 & _).
      exists ci3. split; [done|].
      by eapply (collectible_gc_step st2 st3); [apply safe_step|..].
  - intros h x Hx Hx3.
    destruct (inodeMap st2 !! h) as [x2|] eqn:Hx2.
    + destruct (safe_handle _ _ H23 h x2 Hx2 Hx3)
        as (a & k & c & ci & Hc2 & Hc3 & Hrest).
      exists a, k, c, ci. split; [|done].
      by apply (gc_shrink _ _ (safe_step _ _ H12)).
    + destruct (safe_handle _ _ H12 _ _ Hx Hx2)
        as (a & k & c & ci & Hc1 & Hc2 & Hci & Hid & Hcol).
      destruct (gc_inode _ _ (safe_step _ _ H23) _ _ Hci) as (ci3 & Hci3 & Heq & _).
      exists a, k, c, ci3. split; [done|]. split.
      { destruct (child st3 a k) as [y|] eqn:Hy; [|done].
        apply (gc_shrink _ _ (safe_step _ _ H23)) in Hy. congruence. }
      split; [done|]. split; [by rewrite Heq|].
      by eapply (collectible_gc_step st2 st3); [apply safe_step|..].
Qed.

Lemma gc_safe_drop st n i k c ci :
  inodes st !! n = Some i → child st n k = Some c →
  inodes st !! c = Some ci → collectible st c ci →
  gc_safe st
    (set_inodeMap (HandleMap.Forget (inodeMap st) (nodeId ci))
       (set_inodes (<[n := set_children (delete k <$> children i) i]>
                      (inodes st)) st)).
Proof.
  intros Hn Hc Hci Hcol.
  assert (c ≠ n) as Hcn.
  { intros ->. destruct Hcol as (Hlen & _). rewrite map_len_zero in Hlen.
    rewrite (child_lookup _ _ _ _ Hn) in Hc.
    assert (ci = i) as -> by congruence. by rewrite Hlen in Hc. }
  assert (gc_step st
    (set_inodeMap (HandleMap.Forget (inodeMap st) (nodeId ci))
       (set_inodes (<[n := set_children (delete k <$> children i) i]>
                      (inodes st)) st))) as Hstep.
  { eapply gc_step_drop; try done. by destruct Hcol as (_ & _ & _ & ? & _). }
  split; [done|..].
  - intros a k' c' Hc' Hgone.
    destruct (decide (a = n)) as [->|Han].
    + assert (k' = k) as ->.
      { destruct (decide (k' = k)) as [|Hk]; [done|]. exfalso.
        unfold child in Hgone; simpl in Hgone.
        rewrite lookup_insert_eq in Hgone. simpl in Hgone.
        rewrite (child_lookup _ _ _ _ Hn) in Hc'. unfold map_get in *.
        destruct (children i) as [m|]; simpl in *; [|done].
        rewrite lookup_delete_ne in Hgone by done. congruence. }
      assert (c' = c) as -> by congruence.
      exists ci. split; [simpl; by rewrite lookup_insert_ne|].
      eapply (collectible_gc_step st); [exact Hstep|done| |done].
      simpl. by rewrite lookup_insert_ne.
    + unfold child in Hgone; simpl in Hgone.
      rewrite lookup_insert_ne in Hgone by done.
      unfold child in Hc'. congruence.
  - intros h x Hx Hgone. simpl in Hgone. unfold HandleMap.Forget in Hgone.
    assert (h = nodeId ci) as ->.
    { destruct (decide (h = nodeId ci)) as [|Hh]; [done|].
      rewrite lookup_delete_ne in Hgone by done. congruence. }
    exists n, k, c, ci. split; [done|]. split.
    { unfold child; simpl. rewrite lookup_insert_eq. simpl. unfold map_get.
      destruct (children i); simpl; [|done]. by rewrite lookup_delete_eq. }
    split; [simpl; by rewrite lookup_insert_ne|]. split; [done|].
    eapply (collectible_gc_step st); [exact Hstep|done| |done].
    simpl. by rewrite lookup_insert_ne.
Qed.

Section GC_safety.
Variable range : gmap string addr → list (string * addr).
Hypothesis range_perm : ∀ m, range m ≡ₚ map_to_list m.

Lemma collectChildren_gc_safe rec kvs :
  (∀ v st, res_rel (gc_safe st) (rec v st)) →
  (∀ v st st', rec v st = Ok true st' →
     ∃ ci, inodes st' !! v = Some ci ∧ collectible st' v ci) →
  ∀ acc st,
    match collectChildren rec kvs acc st with
    | Ok del st' =>
        gc_safe st st' ∧
        ∀ k, k ∈ del → k ∈ acc ∨
          ∃ v ci, (k, v) ∈ kvs ∧ inodes st' !! v = Some ci ∧
                  collectible st' v ci
    | Panic _ st' => gc_safe st st'
    | OutOfFuel => True
    end.
Proof.
  intros Hrec Hverdict.
  induction kvs as [|[k v] rest IH]; intros acc st; simpl.
  - split; [apply gc_safe_refl|]. auto.
  - unfold bind at 1, load.
    destruct (inodes st !! v) as [ci|] eqn:Hci; [|apply gc_safe_refl].
    destruct (mountPoint ci) as [mp|] eqn:Hmp.
    + specialize (IH acc st).
      destruct (collectChildren rec rest acc st) as [del st'|msg st'|];
        [|done..].
      destruct IH as [Hst Hdel]. split; [done|].
      intros k' Hk'. destruct (Hdel k' Hk') as [?|(v' & ci' & ? & ? & ?)];
        [by left|right].
      exists v', ci'. split; [apply elem_of_cons; by right|done].
    + unfold bind at 1. pose proof (Hrec v st) as Hr.
      pose proof (Hverdict v st) as Hv.
      destruct (rec v st) as [drop st1|msg st1|]; simpl in Hr; [|done..].
      specialize (IH (if drop then acc ++ [k] else acc) st1).
      destruct (collectChildren rec rest _ st1) as [del st'|msg st'|];
        [|by eapply gc_safe_trans|done].
      destruct IH as [Hst Hdel]. split; [by eapply gc_safe_trans|].
      intros k' Hk'. destruct (Hdel k' Hk') as [Hacc|(v' & ci' & ? & Hv' & Hm')].
      * destruct drop; [|by left].
        apply elem_of_app in Hacc as [?|Hk]; [by left|right].
        apply list_elem_of_singleton in Hk as ->.
        destruct (Hv st1 eq_refl) as (ci1 & Hci1 & Hcol1).
        destruct (gc_inode _ _ (safe_step _ _ Hst) _ _ Hci1) as (ci2 & Hci2 & _).
        exists v, ci2. split; [apply elem_of_cons; by left|]. split; [done|].
        by eapply (collectible_gc_step st1 st'); [apply safe_step|..].
      * right. exists v', ci'. split; [apply elem_of_cons; by right|done].
Qed.

Lemma dropChildren_gc_safe n del :
  ∀ st,
    (∀ k c, k ∈ del → child st n k = Some c →
       ∃ ci, inodes st !! c = Some ci ∧ collectible st c ci) →
    res_rel (gc_safe st) (dropChildren n del st).
Proof.
  induction del as [|k rest IH]; intros st Hpre; simpl.
  - apply gc_safe_refl.
  - unfold bind at 1.
    destruct (inodes st !! n) as [i|] eqn:Hn.
    2:{ unfold rmChild, bind, load. rewrite Hn. apply gc_safe_refl. }
    rewrite (rmChild_eq _ _ _ _ Hn).
    destruct (child st n k) as [c|] eqn:Hc.
    2:{ simpl. rewrite (child_lookup _ _ _ _ Hn) in Hc.
        assert (delete k <$> children i = children i) as ->.
        { unfold map_get in Hc. destruct (children i); simpl in *; [|done].
          by rewrite delete_id. }
        rewrite set_children_id, insert_id, set_inodes_id by done.
        apply gc_safe_refl. }
    destruct (Hpre k c) as (ci & Hci & Hcol); [apply elem_of_cons; by left|done|].
    set (i1 := set_children _ i). set (st1 := set_inodes _ st).
    assert (∃ ci1, inodes st1 !! c = Some ci1 ∧ nodeId ci1 = nodeId ci)
      as (ci1 & Hci1 & Hid).
    { subst st1; simpl. destruct (decide (c = n)) as [->|Hne].
      - rewrite lookup_insert_eq. eexists; split; [done|].
        subst i1. simpl. congruence.
      - rewrite lookup_insert_ne by done. eauto. }
    unfold bind at 1, load. rewrite Hci1.
    unfold bind at 1, forgetHandle. rewrite Hid.
    set (st2 := set_inodeMap _ st1).
    assert (gc_safe st st2) as H2
      by (subst st2 st1 i1; simpl; by eapply gc_safe_drop).
    eapply (res_rel_mono (gc_safe st2)); [intros; by eapply gc_safe_trans|].
    apply IH. intros k' c' Hk' Hc'.
    apply (gc_shrink _ _ (safe_step _ _ H2)) in Hc'.
    destruct (Hpre k' c') as (ci' & Hci' & Hcol'); [apply elem_of_cons; by right|done|].
    destruct (gc_inode _ _ (safe_step _ _ H2) _ _ Hci') as (ci2 & Hci2 & _).
    exists ci2. split; [done|].
    by eapply (collectible_gc_step st st2); [apply safe_step|..].
Qed.

Lemma considerDropInode_gc_safe fuel :
  ∀ n st, res_rel (gc_safe st) (considerDropInode range fuel n st).
Proof.
  induction fuel as [|fuel IH]; intros n st; simpl; [done|].
  unfold bind at 1, load.
  destruct (inodes st !! n) as [i|] eqn:Hn; [|apply gc_safe_refl].
  unfold bind at 1.
  pose proof (collectChildren_gc_safe (considerDropInode range fuel)
                (range (default ∅ (children i))) IH) as Hcol.
  specialize (Hcol (λ v s s' H,
    match considerDropInode_verdict range fuel v s true s' H with
    | ex_intro _ ci (conj Hci Hiff) =>
        ex_intro _ ci (conj Hci (proj1 Hiff eq_refl))
    end) [] st).
  destruct (collectChildren _ _ [] st) as [del st1|msg st1|]; [|done..].
  destruct Hcol as [H1 Hdel].
  unfold bind at 1.
  assert (res_rel (gc_safe st1) (dropChildren n del st1)) as Hdrop.
  { apply dropChildren_gc_safe. intros k c Hk Hc.
    destruct (Hdel k Hk) as [Hk'|(v & ci & Hkv & Hv & Hm)];
      [by apply elem_of_nil in Hk'|].
    rewrite range_perm in Hkv. apply elem_of_map_to_list in Hkv.
    apply (gc_shrink _ _ (safe_step _ _ H1)) in Hc.
    rewrite (child_lookup _ _ _ _ Hn) in Hc. unfold map_get in Hc.
    destruct (children i) as [m|]; simpl in *; [|done].
    assert (c = v) as -> by congruence. eauto. }
  destruct (dropChildren n del st1) as [[] st2|msg st2|]; simpl in Hdrop;
    [|by eapply gc_safe_trans|done].
  assert (gc_safe st st2) as H2 by (by eapply gc_safe_trans).
  unfold bind at 1, load.
  destruct (inodes st2 !! n) as [i'|]; [|done].
  unfold bind at 1, get, ret.
  repeat case_match; exact H2.
Qed.

(** X6: a forget takes only what is collectible.  Whatever child entry
    is gone after [forgetUpdate] led to an inode that now has no child, a
    count that is not positive, no open file, and is neither the root nor
    a mount point; whatever handle is gone is the identifier of such an
    inode, one that lost a child entry.  This holds of the state at a
    panic too. *)
Theorem forgetUpdate_takes_collectible fuel nid count st :
  res_rel
    (λ st',
       (∀ a k c, child st a k = Some c → child st' a k = None →
          ∃ ci, inodes st' !! c = Some ci ∧ collectible st' c ci) ∧
       (∀ h x, inodeMap st !! h = Some x → inodeMap st' !! h = None →
          ∃ a k c ci, child st a k = Some c ∧ child st' a k = None ∧
                      inodes st' !! c = Some ci ∧ nodeId ci = h ∧
                      collectible st' c ci))
    (forgetUpdate range fuel nid count st).
Proof.
  unfold forgetUpdate. unfold bind at 1.
  destruct (getInodeData nid st) as [node st0|msg st0|] eqn:Hg; [| |done].
  2:{ unfold getInodeData, bind, get, ret, panic in Hg.
      case_bool_decide; [done|]. destruct (HandleMap.Decode _ _); [done|].
      injection Hg as <- <-. simpl. split; congruence. }
  apply getInodeData_Ok in Hg as ->.
  unfold bind at 1, load.
  destruct (inodes st !! node) as [i|] eqn:Hi; [|simpl; split; congruence].
  unfold bind at 1, store.
  set (st1 := set_inodes _ st).
  assert (∀ a k, child st1 a k = child st a k) as Hch
    by (intros; by apply child_store_lookupCount).
  unfold bind at 1.
  pose proof (considerDropInode_gc_safe fuel node st1) as Hs.
  destruct (considerDropInode range fuel node st1) as [d st2|msg st2|];
    simpl in *; [| |done].
  all: split; [intros a k c Hc; rewrite <- Hch in Hc;
               by apply (safe_edge _ _ Hs)
              |intros h x Hx Hgone;
               destruct (safe_handle _ _ Hs h x Hx Hgone)
                 as (a & k & c & ci & Hc & Hrest);
               exists a, k, c, ci; by rewrite <- Hch].
Qed.
End GC_safety.

Lemma forgetUpdate_takes_collectible_witness :
  res_rel
    (λ st',
       (∀ a k c, child ex_state a k = Some c → child st' a k = None →
          ∃ ci, inodes st' !! c = Some ci ∧ collectible st' c ci) ∧
       (∀ h x, inodeMap ex_state !! h = Some x → inodeMap st' !! h = None →
          ∃ a k c ci, child ex_state a k = Some c ∧ child st' a k = None ∧
                      inodes st' !! c = Some ci ∧ nodeId ci = h ∧
                      collectible st' c ci))
    (forgetUpdate map_to_list 5 2%N 1 ex_state).
Proof.
  apply (forgetUpdate_takes_collectible map_to_list
           (λ m, Permutation_refl _) 5 2%N 1 ex_state).
Defined.

Lemma dropChildren_effect n del :
  ∀ st st',
    dropChildren n del st = Ok tt st' →
    (∀ a k c, child st' a k = Some c → child st a k = Some c) ∧
    (∀ h x, inodeMap st' !! h = Some x → inodeMap st !! h = Some x) ∧
    (∀ k, k ∈ del →
       child st' n k = None ∧
       ∀ c ci, child st n k = Some c → inodes st !! c = Some ci →
               inodeMap st' !! nodeId ci = None).
Proof.
  induction del as [|k0 rest IH]; intros st st'; simpl.
  - intros [= <-]. split; [done|]. split; [done|].
    intros k Hk. by apply elem_of_nil in Hk.
  - unfold bind at 1.
    destruct (inodes st !! n) as [i|] eqn:Hn.
    2:{ unfold rmChild, bind, load. by rewrite Hn. }
    rewrite (rmChild_eq _ _ _ _ Hn).
    destruct (child st n k0) as [c0|] eqn:Hc0; [|done].
    set (st1 := set_inodes _ st).
    unfold bind at 1, load.
    destruct (inodes st1 !! c0) as [ci1|] eqn:Hci1; [|done].
    unfold bind at 1, forgetHandle.
    set (st2 := set_inodeMap _ st1). intros Hrun.
    destruct (IH st2 st' Hrun) as (Hshr & Hsub & Hdel).
    assert (∀ a k c, child st2 a k = Some c → child st a k = Some c) as Hshr2.
    { intros a k c. unfold child; simpl.
      destruct (decide (a = n)) as [->|Han].
      - rewrite lookup_insert_eq, Hn. simpl. unfold map_get.
        destruct (children i); simpl; [|done].
        intros H. by apply lookup_delete_Some in H as [_ ?].
      - by rewrite lookup_insert_ne. }
    assert (∀ a x, inodes st !! a = Some x →
              ∃ x', inodes st2 !! a = Some x' ∧ nodeId x' = nodeId x) as Hid.
    { intros a x Ha. simpl. destruct (decide (a = n)) as [->|Han].
      - rewrite lookup_insert_eq. eexists. split; [done|]. simpl.
        rewrite Hn in Ha. by injection Ha as ->.
      - rewrite lookup_insert_ne by done. eauto. }
    assert (child st2 n k0 = None) as Hgone.
    { unfold child; simpl. rewrite lookup_insert_eq. simpl. unfold map_get.
      destruct (children i); simpl; [|done]. by rewrite lookup_delete_eq. }
    assert (∀ c ci, child st n k0 = Some c → inodes st !! c = Some ci →
              inodeMap st' !! nodeId ci = None) as Hh0.
    { intros c ci Hc Hci. assert (c = c0) as -> by congruence.
      destruct (Hid _ _ Hci) as (x' & Hx' & Hidx).
      assert (x' = ci1) as ->.
      { simpl in Hx', Hci1. rewrite Hci1 in Hx'. by injection Hx'. }
      destruct (inodeMap st' !! nodeId ci) as [y|] eqn:Hy; [|done].
      apply Hsub in Hy. simpl in Hy. unfold HandleMap.Forget in Hy.
      rewrite Hidx, lookup_delete_eq in Hy. done. }
    split; [eauto|]. split.
    { intros h x Hx. apply Hsub in Hx. simpl in Hx.
      unfold HandleMap.Forget in Hx. by apply lookup_delete_Some in Hx as [_ ?]. }
    intros k Hk. destruct (decide (k = k0)) as [->|Hne].
    + split; [|done].
      destruct (child st' n k0) as [y|] eqn:Hy; [|done].
      apply Hshr in Hy. congruence.
    + apply elem_of_cons in Hk as [?|Hk]; [done|].
      destruct (Hdel k Hk) as [Hnone Hh]. split; [done|].
      intros c ci Hc Hci. destruct (Hid _ _ Hci) as (x' & Hx' & <-).
      apply (Hh c); [|done].
      unfold child; simpl. rewrite lookup_insert_eq. simpl.
      rewrite (child_lookup _ _ _ _ Hn) in Hc. unfold map_get in *.
      destruct (children i); simpl in *; [|done].
      by rewrite lookup_delete_ne.
Qed.

Section GC_liveness.
Variable range : gmap string addr → list (string * addr).
Hypothesis range_perm : ∀ m, range m ≡ₚ map_to_list m.

Lemma range_empty : range ∅ = [].
Proof.
  apply Permutation_nil_r. rewrite range_perm. by rewrite map_to_list_empty.
Qed.

(** A collectible inode is reported as such at once. *)
Lemma considerDropInode_leaf fuel c st ci :
  inodes st !! c = Some ci → collectible st c ci →
  considerDropInode range (S fuel) c st = Ok true st.
Proof.
  intros Hci (Hlen & Hcount & Hroot & Hmp & Hof). simpl.
  rewrite (bind_load _ _ _ _ Hci).
  assert (default ∅ (children ci) = ∅) as ->.
  { destruct (children ci) as [m|]; [|done]. simpl in *.
    by apply map_size_empty_iff. }
  rewrite range_empty. simpl. rewrite !bind_ret.
  change (dropChildren c []) with (@ret unit tt). rewrite bind_ret.
  rewrite (bind_load _ _ _ _ Hci), bind_get.
  rewrite Hlen, Hmp, Hof. simpl.
  rewrite (bool_decide_eq_false_2 (0 < lookupCount ci)) by lia.
  rewrite (bool_decide_eq_false_2 (c = rootNode st)) by done.
  done.
Qed.

Lemma collectChildren_collects rec kvs :
  (∀ v st, res_rel (gc_step st) (rec v st)) →
  (∀ v st ci, inodes st !! v = Some ci → collectible st v ci →
     rec v st = Ok true st) →
  ∀ acc st del st1,
    collectChildren rec kvs acc st = Ok del st1 →
    (∀ x, x ∈ acc → x ∈ del) ∧
    (∀ k v ci, (k, v) ∈ kvs → inodes st !! v = Some ci →
       collectible st v ci → k ∈ del).
Proof.
  intros Hgc Hleaf.
  induction kvs as [|[k0 v0] rest IH]; intros acc st del st1; simpl.
  - intros [= <- <-]. split; [done|]. intros k v ci Hin. by apply elem_of_nil in Hin.
  - unfold bind at 1, load.
    destruct (inodes st !! v0) as [ci0|] eqn:Hci0; [|done].
    destruct (mountPoint ci0) as [mp|] eqn:Hmp.
    + intros Hrun. destruct (IH _ _ _ _ Hrun) as [Hacc Hcol].
      split; [done|]. intros k v ci Hin Hci Hcoll.
      apply elem_of_cons in Hin as [[= -> ->]|Hin]; [|by eapply Hcol].
      destruct Hcoll as (_ & _ & _ & Hm & _). congruence.
    + unfold bind at 1. pose proof (Hgc v0 st) as Hg.
      destruct (rec v0 st) as [drop st0|msg st0|] eqn:Hrec; [|done..].
      simpl in Hg. intros Hrun.
      destruct (IH _ _ _ _ Hrun) as [Hacc Hcol].
      split.
      { intros x Hx. apply Hacc. destruct drop; [|done].
        apply elem_of_app. by left. }
      intros k v ci Hin Hci Hcoll.
      apply elem_of_cons in Hin as [[= -> ->]|Hin].
      * rewrite (Hleaf _ _ _ Hci Hcoll) in Hrec. injection Hrec as <- <-.
        apply Hacc. apply elem_of_app. right. by apply list_elem_of_singleton.
      * destruct (gc_inode _ _ Hg _ _ Hci) as (ci' & Hci' & _).
        eapply Hcol; [done|done|].
        by eapply (collectible_gc_step st st0).
Qed.

Section Ranked.
Variable rank : addr → nat.

(** Shared by the two theorems below: what a forget on a tree leaves. *)
Lemma forgetUpdate_run fuel nid dec st node i :
  getInodeData nid st = Ok node st →
  inodes st !! node = Some i →
  well_ranked rank st → (rank node < fuel)%nat →
  let st1 := set_inodes
               (<[node := set_lookupCount (int_sub (lookupCount i) dec) i]>
                  (inodes st)) st in
  ∃ drop st',
    considerDropInode range fuel node st1 = Ok drop st' ∧
    forgetUpdate range fuel nid dec st = Ok tt st' ∧
    well_ranked rank st1 ∧ gc_safe st1 st' ∧
    frame rank (S (rank node)) st1 st'.
Proof.
  intros Hg Hi Hwr Hfuel st1.
  assert (inodes st1 !! node = Some (set_lookupCount (int_sub (lookupCount i) dec) i))
    as Hi1 by (subst st1; simpl; by rewrite lookup_insert_eq).
  assert (well_ranked rank st1) as Hwr1 by (by eapply well_ranked_store).
  destruct (considerDropInode_total range range_perm rank fuel node st1)
    as (drop & st' & Hcdi); [done|eauto|done|].
  exists drop, st'. split; [done|]. split.
  { unfold forgetUpdate. unfold bind at 1. rewrite Hg.
    rewrite (bind_load _ _ _ _ Hi), bind_store. fold st1.
    unfold bind at 1. by rewrite Hcdi. }
  split; [done|]. split.
  - pose proof (considerDropInode_gc_safe range range_perm fuel node st1) as H.
    by rewrite Hcdi in H.
  - pose proof (considerDropInode_frame range range_perm rank fuel node st1 Hwr1)
      as H. by rewrite Hcdi in H.
Qed.

(** X7: a forget on a tree never collects the node it is called on,
    whatever its count has become: the verdict of [considerDropInode] on
    that node is dropped.  Every entry that leads to the node stays, its
    handle stays when no other inode carries its identifier, and no inode
    outside the subtree of the node is touched; no mount changes and no
    event is sent. *)
Theorem forgetUpdate_keeps_node fuel nid dec st node i :
  getInodeData nid st = Ok node st →
  inodes st !! node = Some i →
  well_ranked rank st → (rank node < fuel)%nat →
  ∃ st',
    forgetUpdate range fuel nid dec st = Ok tt st' ∧
    (∀ p k, child st p k = Some node → child st' p k = Some node) ∧
    (∀ h x, inodeMap st !! h = Some x →
       (∀ c ci, inodes st !! c = Some ci → nodeId ci = h → c = node) →
       inodeMap st' !! h = Some x) ∧
    (∀ a, (rank node < rank a)%nat → inodes st' !! a = inodes st !! a) ∧
    fsmounts st' = fsmounts st ∧ events st' = events st.
Proof.
  intros Hg Hi Hwr Hfuel.
  destruct (forgetUpdate_run fuel nid dec st node i Hg Hi Hwr Hfuel)
    as (drop & st' & _ & Hrun & Hwr1 & Hsafe & Hframe).
  set (st1 := set_inodes _ st) in *.
  assert (∀ a k, child st1 a k = child st a k) as Hch
    by (intros; by apply child_store_lookupCount).
  assert (∀ a, (rank node < rank a)%nat → inodes st' !! a = inodes st !! a)
    as Hout.
  { intros a Ha. rewrite Hframe by lia. subst st1; simpl.
    rewrite lookup_insert_ne; [done|]. intros ->. lia. }
  assert (∀ p k, child st p k = Some node → child st' p k = Some node) as Hin.
  { intros p k Hc. destruct (Hwr _ _ _ Hc) as [_ Hlt].
    unfold child in *. by rewrite (Hout p Hlt). }
  exists st'. split; [done|]. split; [done|]. split; [|split; [done|]].
  - intros h x Hx Huniq.
    destruct (inodeMap st' !! h) as [y|] eqn:Hy.
    { apply (gc_handles _ _ (safe_step _ _ Hsafe)) in Hy.
      simpl in Hy. congruence. }
    exfalso.
    destruct (safe_handle _ _ Hsafe h x Hx Hy)
      as (a & k & c & ci' & Hc & Hgone & Hci' & Hid & _).
    destruct (gc_inode_rev _ _ _ _ (safe_step _ _ Hsafe) Hci') as (ci1 & Hci1 & Heq).
    assert (∃ ci, inodes st !! c = Some ci ∧ nodeId ci = h) as (ci & Hci & Hidc).
    { subst st1; simpl in Hci1. destruct (decide (c = node)) as [->|Hne].
      - rewrite lookup_insert_eq in Hci1. injection Hci1 as <-.
        exists i. split; [done|]. rewrite Heq in Hid. done.
      - rewrite lookup_insert_ne in Hci1 by done. exists ci1.
        split; [done|]. rewrite Heq in Hid. done. }
    assert (c = node) as -> by eauto.
    rewrite Hch in Hc. apply Hin in Hc. congruence.
  - split; [by rewrite (gc_fsmounts _ _ (safe_step _ _ Hsafe))
           |by rewrite (gc_events _ _ (safe_step _ _ Hsafe))].
Qed.

(** X8: a forget on a tree collects the children of the node that are
    collectible when it is called: such a child is detached from the node
    and its handle is released. *)
Theorem forgetUpdate_collects_child fuel nid dec st node i k c ci :
  getInodeData nid st = Ok node st →
  inodes st !! node = Some i →
  well_ranked rank st → (rank node < fuel)%nat →
  child st node k = Some c → inodes st !! c = Some ci →
  collectible st c ci →
  ∃ st',
    forgetUpdate range fuel nid dec st = Ok tt st' ∧
    child st' node k = None ∧
    inodeMap st' !! nodeId ci = None.
Proof.
  intros Hg Hi Hwr Hfuel Hc Hci Hcol.
  destruct (forgetUpdate_run fuel nid dec st node i Hg Hi Hwr Hfuel)
    as (drop & st' & Hcdi & Hrun & Hwr1 & Hsafe & _).
  set (i1 := set_lookupCount _ i) in *. set (st1 := set_inodes _ st) in *.
  exists st'. split; [done|].
  assert (c ≠ node) as Hcn.
  { intros ->. destruct (Hwr _ _ _ Hc). lia. }
  assert (inodes st1 !! node = Some i1) as Hi1
    by (subst st1; simpl; by rewrite lookup_insert_eq).
  assert (inodes st1 !! c = Some ci) as Hci1
    by (subst st1; simpl; by rewrite lookup_insert_ne).
  assert (child st1 node k = Some c) as Hc1
    by (subst st1 i1; by rewrite child_store_lookupCount).
  assert (collectible st1 c ci) as Hcol1 by done.
  destruct fuel as [|fuel]; [lia|]. simpl in Hcdi.
  rewrite (bind_load _ _ _ _ Hi1) in Hcdi.
  set (m := default ∅ (children i1)) in *.
  assert ((k, c) ∈ range m) as Hkc.
  { rewrite range_perm. apply elem_of_map_to_list.
    rewrite (child_lookup _ _ _ _ Hi1) in Hc1. unfold map_get in Hc1. subst m.
    by destruct (children i1). }
  unfold bind at 1 in Hcdi.
  destruct (collectChildren (considerDropInode range fuel) (range m) [] st1)
    as [del s1|msg s1|] eqn:Hcoll; [|done..].
  assert (k ∈ del) as Hk.
  { assert (∃ f, fuel = S f) as [f ->].
    { destruct fuel; [|eauto]. destruct (Hwr _ _ _ Hc). lia. }
    eapply (collectChildren_collects (considerDropInode range (S f)) (range m));
      [apply considerDropInode_gc_step; done| |exact Hcoll|exact Hkc|done..].
    intros v s vi Hv Hvc. by eapply considerDropInode_leaf. }
  pose proof (collectChildren_gc_step (considerDropInode range fuel) (range m)
                (considerDropInode_gc_step range range_perm fuel) [] st1) as Hgc.
  rewrite Hcoll in Hgc. destruct Hgc as [Hgc _].
  assert (frame rank (rank node) st1 s1) as Hfr.
  { pose proof (collectChildren_frame rank (considerDropInode range fuel)
                  (range m) (rank node)) as Hf.
    specialize (Hf (considerDropInode_gc_step range range_perm fuel)).
    specialize (Hf (λ k v s _ Hs,
                      considerDropInode_frame range range_perm rank fuel v s Hs)).
    assert (∀ k v, (k, v) ∈ range m → (rank v < rank node)%nat) as Hlt.
    { intros k' v Hin. rewrite range_perm in Hin.
      apply elem_of_map_to_list in Hin.
      apply (Hwr1 node k'). rewrite (child_lookup _ _ _ _ Hi1). unfold map_get.
      subst m. destruct (children i1); simpl in *; [done|].
      by rewrite lookup_empty in Hin. }
    specialize (Hf Hlt [] st1 Hwr1). by rewrite Hcoll in Hf. }
  unfold bind at 1 in Hcdi.
  destruct (dropChildren node del s1) as [[] s2|msg s2|] eqn:Hdrop; [|done..].
  destruct (dropChildren_effect _ _ _ _ Hdrop) as (_ & _ & Heff).
  destruct (Heff k Hk) as [Hnone Hh].
  assert (st' = s2) as ->.
  { unfold bind at 1, load in Hcdi.
    destruct (inodes s2 !! node); [|done].
    unfold bind, get, ret in Hcdi. repeat case_match; congruence. }
  split; [done|].
  destruct (gc_inode _ _ Hgc _ _ Hci1) as (ci' & Hci' & Heq & _).
  replace (nodeId ci) with (nodeId ci') by (by rewrite Heq).
  apply (Hh c); [|done].
  unfold child in *. rewrite (Hfr node) by lia. done.
Qed.
End Ranked.
End GC_liveness.

Lemma forgetUpdate_keeps_node_witness :
  ∃ st',
    forgetUpdate map_to_list 5 2%N 1 ex_state = Ok tt st' ∧
    (∀ p k, child ex_state p k = Some 2%positive →
            child st' p k = Some 2%positive) ∧
    (∀ h x, inodeMap ex_state !! h = Some x →
       (∀ c ci, inodes ex_state !! c = Some ci → nodeId ci = h →
                c = 2%positive) →
       inodeMap st' !! h = Some x) ∧
    (∀ a, (ex_rank 2%positive < ex_rank a)%nat →
          inodes st' !! a = inodes ex_state !! a) ∧
    fsmounts st' = fsmounts ex_state ∧ events st' = events ex_state.
Proof.
  apply (forgetUpdate_keeps_node map_to_list (λ m, Permutation_refl _) ex_rank
           5 2%N 1 ex_state 2%positive ex_a).
  - reflexivity.
  - reflexivity.
  - apply well_ranked_b_sound. vm_compute. reflexivity.
  - vm_compute. lia.
Defined.

Lemma forgetUpdate_collects_child_witness :
  ∃ st',
    forgetUpdate map_to_list 5 2%N 0 ex_state = Ok tt st' ∧
    child st' 2%positive "x" = None ∧
    inodeMap st' !! nodeId ex_x = None.
Proof.
  apply (forgetUpdate_collects_child map_to_list (λ m, Permutation_refl _)
           ex_rank 5 2%N 0 ex_state 2%positive ex_a "x" 6%positive ex_x).
  - reflexivity.
  - reflexivity.
  - apply well_ranked_b_sound. vm_compute. reflexivity.
  - vm_compute. lia.
  - reflexivity.
  - reflexivity.
  - repeat split; [simpl; lia|discriminate].
Defined.

(** Subtracting what was added gives the count back, through any
    wrap-around in between. *)
Lemma int_sub_add x n : min_int ≤ x ≤ max_int → int_sub (int_add x n) n = x.
Proof.
  intros Hx. unfold int_sub, int_add, wrap_int.
  unfold min_int, max_int, int_bits in *.
  replace ((x + n + 2 ^ (64 - 1)) mod 2 ^ 64 - 2 ^ (64 - 1) - n + 2 ^ (64 - 1))
    with ((x + n + 2 ^ (64 - 1)) mod 2 ^ 64 - n) by lia.
  rewrite Zminus_mod_idemp_l.
  replace (x + n + 2 ^ (64 - 1) - n) with (x + 2 ^ (64 - 1)) by lia.
  rewrite Z.mod_small; lia.
Qed.

Section Lookup_forget.
Variable range : gmap string addr → list (string * addr).
Hypothesis range_perm : ∀ m, range m ≡ₚ map_to_list m.
Variable rank : addr → nat.

(** X9: on a tree, a lookup of an entry and a forget of its inode by the
    same count cancel: the forget returns, the inode is still the entry of
    the parent, and its lookup count is the one before the lookup, also
    when the addition wrapped around. *)
Theorem lookup_forget_round_trip fuel st parent name isDir n p data d :
  inodes st !! parent = Some p →
  map_get (children p) name = Some data →
  inodes st !! data = Some d →
  inodeMap st !! nodeId d = Some data → nodeId d ≠ FUSE_ROOT_ID →
  min_int ≤ lookupCount d ≤ max_int →
  well_ranked rank st → (rank data < fuel)%nat →
  ∃ st1 st2 d2,
    lookupUpdate parent name isDir n st = Ok data st1 ∧
    forgetUpdate range fuel (nodeId d) n st1 = Ok tt st2 ∧
    child st2 parent name = Some data ∧
    inodes st2 !! data = Some d2 ∧
    nodeId d2 = nodeId d ∧ lookupCount d2 = lookupCount d.
Proof.
  intros Hp Hc Hd Hh Hroot Hrange Hwr Hfuel.
  pose proof (lookupUpdate_existing_eq st parent name isDir n p data d Hp Hc Hd)
    as Hlook.
  set (d1 := set_lookupCount (int_add (lookupCount d) n) d) in *.
  set (st1 := set_inodes _ st) in *.
  assert (inodes st1 !! data = Some d1) as Hd1
    by (subst st1; simpl; by rewrite lookup_insert_eq).
  assert (well_ranked rank st1) as Hwr1 by (by eapply well_ranked_store).
  assert (getInodeData (nodeId d) st1 = Ok data st1) as Hg.
  { unfold getInodeData. rewrite bind_get.
    rewrite (bool_decide_eq_false_2 _ Hroot). unfold HandleMap.Decode.
    subst st1; simpl. by rewrite Hh. }
  destruct (forgetUpdate_run range range_perm rank fuel (nodeId d) n st1 data d1
              Hg Hd1 Hwr1 Hfuel) as (drop & st2 & _ & Hrun & _ & Hsafe & Hframe).
  set (st1' := set_inodes _ st1) in *.
  assert (inodes st1' !! data
          = Some (set_lookupCount (int_sub (lookupCount d1) n) d1)) as Hd1'
    by (subst st1'; simpl; by rewrite lookup_insert_eq).
  destruct (gc_inode _ _ (safe_step _ _ Hsafe) _ _ Hd1')
    as (d2 & Hd2 & Heq & _).
  exists st1, st2, d2. split; [done|]. split; [done|]. split.
  - assert (child st parent name = Some data) as Hch
      by (by rewrite (child_lookup _ _ _ _ Hp)).
    destruct (Hwr _ _ _ Hch) as [_ Hlt].
    unfold child. rewrite Hframe by lia.
    assert (parent ≠ data) as Hne by (intros ->; lia).
    subst st1' st1; simpl. rewrite !lookup_insert_ne by done.
    by rewrite Hp.
  - split; [done|]. rewrite Heq. simpl. split; [done|].
    by apply int_sub_add.
Qed.
End Lookup_forget.

Lemma lookup_forget_round_trip_witness :
  ∃ st1 st2 d2,
    lookupUpdate 2%positive "b" true 7 ex_state = Ok 3%positive st1 ∧
    forgetUpdate map_to_list 5 (nodeId ex_b) 7 st1 = Ok tt st2 ∧
    child st2 2%positive "b" = Some 3%positive ∧
    inodes st2 !! 3%positive = Some d2 ∧
    nodeId d2 = nodeId ex_b ∧ lookupCount d2 = lookupCount ex_b.
Proof.
  apply (lookup_forget_round_trip map_to_list (λ m, Permutation_refl _) ex_rank
           5 ex_state 2%positive "b" true 7 ex_a 3%positive ex_b).
  - reflexivity.
  - reflexivity.
  - reflexivity.
  - reflexivity.
  - discriminate.
  - vm_compute. split; discriminate.
  - apply well_ranked_b_sound. vm_compute. reflexivity.
  - vm_compute. lia.
Defined.

(** ** Unlinked inodes *)

(** Checking a property of every child entry, or of every inode, by
    computation. *)
Lemma child_forallb (P : addr → string → addr → bool) st :
  forallb (λ ai : addr * Inode,
     forallb (λ kc : string * addr, P ai.1 kc.1 kc.2)
       (map_to_list (default ∅ (children ai.2))))
    (map_to_list (inodes st)) = true →
  ∀ a k c, child st a k = Some c → P a k c = true.
Proof.
  rewrite forallb_forall. intros H a k c Hc.
  unfold child in Hc. destruct (inodes st !! a) as [i|] eqn:Hi; [|done].
  simpl in Hc. apply elem_of_map_to_list, list_elem_of_In in Hi.
  specialize (H _ Hi). simpl in H. rewrite forallb_forall in H.
  unfold map_get in Hc. destruct (children i) as [m|]; [|done]. simpl in *.
  apply elem_of_map_to_list, list_elem_of_In in Hc.
  by specialize (H _ Hc).
Qed.

Lemma inode_forallb (P : addr → Inode → bool) st :
  forallb (λ ai : addr * Inode, P ai.1 ai.2) (map_to_list (inodes st)) = true →
  ∀ a i, inodes st !! a = Some i → P a i = true.
Proof.
  rewrite forallb_forall. intros H a i Hi.
  apply elem_of_map_to_list, list_elem_of_In in Hi. by specialize (H _ Hi).
Qed.

(** A write to an inode that keeps its identifier and adds no entry that
    leads to the orphan. *)
Lemma orphan_store c h st n i i' :
  orphan c h st → inodes st !! n = Some i → nodeId i' = nodeId i →
  (∀ k, map_get (children i') k ≠ Some c) →
  orphan c h (set_inodes (<[n := i']> (inodes st)) st).
Proof.
  intros [Hh Ha He Hc] Hn Hid Hch. split; simpl.
  - done.
  - destruct (decide (c = n)) as [->|Hne].
    + by rewrite lookup_insert_eq.
    + by rewrite lookup_insert_ne.
  - intros a k. unfold child; simpl. destruct (decide (a = n)) as [->|Hne].
    + rewrite lookup_insert_eq. simpl. apply Hch.
    + rewrite lookup_insert_ne by done. apply He.
  - intros c' ci. destruct (decide (c' = n)) as [->|Hne].
    + rewrite lookup_insert_eq. intros [= <-] Hi. eapply Hc; [done|]. congruence.
    + rewrite lookup_insert_ne by done. apply Hc.
Qed.

Lemma orphan_newInode c h isDir st :
  orphan c h st → res_rel (orphan c h) (newInode isDir st).
Proof.
  intros [Hh Ha He Hc]. unfold newInode, bind, get.
  destruct (HandleMap.Register _ _) as [h' hm] eqn:Hreg.
  apply Register_fresh in Hreg as [Hh' ->]. simpl.
  assert (inodes st !! fresh (dom (inodes st)) = None) as Hfresh
    by apply not_elem_of_dom, is_fresh.
  assert (h ≠ h') as Hne by congruence.
  assert (c ≠ fresh (dom (inodes st))) as Hcn.
  { intros Heq. rewrite <- Heq in Hfresh. rewrite Hfresh in Ha.
    by destruct Ha. }
  split; simpl.
  - by rewrite lookup_insert_ne.
  - by rewrite lookup_insert_ne.
  - intros a k. unfold child; simpl.
    destruct (decide (a = fresh (dom (inodes st)))) as [->|Hna].
    + rewrite lookup_insert_eq. simpl. destruct isDir; simpl; [|done].
      by rewrite lookup_empty.
    + rewrite lookup_insert_ne by done. apply He.
  - intros c' ci. destruct (decide (c' = fresh (dom (inodes st)))) as [->|Hna].
    + rewrite lookup_insert_eq. intros [= <-]. simpl. congruence.
    + rewrite lookup_insert_ne by done. apply Hc.
Qed.

Lemma orphan_lookupUpdate c h parent name isDir count st :
  orphan c h st →
  res_rel (orphan c h) (lookupUpdate parent name isDir count st).
Proof.
  intros Ho. unfold lookupUpdate. unfold bind at 1, load.
  destruct (inodes st !! parent) as [p|] eqn:Hp; [|done].
  assert (∀ data st1, orphan c h st1 →
     res_rel (orphan c h)
       ((do d <- load data;
         do_ store data (set_lookupCount (int_add (lookupCount d) count) d);
         do_ verify; ret data) st1)) as Hfin.
  { intros data st1 H1. unfold bind at 1, load.
    destruct (inodes st1 !! data) as [d|] eqn:Hd; [|done].
    unfold bind, store, verify, ret. simpl.
    eapply orphan_store; [done..|]. intros k Hk.
    apply (orphan_edge _ _ _ H1 data k). by rewrite (child_lookup _ _ _ _ Hd). }
  unfold bind at 1.
  destruct (map_get (children p) name) as [data|] eqn:Hch.
  { unfold ret at 1. by apply Hfin. }
  unfold bind at 1.
  pose proof (orphan_newInode c h isDir st Ho) as Hnew.
  destruct (newInode isDir st) as [data st1|msg st1|] eqn:Hni; [|done..].
  simpl in Hnew. apply newInode_Ok in Hni as (Hfresh & d & Hd & Hother).
  assert (parent ≠ data) as Hpd by congruence.
  assert (c ≠ data) as Hcd.
  { intros ->. destruct (orphan_alloc _ _ _ Ho) as [? ?]. congruence. }
  assert (inodes st1 !! parent = Some p) as Hp1 by (by rewrite Hother).
  unfold bind at 1.
  destruct (children p) as [m|] eqn:Hm.
  2:{ unfold addChild, bind, load. rewrite Hp1, Hm. done. }
  erewrite addChild_eq by done.
  set (st2 := set_inodes _ st1).
  assert (orphan c h st2) as H2.
  { subst st2. eapply orphan_store; [done..|]. simpl. intros k.
    destruct (decide (k = name)) as [->|Hk].
    - rewrite lookup_insert_eq. congruence.
    - rewrite lookup_insert_ne by done. intros Hk'.
      apply (orphan_edge _ _ _ Hnew parent k).
      rewrite (child_lookup _ _ _ _ Hp1), Hm. done. }
  unfold bind at 1, load.
  destruct (inodes st2 !! parent) as [p'|]; [|done].
  unfold bind at 1.
  destruct (inodes st2 !! data) as [d2|] eqn:Hd2; [|done].
  destruct (mount p'); [|done].
  unfold bind at 1, store, ret at 1.
  apply Hfin. eapply orphan_store; [done..|]. simpl. intros k Hk.
  apply (orphan_edge _ _ _ H2 data k). by rewrite (child_lookup _ _ _ _ Hd2).
Qed.

Lemma orphan_gc_safe c h st st' : orphan c h st → gc_safe st st' → orphan c h st'.
Proof.
  intros [Hh [ci Ha] He Hc] Hs. pose proof (safe_step _ _ Hs) as Hg.
  assert (∀ c' ci', inodes st' !! c' = Some ci' → nodeId ci' = h → c' = c)
    as Hc'.
  { intros c' ci' Hci' Hid.
    destruct (gc_inode_rev _ _ _ _ Hg Hci') as (i0 & Hi0 & Heq).
    eapply Hc; [done|]. rewrite Heq in Hid. done. }
  assert (∀ a k, child st' a k ≠ Some c) as He'.
  { intros a k Hk. apply (He a k). by apply (gc_shrink _ _ Hg). }
  split; [|by destruct (gc_inode _ _ Hg _ _ Ha) as (? & -> & _)|done..].
  destruct (inodeMap st' !! h) as [y|] eqn:Hy.
  - apply (gc_handles _ _ Hg) in Hy. congruence.
  - exfalso.
    destruct (safe_handle _ _ Hs h c Hh Hy)
      as (a & k & c0 & ci0 & Hk & _ & Hci0 & Hid & _).
    assert (c0 = c) as -> by eauto. by apply (He a k).
Qed.

Section Orphans.
Variable range : gmap string addr → list (string * addr).
Hypothesis range_perm : ∀ m, range m ≡ₚ map_to_list m.

Lemma orphan_forgetUpdate c h fuel nid count st :
  orphan c h st → res_rel (orphan c h) (forgetUpdate range fuel nid count st).
Proof.
  intros Ho. unfold forgetUpdate. unfold bind at 1.
  destruct (getInodeData nid st) as [node st0|msg st0|] eqn:Hg.
  - apply getInodeData_Ok in Hg as ->.
    unfold bind at 1, load.
    destruct (inodes st !! node) as [i|] eqn:Hi; [|done].
    unfold bind at 1, store.
    set (st1 := set_inodes _ st).
    assert (orphan c h st1) as H1.
    { eapply orphan_store; [done..|]. intros k Hk.
      apply (orphan_edge _ _ _ Ho node k). by rewrite (child_lookup _ _ _ _ Hi). }
    unfold bind at 1.
    pose proof (considerDropInode_gc_safe range range_perm fuel node st1) as Hgc.
    destruct (considerDropInode range fuel node st1) as [d st2|msg st2|];
      simpl in *; [| |done]; by eapply orphan_gc_safe.
  - unfold getInodeData, bind, get, ret, panic in Hg.
    case_bool_decide; [done|]. destruct (HandleMap.Decode _ _); [done|].
    by injection Hg as <- <-.
  - unfold getInodeData, bind, get, ret, panic in Hg.
    case_bool_decide; [done|]. by destruct (HandleMap.Decode _ _).
Qed.

Lemma orphan_run_ops c h fuel ops :
  ∀ st, orphan c h st → res_rel (orphan c h) (run_ops range fuel ops st).
Proof.
  induction ops as [|op rest IH]; intros st Ho; simpl; [done|].
  unfold bind at 1.
  assert (res_rel (orphan c h) (run_op range fuel op st)) as Hop.
  { destruct op as [parent name isDir count|nid count]; simpl.
    - unfold bind. pose proof (orphan_lookupUpdate c h parent name isDir count st Ho).
      by destruct (lookupUpdate parent name isDir count st).
    - by apply orphan_forgetUpdate. }
  destruct (run_op range fuel op st) as [[] st1|msg st1|]; [|done..].
  by apply IH.
Qed.

(** X10: [unlinkUpdate] takes the entry out of the parent and releases
    nothing; the inode that the entry led to, when no other entry leads
    to it, is out of reach of the collection from then on: whatever
    lookups and forgets follow, on that inode too, its handle stays in
    the handle map. *)
Theorem unlinkUpdate_orphans fuel ops st parent name c ci :
  child st parent name = Some c →
  (∀ a k, child st a k = Some c → a = parent ∧ k = name) →
  inodes st !! c = Some ci →
  inodeMap st !! nodeId ci = Some c →
  (∀ c' ci', inodes st !! c' = Some ci' → nodeId ci' = nodeId ci → c' = c) →
  ∃ st1,
    unlinkUpdate parent name st = Ok tt st1 ∧
    child st1 parent name = None ∧
    (∀ a k, (a, k) ≠ (parent, name) → child st1 a k = child st a k) ∧
    inodeMap st1 = inodeMap st ∧
    res_rel (λ st', inodeMap st' !! nodeId ci = Some c ∧
                    is_Some (inodes st' !! c) ∧
                    ∀ a k, child st' a k ≠ Some c)
            (run_ops range fuel ops st1).
Proof.
  intros Hch Huniq Hci Hh Hcar.
  assert (∃ p, inodes st !! parent = Some p) as [p Hp].
  { unfold child in Hch. destruct (inodes st !! parent); [eauto|done]. }
  unfold unlinkUpdate. unfold bind at 1. rewrite (rmChild_eq _ _ _ _ Hp).
  set (st1 := set_inodes _ st). unfold verify.
  exists st1. split; [done|].
  assert (∀ k, child st1 parent k
               = if decide (k = name) then None else child st parent k) as Hpar.
  { intros k. unfold child. subst st1; simpl. rewrite lookup_insert_eq, Hp.
    simpl. unfold map_get. destruct (children p) as [m|]; simpl.
    - case_decide as Hk; [subst; by rewrite lookup_delete_eq
                         |by rewrite lookup_delete_ne].
    - by case_decide. }
  assert (∀ a k, a ≠ parent → child st1 a k = child st a k) as Hoth.
  { intros a k Ha. unfold child. subst st1; simpl.
    by rewrite lookup_insert_ne. }
  split; [by rewrite Hpar, decide_True|]. split.
  { intros a k Hne. destruct (decide (a = parent)) as [->|Ha]; [|by apply Hoth].
    rewrite Hpar. rewrite decide_False; [done|]. congruence. }
  split; [done|].
  assert (orphan c (nodeId ci) st1) as Ho.
  { split.
    - done.
    - subst st1; simpl. destruct (decide (c = parent)) as [->|Hne].
      + by rewrite lookup_insert_eq.
      + rewrite lookup_insert_ne by done. eauto.
    - intros a k Hk. destruct (decide (a = parent)) as [->|Ha].
      + rewrite Hpar in Hk. case_decide as Hn; [done|].
        destruct (Huniq _ _ Hk). done.
      + rewrite Hoth in Hk by done. destruct (Huniq _ _ Hk). done.
    - intros c' ci'. subst st1; simpl.
      destruct (decide (c' = parent)) as [->|Hne].
      + rewrite lookup_insert_eq. intros [= <-]. simpl. by apply Hcar.
      + rewrite lookup_insert_ne by done. apply Hcar. }
  pose proof (orphan_run_ops c (nodeId ci) fuel ops st1 Ho) as Hrun.
  destruct (run_ops range fuel ops st1) as [[] st2|msg st2|]; [| |done];
    simpl in *; destruct Hrun; done.
Qed.
End Orphans.

Lemma unlinkUpdate_orphans_witness :
  ∃ st1,
    unlinkUpdate 3%positive "c" ex_state = Ok tt st1 ∧
    child st1 3%positive "c" = None ∧
    (∀ a k, (a, k) ≠ (3%positive, "c"%string) →
            child st1 a k = child ex_state a k) ∧
    inodeMap st1 = inodeMap ex_state ∧
    res_rel (λ st', inodeMap st' !! nodeId ex_c = Some 4%positive ∧
                    is_Some (inodes st' !! 4%positive) ∧
                    ∀ a k, child st' a k ≠ Some 4%positive)
            (run_ops map_to_list 5 [OpForget 4%N 1; OpForget 3%N 1] st1).
Proof.
  apply (unlinkUpdate_orphans map_to_list (λ m, Permutation_refl _) 5
           [OpForget 4%N 1; OpForget 3%N 1] ex_state 3%positive "c"
           4%positive ex_c).
  - reflexivity.
  - intros a k Hk.
    apply (child_forallb
             (λ a k c, bool_decide (c = 4%positive →
                                    a = 3%positive ∧ k = "c"%string))
             ex_state) in Hk; [|vm_compute; reflexivity].
    apply bool_decide_eq_true_1 in Hk. by apply Hk.
  - reflexivity.
  - reflexivity.
  - intros c' ci' Hc' Hid.
    apply (inode_forallb
             (λ a i, bool_decide (nodeId i = nodeId ex_c → a = 4%positive))
             ex_state) in Hc'; [|vm_compute; reflexivity].
    apply bool_decide_eq_true_1 in Hc'. by apply Hc'.
Defined.

(** The run of the witness returns: the count of the unlinked file [c]
    falls to zero and its handle is still there. *)
Example ex_orphan_run :
  ∃ st1 st2 i,
    unlinkUpdate 3%positive "c" ex_state = Ok tt st1 ∧
    run_ops map_to_list 5 [OpForget 4%N 1; OpForget 3%N 1] st1 = Ok tt st2 ∧
    inodes st2 !! 4%positive = Some i ∧ lookupCount i = 0 ∧
    inodeMap st2 !! 4%N = Some 4%positive.
Proof. eexists _, _, _. repeat split; vm_compute; reflexivity. Qed.

(** ** Rename, there and back *)

Lemma rename_back_old (m : gmap string addr) k v :
  m !! k = Some v → <[k := v]> (delete k (delete k m)) = m.
Proof.
  intros Hk. apply map_eq. intros j. destruct (decide (j = k)) as [->|Hj].
  - by rewrite lookup_insert_eq.
  - by rewrite lookup_insert_ne, !lookup_delete_ne by done.
Qed.

Lemma rename_back_new (m : gmap string addr) k v :
  m !! k = None → delete k (<[k := v]> (delete k m)) = m.
Proof.
  intros Hk. apply map_eq. intros j. destruct (decide (j = k)) as [->|Hj].
  - by rewrite lookup_delete_eq.
  - by rewrite lookup_delete_ne, lookup_insert_ne, lookup_delete_ne by done.
Qed.

Lemma rename_back_same (m : gmap string addr) o n v :
  m !! o = Some v → m !! n = None →
  <[o := v]> (delete o (delete n (<[n := v]> (delete n (delete o m))))) = m.
Proof.
  intros Ho Hn. assert (o ≠ n) as Hne by congruence.
  apply map_eq. intros j. destruct (decide (j = o)) as [->|Hj].
  - by rewrite lookup_insert_eq.
  - rewrite lookup_insert_ne, lookup_delete_ne by done.
    destruct (decide (j = n)) as [->|Hj'].
    + by rewrite lookup_delete_eq.
    + by rewrite lookup_delete_ne, lookup_insert_ne, !lookup_delete_ne by done.
Qed.

Lemma renameUpdate_run st oldParent oldName newParent newName po pn nd :
  inodes st !! oldParent = Some po →
  inodes st !! newParent = Some pn →
  mount po = mount pn →
  child st oldParent oldName = Some nd →
  is_Some (children pn) →
  ∃ I',
    renameUpdate oldParent oldName newParent newName st
      = Ok tt (set_inodes I' st) ∧
    ∀ a, I' !! a
         = (λ i, set_children
                   (renamed oldParent oldName newParent newName nd a
                            (children i)) i) <$> inodes st !! a.
Proof.
  intros Ho Hn Hm Hc [mn Hmn].
  unfold renameUpdate, bind at 1 2. unfold load. rewrite Ho, Hn.
  rewrite bool_decide_eq_false_2 by (intros ?; done).
  unfold bind at 1. rewrite (rmChild_eq _ _ _ _ Ho), Hc.
  set (st1 := set_inodes _ st).
  destruct (decide (oldParent = newParent)) as [->|Hne].
  - assert (po = pn) as -> by congruence.
    assert (inodes st1 !! newParent =
            Some (set_children (delete oldName <$> children pn) pn)) as H1
      by (subst st1; simpl; by rewrite lookup_insert_eq).
    unfold bind at 1. rewrite (rmChild_eq _ _ _ _ H1).
    set (st2 := set_inodes _ st1).
    assert (inodes st2 !! newParent =
            Some (set_children (Some (delete newName (delete oldName mn))) pn)) as H2.
    { subst st2; simpl. rewrite lookup_insert_eq. simpl. by rewrite Hmn. }
    unfold bind at 1. erewrite (addChild_eq _ _ _ _ _ _ H2) by done.
    eexists; split; [reflexivity|].
    intros a. simpl. unfold renamed.
    destruct (decide (a = newParent)) as [->|Ha].
    + rewrite lookup_insert_eq, Hn. simpl. by rewrite Hmn.
    + rewrite !lookup_insert_ne by done.
      destruct (inodes st !! a); simpl; [|done]. by rewrite set_children_id.
  - assert (inodes st1 !! newParent = Some pn) as H1
      by (subst st1; simpl; by rewrite lookup_insert_ne).
    unfold bind at 1. rewrite (rmChild_eq _ _ _ _ H1).
    set (st2 := set_inodes _ st1).
    assert (inodes st2 !! newParent =
            Some (set_children (Some (delete newName mn)) pn)) as H2.
    { subst st2; simpl. rewrite lookup_insert_eq. by rewrite Hmn. }
    unfold bind at 1. erewrite (addChild_eq _ _ _ _ _ _ H2) by done.
    eexists; split; [reflexivity|].
    intros a. simpl. unfold renamed.
    destruct (decide (a = newParent)) as [->|Ha].
    + rewrite lookup_insert_eq, Hn. simpl.
      rewrite decide_False by done. by rewrite Hmn.
    + rewrite !(lookup_insert_ne _ newParent) by done.
      destruct (decide (a = oldParent)) as [->|Ha'].
      * by rewrite lookup_insert_eq, Ho.
      * rewrite lookup_insert_ne by done.
        destruct (inodes st !! a); simpl; [|done]. by rewrite set_children_id.
Qed.

(** X11: renaming an entry to a free name and back restores the state:
    the second rename returns and leaves the very state before the
    first. *)
Theorem renameUpdate_round_trip st oldParent oldName newParent newName po pn nd :
  inodes st !! oldParent = Some po →
  inodes st !! newParent = Some pn →
  mount po = mount pn →
  child st oldParent oldName = Some nd →
  is_Some (children pn) →
  child st newParent newName = None →
  ∃ st1,
    renameUpdate oldParent oldName newParent newName st = Ok tt st1 ∧
    child st1 newParent newName = Some nd ∧
    renameUpdate newParent newName oldParent oldName st1 = Ok tt st.
Proof.
  intros Ho Hn Hm Hc Hdir Hfree.
  destruct (renameUpdate_run st oldParent oldName newParent newName po pn nd
              Ho Hn Hm Hc Hdir) as (I1 & Hrun1 & HI1).
  set (f := renamed oldParent oldName newParent newName nd) in *.
  exists (set_inodes I1 st). split; [done|].
  assert (inodes (set_inodes I1 st) !! newParent
          = Some (set_children (f newParent (children pn)) pn)) as Hn1
    by (simpl; by rewrite HI1, Hn).
  assert (inodes (set_inodes I1 st) !! oldParent
          = Some (set_children (f oldParent (children po)) po)) as Ho1
    by (simpl; by rewrite HI1, Ho).
  destruct Hdir as [mn Hmn].
  rewrite (child_lookup _ _ _ _ Hn), Hmn in Hfree. simpl in Hfree.
  assert (∃ mo, children po = Some mo ∧ mo !! oldName = Some nd)
    as (mo & Hmo & Hnd).
  { rewrite (child_lookup _ _ _ _ Ho) in Hc. unfold map_get in Hc.
    destruct (children po) as [mo|]; [eauto|done]. }
  assert (child (set_inodes I1 st) newParent newName = Some nd) as Hc1.
  { rewrite (child_lookup _ _ _ _ Hn1). simpl. subst f. unfold renamed.
    rewrite decide_True by done. rewrite Hmn.
    destruct (decide (newParent = oldParent)); simpl;
      by rewrite lookup_insert_eq. }
  split; [done|].
  destruct (renameUpdate_run (set_inodes I1 st) newParent newName oldParent
              oldName _ _ nd Hn1 Ho1 (eq_sym Hm) Hc1) as (I2 & Hrun2 & HI2).
  { simpl. subst f. unfold renamed. rewrite Hmo.
    repeat case_decide; simpl; by eexists. }
  rewrite Hrun2. f_equal. rewrite set_inodes_twice.
  rewrite <- (set_inodes_id st) at 2. f_equal.
  apply map_eq. intros a. rewrite HI2. simpl. rewrite HI1.
  destruct (inodes st !! a) as [i|] eqn:Ha; simpl; [|done]. f_equal.
  rewrite <- (set_children_id i) at 3.
  destruct i as [id c mt lc mp mo' ofs]. unfold set_children; simpl. f_equal.
  assert (a = oldParent → c = Some mo ∧ mo !! oldName = Some nd) as Eo.
  { intros ->. rewrite Ho in Ha. injection Ha as ->. simpl in Hmo.
    by rewrite Hmo. }
  assert (a = newParent → c = Some mn ∧ mn !! newName = None) as En.
  { intros ->. rewrite Hn in Ha. injection Ha as ->. simpl in Hmn.
    by rewrite Hmn. }
  clear - Eo En. subst f. unfold renamed.
  destruct (decide (a = oldParent)) as [Heq1|Hne1];
    destruct (decide (a = newParent)) as [Heq2|Hne2];
    try (destruct (Eo Heq1) as [-> Hnd]); try (destruct (En Heq2) as [E Hfree]);
    repeat case_decide; try done; simplify_eq; simpl; f_equal.
  - by apply rename_back_same.
  - by apply rename_back_old.
  - by apply rename_back_new.
Qed.

Lemma renameUpdate_round_trip_witness :
  ∃ st1,
    renameUpdate 2%positive "x" 3%positive "y" ex_state = Ok tt st1 ∧
    child st1 3%positive "y" = Some 6%positive ∧
    renameUpdate 3%positive "y" 2%positive "x" st1 = Ok tt ex_state.
Proof.
  apply (renameUpdate_round_trip ex_state 2%positive "x" 3%positive "y"
           ex_a ex_b 6%positive).
  - reflexivity.
  - reflexivity.
  - reflexivity.
  - reflexivity.
  - eexists. reflexivity.
  - reflexivity.
Defined.

(** ** Mounting below the root *)

Lemma Mount_new_eq st mp nodeFs opts dir base parent p pm cm opts' :
  mp ≠ "/"%string → mp ≠ EmptyString → filepath_Split mp = (dir, base) →
  findInode st dir = Some parent → inodes st !! parent = Some p →
  mount p = Some pm → children p = Some cm → cm !! base = None →
  mount_options st opts opts' →
  Mount mp nodeFs opts st = Ok OK (mounted st parent p cm base nodeFs opts').
Proof.
  intros H1 H2 Hsplit Hf Hp Hpm Hcm Hbase Hopts. unfold Mount.
  rewrite (bool_decide_eq_false_2 _ H1), (bool_decide_eq_false_2 _ H2). simpl.
  rewrite Hsplit, bind_get, Hf, (bind_load _ _ _ _ Hp), Hpm.
  unfold map_get at 1. rewrite Hcm. simpl. rewrite Hbase.
  assert (inodes st !! fresh (dom (inodes st)) = None) as Hfresh
    by apply not_elem_of_dom, is_fresh.
  assert (fsmounts st !! fresh (dom (fsmounts st)) = None) as Hmfresh
    by apply not_elem_of_dom, is_fresh.
  rewrite bind_newInode. cbv zeta.
  set (node := fresh (dom (inodes st))) in *.
  set (h := (HandleMap.Register (inodeMap st) node).1).
  set (m := fresh (dom (fsmounts st))) in *.
  assert (parent ≠ node) as Hpn by congruence.
  set (st1 := set_inodeMap _ _).
  assert (inodes st1 !! node = Some (mkInode h (Some ∅) None 0 None None []))
    as Hn1 by (subst st1; simpl; by rewrite lookup_insert_eq).
  assert ((do opts'0 <-
             match opts with
             | Some o => ret (Some o)
             | None =>
                 do r <- load (rootNode st);
                 match mountPoint r with
                 | Some rm => do m0 <- load_mount rm; ret (options m0)
                 | None => panic "nil dereference"
                 end
             end; ret opts'0) st1 = Ok opts' st1) as Hopt.
  { destruct opts as [o|]; simpl in Hopts.
    - by subst opts'.
    - destruct Hopts as (r & rm & m0 & Hr & Hrm & Hm0 & ->).
      assert (inodes st1 !! rootNode st = Some r) as Hr1.
      { subst st1; simpl. rewrite lookup_insert_ne; [done|]. congruence. }
      rewrite bind_assoc, (bind_load _ _ _ _ Hr1), Hrm.
      rewrite bind_assoc, (bind_load_mount _ _ _ st1 Hm0). done. }
  unfold bind at 1. unfold bind at 1 in Hopt.
  destruct (match opts with Some o => ret (Some o) | None => _ end st1)
    as [o1 s1|msg s1|] eqn:Ho; [|done..].
  injection Hopt as -> ->.
  unfold bind at 1, mountFs.
  rewrite (bind_load _ _ _ _ Hn1), bind_get.
  change (fresh (dom (fsmounts st1))) with m.
  rewrite bind_store_mount. unfold store at 1.
  set (st2 := set_inodes _ (set_fsmounts _ st1)).
  assert (inodes st2 !! parent = Some p) as Hp2.
  { subst st2 st1; simpl. rewrite !lookup_insert_ne by done. exact Hp. }
  unfold bind at 1. rewrite (addChild_eq _ _ _ _ _ _ Hp2 Hcm).
  set (st3 := set_inodes _ st2).
  assert (inodes st3 !! parent
          = Some (set_children (Some (<[base := node]> cm)) p)) as Hp3
    by (subst st3; simpl; by rewrite lookup_insert_eq).
  rewrite (bind_load _ _ _ _ Hp3).
  assert (inodes st3 !! node
          = Some (mkInode h (Some ∅) None 0 (Some m) (Some m) [])) as Hn3.
  { subst st3 st2; simpl. rewrite lookup_insert_ne by done.
    by rewrite lookup_insert_eq. }
  rewrite (bind_load _ _ _ _ Hn3). simpl.
  rewrite bind_store, bind_emitM. unfold verify. rewrite bind_ret.
  unfold ret, mounted. f_equal.
  subst st3 st2 st1. unfold emit, set_inodes, set_fsmounts, set_inodeMap; simpl.
  fold node. fold h. fold m. f_equal.
  apply map_eq. intros a.
  destruct (decide (a = parent)) as [->|Ha].
  - by rewrite !lookup_insert_eq.
  - rewrite !(lookup_insert_ne _ parent) by done.
    destruct (decide (a = node)) as [->|Ha'].
    + by rewrite !lookup_insert_eq.
    + by rewrite !(lookup_insert_ne _ node) by done.
Qed.

(** What the state after a mount holds, for the proofs that follow. *)
Lemma mounted_facts st parent p cm base nodeFs opts' :
  inodes st !! parent = Some p → children p = Some cm → cm !! base = None →
  let node := fresh (dom (inodes st)) in
  let m := fresh (dom (fsmounts st)) in
  let st' := mounted st parent p cm base nodeFs opts' in
  inodes st !! node = None ∧ parent ≠ node ∧ fsmounts st !! m = None ∧
  rootNode st' = rootNode st ∧
  child st' parent base = Some node ∧
  (∀ a k c, child st a k = Some c → child st' a k = Some c) ∧
  (∀ a k c, child st' a k = Some c →
     child st a k = Some c ∨ (a = parent ∧ k = base ∧ c = node)).
Proof.
  intros Hp Hcm Hbase node m st'.
  assert (inodes st !! node = None) as Hfresh
    by apply not_elem_of_dom, is_fresh.
  assert (parent ≠ node) as Hpn by congruence.
  split; [done|]. split; [done|].
  split; [apply not_elem_of_dom, is_fresh|]. split; [done|].
  assert (∀ k, child st' parent k = <[base := node]> cm !! k) as Hpar.
  { intros k. unfold child, st', mounted; simpl.
    by rewrite lookup_insert_eq. }
  assert (∀ k, child st' node k = None) as Hnode.
  { intros k. unfold child, st', mounted; simpl.
    rewrite lookup_insert_ne by done. by rewrite lookup_insert_eq. }
  assert (∀ a k, a ≠ parent → a ≠ node → child st' a k = child st a k) as Hoth.
  { intros a k Ha Ha'. unfold child, st', mounted; simpl.
    by rewrite !lookup_insert_ne by done. }
  assert (∀ k, child st parent k = cm !! k) as Hpar0.
  { intros k. rewrite (child_lookup _ _ _ _ Hp). unfold map_get.
    by rewrite Hcm. }
  assert (∀ k, child st node k = None) as Hnode0.
  { intros k. unfold child. by rewrite Hfresh. }
  split; [by rewrite Hpar, lookup_insert_eq|]. split.
  - intros a k c Hc. destruct (decide (a = parent)) as [->|Ha].
    + rewrite Hpar. rewrite Hpar0 in Hc.
      destruct (decide (k = base)) as [->|Hk].
      * by rewrite Hbase in Hc.
      * by rewrite lookup_insert_ne.
    + destruct (decide (a = node)) as [->|Ha']; [by rewrite Hnode0 in Hc|].
      by rewrite Hoth.
  - intros a k c Hc. destruct (decide (a = parent)) as [->|Ha].
    + rewrite Hpar in Hc. destruct (decide (k = base)) as [->|Hk].
      * rewrite lookup_insert_eq in Hc. right. naive_solver.
      * rewrite lookup_insert_ne in Hc by done. left. by rewrite Hpar0.
    + destruct (decide (a = node)) as [->|Ha']; [by rewrite Hnode in Hc|].
      left. by rewrite <- Hoth.
Qed.

(** X12: a mount below the root on a free name of a directory that belongs
    to a mount succeeds: a new directory inode with a new handle and a
    lookup count of zero becomes the child of the parent under the name and
    the root of a new mount of the backend, which the mount table of the
    parent lists under the name; no other entry and no other inode
    changes, and the backend is told once. *)
Theorem Mount_mounts st mp nodeFs opts dir base parent p pm cm opts' :
  mp ≠ "/"%string → mp ≠ EmptyString → filepath_Split mp = (dir, base) →
  findInode st dir = Some parent → inodes st !! parent = Some p →
  mount p = Some pm → children p = Some cm → cm !! base = None →
  mount_options st opts opts' →
  ∃ st' node h m,
    Mount mp nodeFs opts st = Ok OK st' ∧
    inodes st !! node = None ∧ inodeMap st !! h = None ∧
    h ≠ 0%N ∧ h ≠ FUSE_ROOT_ID ∧ fsmounts st !! m = None ∧
    inodes st' !! node = Some (mkInode h (Some ∅) None 0 (Some m) (Some m) []) ∧
    inodeMap st' = <[h := node]> (inodeMap st) ∧
    fsmounts st' = <[m := mkMount nodeFs (Some node) opts' ∅]> (fsmounts st) ∧
    (∃ p', inodes st' !! parent = Some p' ∧
           map_get (mounts p') base = Some m ∧
           (∀ k, k ≠ base → map_get (mounts p') k = map_get (mounts p) k) ∧
           nodeId p' = nodeId p ∧ lookupCount p' = lookupCount p ∧
           mountPoint p' = mountPoint p ∧ mount p' = mount p) ∧
    (∀ a k c, child st' a k = Some c ↔
       child st a k = Some c ∨ (a = parent ∧ k = base ∧ c = node)) ∧
    (∀ a, a ≠ parent → a ≠ node → inodes st' !! a = inodes st !! a) ∧
    events st' = events st ++ [EvFsMount nodeFs].
Proof.
  intros H1 H2 Hsplit Hf Hp Hpm Hcm Hbase Hopts.
  pose proof (Mount_new_eq st mp nodeFs opts dir base parent p pm cm opts'
                H1 H2 Hsplit Hf Hp Hpm Hcm Hbase Hopts) as Hrun.
  destruct (mounted_facts st parent p cm base nodeFs opts' Hp Hcm Hbase)
    as (Hfresh & Hpn & Hmfresh & _ & Hch & Hadd & Hinv).
  set (h := (HandleMap.Register (inodeMap st) (fresh (dom (inodes st)))).1).
  exists (mounted st parent p cm base nodeFs opts'),
         (fresh (dom (inodes st))), h, (fresh (dom (fsmounts st))).
  split; [done|]. split; [done|].
  assert (h ∉ dom (inodeMap st) ∪ ({[0%N; FUSE_ROOT_ID]} : gset N)) as Hh
    by apply is_fresh.
  split; [apply not_elem_of_dom; set_solver|].
  split; [set_solver|]. split; [set_solver|]. split; [done|].
  unfold mounted; simpl. fold h.
  split; [rewrite lookup_insert_ne by done; by rewrite lookup_insert_eq|].
  split; [done|]. split; [done|]. split.
  { eexists. rewrite lookup_insert_eq. split; [done|]. simpl.
    split; [by rewrite lookup_insert_eq|]. split; [|done].
    intros k Hk. rewrite lookup_insert_ne by done. unfold map_get.
    destruct (mounts p); simpl; [done|]. by rewrite lookup_empty. }
  split.
  { intros a k c. split; [apply Hinv|].
    intros [Hc|(-> & -> & ->)]; [by apply Hadd|done]. }
  split; [|done].
  intros a Ha Ha'. by rewrite !lookup_insert_ne by done.
Qed.

Lemma Mount_mounts_witness :
  ∃ st' node h m,
    Mount "/a/m" 3%positive None ex_state = Ok OK st' ∧
    inodes ex_state !! node = None ∧ inodeMap ex_state !! h = None ∧
    h ≠ 0%N ∧ h ≠ FUSE_ROOT_ID ∧ fsmounts ex_state !! m = None ∧
    inodes st' !! node = Some (mkInode h (Some ∅) None 0 (Some m) (Some m) []) ∧
    inodeMap st' = <[h := node]> (inodeMap ex_state) ∧
    fsmounts st' = <[m := mkMount 3%positive (Some node) None ∅]>
                     (fsmounts ex_state) ∧
    (∃ p', inodes st' !! 2%positive = Some p' ∧
           map_get (mounts p') "m" = Some m ∧
           (∀ k, k ≠ "m"%string →
              map_get (mounts p') k = map_get (mounts ex_a) k) ∧
           nodeId p' = nodeId ex_a ∧ lookupCount p' = lookupCount ex_a ∧
           mountPoint p' = mountPoint ex_a ∧ mount p' = mount ex_a) ∧
    (∀ a k c, child st' a k = Some c ↔
       child ex_state a k = Some c ∨
       (a = 2%positive ∧ k = "m"%string ∧ c = node)) ∧
    (∀ a, a ≠ 2%positive → a ≠ node →
          inodes st' !! a = inodes ex_state !! a) ∧
    events st' = events ex_state ++ [EvFsMount 3%positive].
Proof.
  apply (Mount_mounts ex_state "/a/m" 3%positive None "/a/" "m" 2%positive
           ex_a 1%positive
           {[ "b"%string := 3%positive; "x"%string := 6%positive ]} None).
  - discriminate.
  - discriminate.
  - reflexivity.
  - reflexivity.
  - reflexivity.
  - reflexivity.
  - reflexivity.
  - reflexivity.
  - exists ex_root, 1%positive,
           (mkMount 1%positive (Some 1%positive) None ∅).
    repeat split; reflexivity.
Defined.

(** X13: a second mount on the path of a mount that succeeded answers
    [EBUSY], whatever the backend and the options, and changes nothing. *)
Theorem Mount_twice_busy st mp nodeFs opts dir base parent p pm cm opts' :
  mp ≠ "/"%string → mp ≠ EmptyString → filepath_Split mp = (dir, base) →
  findInode st dir = Some parent → inodes st !! parent = Some p →
  mount p = Some pm → children p = Some cm → cm !! base = None →
  mount_options st opts opts' →
  ∃ st', Mount mp nodeFs opts st = Ok OK st' ∧
         ∀ nodeFs2 opts2, Mount mp nodeFs2 opts2 st' = Ok EBUSY st'.
Proof.
  intros H1 H2 Hsplit Hf Hp Hpm Hcm Hbase Hopts.
  exists (mounted st parent p cm base nodeFs opts').
  split; [by eapply Mount_new_eq|].
  destruct (mounted_facts st parent p cm base nodeFs opts' Hp Hcm Hbase)
    as (_ & _ & _ & Hroot & Hch & Hadd & _).
  intros nodeFs2 opts2. unfold Mount.
  rewrite (bool_decide_eq_false_2 _ H1), (bool_decide_eq_false_2 _ H2). simpl.
  rewrite Hsplit, bind_get.
  rewrite (findInode_mono st _ dir parent Hroot Hadd Hf).
  assert (∃ p', inodes (mounted st parent p cm base nodeFs opts') !! parent
                = Some p' ∧ mount p' = Some pm) as (p' & Hp' & Hm').
  { unfold mounted; simpl. rewrite lookup_insert_eq. eauto. }
  rewrite (bind_load _ _ _ _ Hp'), Hm'.
  rewrite (child_lookup _ _ _ _ Hp') in Hch. by rewrite Hch.
Qed.

Lemma Mount_twice_busy_witness :
  ∃ st', Mount "/a/m" 3%positive None ex_state = Ok OK st' ∧
         ∀ nodeFs2 opts2, Mount "/a/m" nodeFs2 opts2 st' = Ok EBUSY st'.
Proof.
  apply (Mount_twice_busy ex_state "/a/m" 3%positive None "/a/" "m" 2%positive
           ex_a 1%positive
           {[ "b"%string := 3%positive; "x"%string := 6%positive ]} None).
  - discriminate.
  - discriminate.
  - reflexivity.
  - reflexivity.
  - reflexivity.
  - reflexivity.
  - reflexivity.
  - reflexivity.
  - exists ex_root, 1%positive,
           (mkMount 1%positive (Some 1%positive) None ∅).
    repeat split; reflexivity.
Defined.

(** X14: [Mount] answers [OK], [ENOENT] or [EBUSY] and nothing else when
    it returns, and an answer other than [OK] means that nothing
    changed. *)
Theorem Mount_statuses st mp nodeFs opts :
  match Mount mp nodeFs opts st with
  | Ok s st' => s = OK ∨ (st' = st ∧ (s = ENOENT ∨ s = EBUSY))
  | _ => True
  end.
Proof.
  unfold Mount.
  destruct (bool_decide (mp = "/"%string) || bool_decide (mp = EmptyString)).
  - unfold bind at 1. destruct (mountRoot nodeFs opts st); [|done..].
    left. done.
  - destruct (filepath_Split mp) as [dir base]. rewrite bind_get.
    destruct (findInode st dir) as [parent|]; [|right; auto].
    destruct (inodes st !! parent) as [p|] eqn:Hp;
      [rewrite (bind_load _ _ _ _ Hp)|unfold bind, load; by rewrite Hp].
    destruct (mount p); [|right; auto].
    destruct (map_get (children p) base); [right; auto|].
    do 6 (unfold bind at 1;
            match goal with
            | |- context [match ?c ?s with Ok _ _ => _ | _ => _ end] =>
                destruct (c s) as [?v ?s1|?|]; [|done..]
            end).
    destruct (mountPoint _); [|done]. by left.
Qed.

Section Unmount_after_Mount.
Variable canUnmount : State → addr → bool.

(** The state that a successful unmount leaves, when the mount point is
    not its own parent. *)
Lemma Unmount_ok_eq st path dir name parent p mnt m mi i :
  filepath_Split path = (dir, name) →
  findInode st dir = Some parent → inodes st !! parent = Some p →
  map_get (mounts p) name = Some mnt → fsmounts st !! mnt = Some m →
  HandleMap.Count (mountOpenFiles m) = 0%nat →
  mountInode m = Some mi → inodes st !! mi = Some i → parent ≠ mi →
  canUnmount st mi = true →
  Unmount canUnmount path st = Ok OK
    (mkState (Debug st) (fsInit st) (inodeMap st) (rootNode st)
       (<[parent := set_children (delete name <$> children p)
                      (set_mounts (delete name <$> mounts p) p)]>
          (<[mi := set_mountPoint None i]> (inodes st)))
       (<[mnt := set_mountInode None m]> (fsmounts st))
       (events st ++ [EvFsUnmount (fs m); EvEntryNotify (nodeId p) name])).
Proof.
  intros Hsplit Hf Hp Hmnt Hm Hcount Hmi Hi Hne Hcu. unfold Unmount.
  rewrite Hsplit, bind_get, Hf, (bind_load _ _ _ _ Hp), Hmnt.
  rewrite (bind_load_mount _ _ _ _ Hm).
  rewrite bool_decide_eq_false_2 by lia.
  rewrite Hmi, (bind_load _ _ _ _ Hi), Hcu. simpl.
  rewrite bind_store_mount. set (st0 := set_fsmounts _ st).
  rewrite (bind_load _ _ _ st0 Hi), bind_store.
  set (st1 := set_inodes _ st0).
  assert (inodes st1 !! parent = Some p) as Hp1
    by (subst st1 st0; simpl; by rewrite lookup_insert_ne).
  rewrite (bind_load _ _ _ _ Hp1), bind_store.
  set (st2 := set_inodes _ st1).
  assert (inodes st2 !! parent
          = Some (set_mounts (delete name <$> mounts p) p)) as Hp2
    by (subst st2; simpl; by rewrite lookup_insert_eq).
  rewrite (bind_load _ _ _ _ Hp2), bind_store, !bind_emitM.
  unfold ret. f_equal. subst st2 st1 st0.
  unfold emit, set_inodes, set_fsmounts; simpl. f_equal.
  - apply map_eq. intros a. destruct (decide (a = parent)) as [->|Ha].
    + by rewrite !lookup_insert_eq.
    + by rewrite !(lookup_insert_ne _ parent) by done.
  - by rewrite <- app_assoc.
Qed.

(** X15: an unmount right after the mount succeeds when [canUnmount]
    agrees, and the tree is as it was before the mount: the child entries
    are the same and the parent holds no mount under the name.  The
    synthetic inode and the mount are detached but not freed: the inode
    keeps its handle in the handle map. *)
Theorem Mount_Unmount st mp nodeFs opts dir base parent p pm cm opts' :
  mp ≠ "/"%string → mp ≠ EmptyString → filepath_Split mp = (dir, base) →
  findInode st dir = Some parent → inodes st !! parent = Some p →
  mount p = Some pm → children p = Some cm → cm !! base = None →
  mount_options st opts opts' →
  (∀ st', Mount mp nodeFs opts st = Ok OK st' →
          canUnmount st' (fresh (dom (inodes st))) = true) →
  ∃ st1 st2 node h m,
    Mount mp nodeFs opts st = Ok OK st1 ∧
    Unmount canUnmount mp st1 = Ok OK st2 ∧
    (∀ a k, child st2 a k = child st a k) ∧
    (∀ a, a ≠ parent → a ≠ node → inodes st2 !! a = inodes st !! a) ∧
    (∃ p2, inodes st2 !! parent = Some p2 ∧
           p2 = set_mounts (mounts p2) p ∧
           map_get (mounts p2) base = None ∧
           ∀ k, k ≠ base → map_get (mounts p2) k = map_get (mounts p) k) ∧
    inodes st !! node = None ∧
    inodes st2 !! node = Some (mkInode h (Some ∅) None 0 None (Some m) []) ∧
    inodeMap st !! h = None ∧ inodeMap st2 !! h = Some node ∧
    fsmounts st !! m = None ∧
    fsmounts st2 !! m = Some (mkMount nodeFs None opts' ∅) ∧
    events st2 = events st ++ [EvFsMount nodeFs; EvFsUnmount nodeFs;
                               EvEntryNotify (nodeId p) base].
Proof.
  intros H1 H2 Hsplit Hf Hp Hpm Hcm Hbase Hopts Hcu.
  pose proof (Mount_new_eq st mp nodeFs opts dir base parent p pm cm opts'
                H1 H2 Hsplit Hf Hp Hpm Hcm Hbase Hopts) as Hrun.
  specialize (Hcu _ Hrun).
  destruct (mounted_facts st parent p cm base nodeFs opts' Hp Hcm Hbase)
    as (Hfresh & Hpn & Hmfresh & Hroot & Hch & Hadd & Hinv).
  set (st1 := mounted st parent p cm base nodeFs opts') in *.
  set (node := fresh (dom (inodes st))) in *.
  set (m := fresh (dom (fsmounts st))) in *.
  set (h := (HandleMap.Register (inodeMap st) node).1).
  assert (h ∉ dom (inodeMap st) ∪ ({[0%N; FUSE_ROOT_ID]} : gset N)) as Hh
    by apply is_fresh.
  set (p1 := set_mounts (Some (<[base := m]> (default ∅ (mounts p))))
               (set_children (Some (<[base := node]> cm)) p)).
  assert (inodes st1 !! parent = Some p1) as Hp1
    by (subst st1; unfold mounted; simpl; by rewrite lookup_insert_eq).
  assert (inodes st1 !! node
          = Some (mkInode h (Some ∅) None 0 (Some m) (Some m) [])) as Hn1.
  { subst st1; unfold mounted; simpl. rewrite lookup_insert_ne by done.
    by rewrite lookup_insert_eq. }
  assert (fsmounts st1 !! m = Some (mkMount nodeFs (Some node) opts' ∅)) as Hm1
    by (subst st1; unfold mounted; simpl; by rewrite lookup_insert_eq).
  pose proof (Unmount_ok_eq st1 mp dir base parent p1 m
                (mkMount nodeFs (Some node) opts' ∅) node
                (mkInode h (Some ∅) None 0 (Some m) (Some m) []) Hsplit
                (findInode_mono st st1 dir parent Hroot Hadd Hf) Hp1) as Hun.
  specialize (Hun ltac:(subst p1; simpl; by rewrite lookup_insert_eq) Hm1
                  ltac:(done) eq_refl Hn1 Hpn Hcu).
  eexists st1, _, node, h, m. split; [done|]. split; [exact Hun|].
  simpl. subst p1; simpl.
  assert (delete base (<[base := node]> cm) = cm) as Hdel
    by (by apply delete_insert_id).
  rewrite Hdel.
  split.
  { intros a k. unfold child; simpl.
    destruct (decide (a = parent)) as [->|Ha].
    - rewrite lookup_insert_eq, Hp. simpl. by rewrite Hcm.
    - rewrite lookup_insert_ne by done.
      destruct (decide (a = node)) as [->|Ha'].
      + rewrite lookup_insert_eq, Hfresh. simpl. apply lookup_empty.
      + rewrite lookup_insert_ne by done. subst st1; unfold mounted; simpl.
        by rewrite !lookup_insert_ne by done. }
  split.
  { intros a Ha Ha'. subst st1; unfold mounted; simpl.
    by rewrite !lookup_insert_ne by done. }
  split.
  { eexists. rewrite lookup_insert_eq. split; [done|]. simpl.
    split; [destruct p; simpl in *; by rewrite Hcm|].
    split; [by rewrite lookup_delete_eq|].
    intros k Hk. rewrite lookup_delete_ne, lookup_insert_ne by done.
    unfold map_get. destruct (mounts p); simpl; [done|]. by rewrite lookup_empty. }
  split; [done|]. split.
  { rewrite lookup_insert_ne by done. by rewrite lookup_insert_eq. }
  split; [apply not_elem_of_dom; set_solver|].
  split; [subst st1; unfold mounted; simpl; by rewrite lookup_insert_eq|].
  split; [done|]. split; [by rewrite lookup_insert_eq|].
  subst st1; unfold mounted; simpl. by rewrite <- app_assoc.
Qed.

(** X16: [Unmount] frees nothing: whatever it answers, the handle map is
    the same, and every inode is still allocated with its identifier, its
    lookup count, its mount and its open files. *)
Theorem Unmount_frees_nothing st path :
  res_rel (λ st',
             inodeMap st' = inodeMap st ∧ rootNode st' = rootNode st ∧
             ∀ a i, inodes st !! a = Some i →
               ∃ i', inodes st' !! a = Some i' ∧ nodeId i' = nodeId i ∧
                     lookupCount i' = lookupCount i ∧ mount i' = mount i ∧
                     openFiles i' = openFiles i)
          (Unmount canUnmount path st).
Proof.
  assert (∀ s : State, inodeMap s = inodeMap st ∧ rootNode s = rootNode st ∧
            (∀ a i, inodes st !! a = Some i →
               ∃ i', inodes s !! a = Some i' ∧ nodeId i' = nodeId i ∧
                     lookupCount i' = lookupCount i ∧ mount i' = mount i ∧
                     openFiles i' = openFiles i) →
          ∀ n x, (∀ i, inodes s !! n = Some i →
                    nodeId x = nodeId i ∧ lookupCount x = lookupCount i ∧
                    mount x = mount i ∧ openFiles x = openFiles i) →
          let s' := set_inodes (<[n := x]> (inodes s)) s in
          inodeMap s' = inodeMap st ∧ rootNode s' = rootNode st ∧
            (∀ a i, inodes st !! a = Some i →
               ∃ i', inodes s' !! a = Some i' ∧ nodeId i' = nodeId i ∧
                     lookupCount i' = lookupCount i ∧ mount i' = mount i ∧
                     openFiles i' = openFiles i)) as Hstore.
  { intros s (Hm & Hr & Hi) n x Hx s'. split; [done|]. split; [done|].
    intros a i Ha. destruct (Hi a i Ha) as (i' & Hi' & Hid & Hlc & Hmo & Hof).
    subst s'; simpl. destruct (decide (a = n)) as [->|Hne].
    - rewrite lookup_insert_eq. eexists. split; [done|].
      destruct (Hx _ Hi') as (-> & -> & -> & ->). done.
    - rewrite lookup_insert_ne by done. eauto. }
  assert (inodeMap st = inodeMap st ∧ rootNode st = rootNode st ∧
            (∀ a i, inodes st !! a = Some i →
               ∃ i', inodes st !! a = Some i' ∧ nodeId i' = nodeId i ∧
                     lookupCount i' = lookupCount i ∧ mount i' = mount i ∧
                     openFiles i' = openFiles i)) as H0 by eauto 10.
  unfold Unmount. destruct (filepath_Split path) as [dir name].
  rewrite bind_get.
  destruct (findInode st dir) as [parent|]; [|done].
  destruct (inodes st !! parent) as [p|] eqn:Hp;
    [rewrite (bind_load _ _ _ _ Hp)|unfold bind, load; by rewrite Hp].
  destruct (map_get (mounts p) name) as [mnt|]; [|done].
  destruct (fsmounts st !! mnt) as [m|] eqn:Hm;
    [rewrite (bind_load_mount _ _ _ _ Hm)
    |unfold bind, load_mount; by rewrite Hm].
  case_bool_decide; [done|].
  destruct (mountInode m) as [mi|]; [|done].
  destruct (inodes st !! mi) as [i|] eqn:Hi;
    [rewrite (bind_load _ _ _ _ Hi)|unfold bind, load; by rewrite Hi].
  destruct (canUnmount st mi); simpl; [|done].
  rewrite bind_store_mount.
  set (st0 := set_fsmounts _ st).
  rewrite (bind_load _ _ _ st0 Hi), bind_store.
  pose proof (Hstore st0 H0 mi (set_mountPoint None i)) as H1.
  specialize (H1 ltac:(intros i0 Hi0; simpl in Hi0; rewrite Hi in Hi0;
                       by injection Hi0 as <-)).
  simpl in H1. set (st1 := set_inodes _ st0) in *.
  destruct (inodes st1 !! parent) as [p1|] eqn:Hp1;
    [rewrite (bind_load _ _ _ _ Hp1)|unfold bind, load; by rewrite Hp1].
  rewrite bind_store.
  pose proof (Hstore st1 H1 parent
                (set_mounts (delete name <$> mounts p1) p1)) as H2.
  specialize (H2 ltac:(intros i0 Hi0; rewrite Hp1 in Hi0;
                       by injection Hi0 as <-)).
  simpl in H2. set (st2 := set_inodes _ st1) in *.
  assert (inodes st2 !! parent =
          Some (set_mounts (delete name <$> mounts p1) p1)) as Hp2
    by (subst st2; simpl; by rewrite lookup_insert_eq).
  rewrite (bind_load _ _ _ _ Hp2), bind_store, !bind_emitM.
  pose proof (Hstore st2 H2 parent
                (set_children (delete name <$> children (set_mounts (delete name <$> mounts p1) p1))
                   (set_mounts (delete name <$> mounts p1) p1))) as H3.
  specialize (H3 ltac:(intros i0 Hi0; rewrite Hp2 in Hi0;
                       by injection Hi0 as <-)).
  exact H3.
Qed.
End Unmount_after_Mount.

Lemma Mount_Unmount_witness :
  ∃ st1 st2 node h m,
    Mount "/a/m" 3%positive None ex_state = Ok OK st1 ∧
    Unmount (canUnmount_model 5) "/a/m" st1 = Ok OK st2 ∧
    (∀ a k, child st2 a k = child ex_state a k) ∧
    (∀ a, a ≠ 2%positive → a ≠ node →
          inodes st2 !! a = inodes ex_state !! a) ∧
    (∃ p2, inodes st2 !! 2%positive = Some p2 ∧
           p2 = set_mounts (mounts p2) ex_a ∧
           map_get (mounts p2) "m" = None ∧
           ∀ k, k ≠ "m"%string → map_get (mounts p2) k = map_get (mounts ex_a) k) ∧
    inodes ex_state !! node = None ∧
    inodes st2 !! node = Some (mkInode h (Some ∅) None 0 None (Some m) []) ∧
    inodeMap ex_state !! h = None ∧ inodeMap st2 !! h = Some node ∧
    fsmounts ex_state !! m = None ∧
    fsmounts st2 !! m = Some (mkMount 3%positive None None ∅) ∧
    events st2 = events ex_state ++ [EvFsMount 3%positive; EvFsUnmount 3%positive;
                                     EvEntryNotify (nodeId ex_a) "m"].
Proof.
  apply (Mount_Unmount (canUnmount_model 5) ex_state "/a/m" 3%positive None
           "/a/" "m" 2%positive ex_a 1%positive
           {[ "b"%string := 3%positive; "x"%string := 6%positive ]} None).
  - discriminate.
  - discriminate.
  - reflexivity.
  - reflexivity.
  - reflexivity.
  - reflexivity.
  - reflexivity.
  - reflexivity.
  - exists ex_root, 1%positive,
           (mkMount 1%positive (Some 1%positive) None ∅).
    repeat split; reflexivity.
  - intros st' H. vm_compute in H. injection H as <-. vm_compute. reflexivity.
Defined.

(** ** Notifications by path *)

(** X17: [FileNotify] answers [ENOENT] and notifies no one when the path
    does not resolve; when it resolves, it sends one inode notification
    with the identifier of the node and the offset and length it was given,
    and answers what the kernel answered.  [Notify] on such a path is
    [FileNotify] with offset and length zero. *)
Theorem FileNotify_outcome st path off len :
  (findInode st path = None →
     FileNotify path off len st = Ok ENOENT st) ∧
  (∀ node i,
     findInode st path = Some node → inodes st !! node = Some i →
     FileNotify path off len st
     = Ok (RawFsInit.InodeNotify (fsInit st) (mkInval (nodeId i) off len))
          (emit (EvInodeNotify (mkInval (nodeId i) off len)) st) ∧
     Notify path st = FileNotify path 0 0 st).
Proof.
  unfold FileNotify, Notify. rewrite !bind_get. split.
  - by intros ->.
  - intros node i Hf Hi. rewrite Hf, !(bind_load _ _ _ _ Hi).
    split; [done|].
    apply findInode_Some in Hf. rewrite Hf. by rewrite (bind_load _ _ _ _ Hi).
Qed.

(** X18: [EntryNotify] answers [ENOENT] and notifies no one when the
    directory does not resolve; when it resolves, it sends one entry
    notification for the name under the identifier of the directory,
    whether the directory holds the name or not, and answers what the
    kernel answered.  [Notify] on a path whose resolution stops at that
    directory is [EntryNotify] for the first name that is missing. *)
Theorem EntryNotify_outcome st dir name :
  (findInode st dir = None → EntryNotify dir name st = Ok ENOENT st) ∧
  (∀ node i,
     findInode st dir = Some node → inodes st !! node = Some i →
     EntryNotify dir name st
     = Ok (RawFsInit.EntryNotify (fsInit st) (nodeId i) name)
          (emit (EvEntryNotify (nodeId i) name) st) ∧
     ∀ path rest,
       findLastKnownInode st path = (node, name :: rest) →
       Notify path st = EntryNotify dir name st).
Proof.
  unfold EntryNotify. rewrite !bind_get. split.
  - by intros ->.
  - intros node i -> Hi. rewrite !(bind_load _ _ _ _ Hi). split; [done|].
    intros path rest Hl. unfold Notify. rewrite bind_get, Hl.
    by rewrite (bind_load _ _ _ _ Hi).
Qed.
